(** * templ: the code generator and the template-element parser

    A shallow embedding of the Go sources of the templ generator
    (package [generator]: [HasGoChanged], [Generate] and the [write*] visitor
    methods) and of [templElementExpressionParser.Parse] (package [parser]),
    followed by the properties proved about them.

    Conventions.
    - A Go [string] is a Rocq [string]: a sequence of bytes.  Rocq string
      literals have no escape sequences, so a backslash followed by [n] is two
      bytes; the bytes that Go writes with an escape are the constants
      [nl], [tab], [dq] and [bt] below.
    - A method that returns [error] and updates the generator is a
      computation in the monad [M]: the generator is threaded through, and the
      state reached so far is kept when an error is returned, as in Go.
    - The mutually recursive [write*] methods over nodes take the recursive
      [writeNode] as a parameter; [writeNodeFuel] closes the recursion. *)

From Stdlib Require Import String Ascii ZArith List Lia Bool DecimalString DecimalZ.
Import ListNotations.
Local Open Scope string_scope.
Local Open Scope Z_scope.

#[local] Set Warnings "-register-all".

(** ** Bytes that Go source writes with an escape *)

Definition chr (n : nat) : string := String (ascii_of_nat n) EmptyString.
Definition nl : string := chr 10.
Definition tab : string := chr 9.
Definition dq : string := chr 34.
Definition bt : string := chr 96.

Definition byteZ (c : ascii) : Z := Z.of_nat (nat_of_ascii c).

(** ** The Go standard library, as far as the generator calls it *)

Module utf8.

Definition RuneError : Z := 65533.
Definition RuneSelf : Z := 128.
Definition MaxRune : Z := 1114111.

Definition isCont (b : Z) : bool := (128 <=? b) && (b <=? 191).

Definition byteAt (s : string) (i : nat) : option Z :=
  option_map byteZ (String.get i s).

(** [utf8.DecodeRuneInString]: the first rune of [s] and its width in
    bytes; [(RuneError, 1)] for an invalid or short encoding and
    [(RuneError, 0)] for the empty string. *)
Definition DecodeRuneInString (s : string) : Z * nat :=
  match byteAt s 0 with
  | None => (RuneError, 0%nat)
  | Some b0 =>
    if b0 <? 128 then (b0, 1%nat)
    else if b0 <? 194 then (RuneError, 1%nat)
    else if b0 <? 224 then
      match byteAt s 1 with
      | Some b1 =>
        if isCont b1
        then (Z.lor (Z.shiftl (Z.land b0 31) 6) (Z.land b1 63), 2%nat)
        else (RuneError, 1%nat)
      | None => (RuneError, 1%nat)
      end
    else if b0 <? 240 then
      let lo := if b0 =? 224 then 160 else 128 in
      let hi := if b0 =? 237 then 159 else 191 in
      match byteAt s 1, byteAt s 2 with
      | Some b1, Some b2 =>
        if (lo <=? b1) && (b1 <=? hi) && isCont b2
        then (Z.lor (Z.shiftl (Z.land b0 15) 12)
                (Z.lor (Z.shiftl (Z.land b1 63) 6) (Z.land b2 63)), 3%nat)
        else (RuneError, 1%nat)
      | _, _ => (RuneError, 1%nat)
      end
    else if b0 <? 245 then
      let lo := if b0 =? 240 then 144 else 128 in
      let hi := if b0 =? 244 then 143 else 191 in
      match byteAt s 1, byteAt s 2, byteAt s 3 with
      | Some b1, Some b2, Some b3 =>
        if (lo <=? b1) && (b1 <=? hi) && isCont b2 && isCont b3
        then (Z.lor (Z.shiftl (Z.land b0 7) 18)
                (Z.lor (Z.shiftl (Z.land b1 63) 12)
                   (Z.lor (Z.shiftl (Z.land b2 63) 6) (Z.land b3 63))), 4%nat)
        else (RuneError, 1%nat)
      | _, _, _ => (RuneError, 1%nat)
      end
    else (RuneError, 1%nat)
  end.

Definition ValidRune (r : Z) : bool :=
  ((0 <=? r) && (r <? 55296)) || ((57343 <? r) && (r <=? MaxRune)).

Definition byteS (b : Z) : string := chr (Z.to_nat b).

(** [utf8.AppendRune] onto the empty buffer: the UTF-8 encoding of [r]. *)
Definition EncodeRune (r : Z) : string :=
  if (0 <=? r) && (r <? 128) then byteS r
  else if (0 <=? r) && (r <? 2048) then
    byteS (Z.lor 192 (Z.shiftr r 6)) ++ byteS (Z.lor 128 (Z.land r 63))
  else if negb (ValidRune r) then chr 239 ++ chr 191 ++ chr 189
  else if r <? 65536 then
    byteS (Z.lor 224 (Z.shiftr r 12))
    ++ byteS (Z.lor 128 (Z.land (Z.shiftr r 6) 63))
    ++ byteS (Z.lor 128 (Z.land r 63))
  else
    byteS (Z.lor 240 (Z.shiftr r 18))
    ++ byteS (Z.lor 128 (Z.land (Z.shiftr r 12) 63))
    ++ byteS (Z.lor 128 (Z.land (Z.shiftr r 6) 63))
    ++ byteS (Z.lor 128 (Z.land r 63)).

(** The runes of [s] in order, each with the bytes that encode it.  [skip]
    counts the continuation bytes of the rune decoded last. *)
Fixpoint runesFrom (skip : nat) (s : string) : list (Z * string) :=
  match s with
  | EmptyString => []
  | String _ t =>
    match skip with
    | S k => runesFrom k t
    | O =>
      let '(r, width) := DecodeRuneInString s in
      (r, substring 0 width s) :: runesFrom (Nat.pred width) t
    end
  end.

Definition runes (s : string) : list (Z * string) := runesFrom 0 s.

End utf8.

Module unicode.

(** [unicode.IsSpace]: the Latin-1 cases of the Go source, and above Latin-1
    the ranges of the Unicode [White_Space] property. *)
Definition IsSpace (r : Z) : bool :=
  if r <=? 255 then
    (r =? 9) || (r =? 10) || (r =? 11) || (r =? 12) || (r =? 13)
    || (r =? 32) || (r =? 133) || (r =? 160)
  else
    (r =? 5760) || ((8192 <=? r) && (r <=? 8202)) || (r =? 8232)
    || (r =? 8233) || (r =? 8239) || (r =? 8287) || (r =? 12288).

End unicode.

Module strings.

Definition HasPrefix (s prefix : string) : bool := String.prefix prefix s.

Fixpoint Repeat (s : string) (count : nat) : string :=
  match count with
  | O => ""
  | S n => s ++ Repeat s n
  end.

(** [strings.Split] for a separator of one byte, which is how the generator
    calls it: always at least one piece. *)
Fixpoint Split (s : string) (sep : ascii) : list string :=
  match s with
  | EmptyString => [""]
  | String c t =>
    if Ascii.eqb c sep then "" :: Split t sep
    else match Split t sep with
         | h :: r => String c h :: r
         | [] => [String c ""]
         end
  end.

Fixpoint Join (elems : list string) (sep : string) : string :=
  match elems with
  | [] => ""
  | [e] => e
  | e :: r => e ++ sep ++ Join r sep
  end.

Fixpoint dropWhileRune (f : Z -> bool) (l : list (Z * string)) : list (Z * string) :=
  match l with
  | [] => []
  | (r, b) :: t => if f r then dropWhileRune f t else l
  end.

Definition bytesOf (l : list (Z * string)) : string :=
  fold_right (fun rb acc => snd rb ++ acc) "" l.

(** [strings.TrimLeftFunc]. *)
Definition TrimLeftFunc (s : string) (f : Z -> bool) : string :=
  bytesOf (dropWhileRune f (utf8.runes s)).

(** [strings.TrimRightFunc]. *)
Definition TrimRightFunc (s : string) (f : Z -> bool) : string :=
  bytesOf (rev (dropWhileRune f (rev (utf8.runes s)))).

(** [strings.TrimSpace]: [s] without its leading and trailing white space,
    as Unicode defines it. *)
Definition TrimSpace (s : string) : string :=
  TrimRightFunc (TrimLeftFunc s unicode.IsSpace) unicode.IsSpace.

End strings.

Module strconv.

(** [strconv.Itoa]. *)
Definition Itoa (i : Z) : string := NilZero.string_of_int (Z.to_int i).

Definition lowerhex (d : Z) : string :=
  match String.get (Z.to_nat d) "0123456789abcdef" with
  | Some c => String c ""
  | None => ""
  end.

(** The hexadecimal digits of [r] from bit [4 * n] down, as the loops
    [for s := 12; s >= 0; s -= 4] of [appendEscapedRune] write them. *)
Fixpoint hexDigits (n : nat) (r : Z) : string :=
  match n with
  | O => ""
  | S k => lowerhex (Z.land (Z.shiftr r (4 * Z.of_nat k)) 15) ++ hexDigits k r
  end.

Section Quote.

(** [strconv.IsPrint] on runes above Latin-1 is a table lookup in Go's
    Unicode tables; the table is a parameter here. *)
Variable isPrintWide : Z -> bool.

Definition IsPrint (r : Z) : bool :=
  if r <=? 255 then
    if (32 <=? r) && (r <=? 126) then true
    else if (161 <=? r) && (r <=? 255) then negb (r =? 173)
    else false
  else isPrintWide r.

(** [appendEscapedRune] with the double quote as [quote], [ASCIIonly = false] and
    [graphicOnly = false], onto the empty buffer. *)
Definition appendEscapedRune (r : Z) : string :=
  if (r =? 34) || (r =? 92) then "\" ++ utf8.byteS r
  else if IsPrint r then utf8.EncodeRune r
  else if r =? 7 then "\a"
  else if r =? 8 then "\b"
  else if r =? 12 then "\f"
  else if r =? 10 then "\n"
  else if r =? 13 then "\r"
  else if r =? 9 then "\t"
  else if r =? 11 then "\v"
  else if (r <? 32) || (r =? 127) then "\x" ++ hexDigits 2 r
  else
    let r := if utf8.ValidRune r then r else utf8.RuneError in
    if r <? 65536 then "\u" ++ hexDigits 4 r
    else "\U" ++ hexDigits 8 r.

(** The loop of [appendQuotedWith]; [skip] counts the bytes of the rune
    in progress that are still to be passed over. *)
Fixpoint quoteBody (skip : nat) (s : string) : string :=
  match s with
  | EmptyString => ""
  | String c t =>
    match skip with
    | S k => quoteBody k t
    | O =>
      let '(r, width) :=
        if utf8.RuneSelf <=? byteZ c then utf8.DecodeRuneInString s
        else (byteZ c, 1%nat) in
      (if (Nat.eqb width 1) && (r =? utf8.RuneError)
       then "\x" ++ hexDigits 2 (byteZ c)
       else appendEscapedRune r)
      ++ quoteBody (Nat.pred width) t
    end
  end.

(** [strconv.Quote]. *)
Definition Quote (s : string) : string := dq ++ quoteBody 0 s ++ dq.

End Quote.

End strconv.

Module html.

Definition escapeByte (c : ascii) : string :=
  let b := byteZ c in
  if b =? 38 then "&amp;"
  else if b =? 39 then "&#39;"
  else if b =? 60 then "&lt;"
  else if b =? 62 then "&gt;"
  else if b =? 34 then "&#34;"
  else String c "".

(** [html.EscapeString]. *)
Fixpoint EscapeString (s : string) : string :=
  match s with
  | EmptyString => ""
  | String c t => escapeByte c ++ EscapeString t
  end.

End html.

(** Package [path/filepath], as it is on Unix: the separator is the
    slash, and there is no volume name. *)
Module filepath.


(** [filepath.Split] splits [path] immediately following the final
    separator, into a directory and a file name; with no separator the
    directory is empty. *)
Fixpoint Split (path : string) : string * string :=
  match path with
  | EmptyString => ("", "")
  | String c t =>
    let '(dir, file) := Split t in
    match dir with
    | EmptyString =>
      if Ascii.eqb c "/" then (String c "", file) else ("", String c file)
    | _ => (String c dir, file)
    end
  end.

End filepath.

(** ** Package [parser]: the syntax tree the generator reads

    The declarations of these types are in the parser package; the fields
    are the ones the generator and the parser fragment read.  Each struct is a
    record in a module of its name, so that Go's [n.Name] reads
    [Element.Name n]. *)

Record Position := mkPosition { Index : Z; Line : Z; Col : Z }.

Record Range := mkRange { From : Position; To : Position }.

Module Expression.
Record t := mk { Value : string; Range : Range }.
End Expression.

(** Modelled from the spec: the [TrailingSpace] marker of a node is one of
    none, horizontal and vertical; [TrailingSpace_string] is the Go string
    behind each constant ([SpaceNone] the empty string, [SpaceHorizontal] one
    space, [SpaceVertical] one newline). *)
Inductive TrailingSpace := SpaceNone | SpaceHorizontal | SpaceVertical.

Definition TrailingSpace_string (n : TrailingSpace) : string :=
  match n with
  | SpaceNone => ""
  | SpaceHorizontal => " "
  | SpaceVertical => nl
  end.

Definition TrailingSpace_eqb (a b : TrailingSpace) : bool :=
  match a, b with
  | SpaceNone, SpaceNone | SpaceHorizontal, SpaceHorizontal
  | SpaceVertical, SpaceVertical => true
  | _, _ => false
  end.

(** *** Attributes *)

Inductive AttributeKey :=
| ConstantAttributeKey (Name : string)
| ExpressionAttributeKey (Expression : Expression.t).

Module BoolConstantAttribute.
Record t := mk { Key : AttributeKey }.
End BoolConstantAttribute.

Module ConstantAttribute.
Record t := mk { Key : AttributeKey; Value : string; SingleQuote : bool }.
End ConstantAttribute.

Module BoolExpressionAttribute.
Record t := mk { Key : AttributeKey; Expression : Expression.t }.
End BoolExpressionAttribute.

Module ExpressionAttribute.
Record t := mk { Key : AttributeKey; Expression : Expression.t }.
End ExpressionAttribute.

Module SpreadAttributes.
Record t := mk { Expression : Expression.t }.
End SpreadAttributes.

Module ConditionalAttribute.
Record t (A : Type) := mk { Expression : Expression.t; Then : list A; Else : list A }.
Arguments mk {A}.
Arguments Expression {A}.
Arguments Then {A}.
Arguments Else {A}.
End ConditionalAttribute.

Inductive Attribute :=
| ABoolConstant (a : BoolConstantAttribute.t)
| AConstant (a : ConstantAttribute.t)
| ABoolExpression (a : BoolExpressionAttribute.t)
| AExpression (a : ExpressionAttribute.t)
| ASpread (a : SpreadAttributes.t)
| AConditional (a : ConditionalAttribute.t Attribute).

(** [parser.CopyAttributes] returns a deep copy, so that the generator can
    rewrite the copy in place; a value is its own copy. *)
Definition CopyAttributes (attr : list Attribute) : list Attribute := attr.

(** *** Nodes *)

Module DocType.
Record t := mk { Value : string }.
End DocType.

Module Element.
(** Modelled from the spec: [IsVoidElement] and [IsBlockElement] are the
    [is_void] and [is_block] fields of the spec's [Element]; in Go they
    are methods that look the name up in the parser's tables. *)
Record t (N : Type) := mk {
  Name : string;
  Attributes : list Attribute;
  Children : list N;
  TrailingSpace : TrailingSpace;
  IsVoidElement : bool;
  IsBlockElement : bool }.
Arguments mk {N}.
Arguments Name {N}.
Arguments Attributes {N}.
Arguments Children {N}.
Arguments TrailingSpace {N}.
Arguments IsVoidElement {N}.
Arguments IsBlockElement {N}.
End Element.

Module RawElement.
Record t := mk { Name : string; Attributes : list Attribute; Contents : string }.
End RawElement.

Module GoCode.
Record t := mk { Expression : Expression.t; TrailingSpace : TrailingSpace }.
End GoCode.

Module ScriptContents.
(** [Value] and [GoCode] are pointers in Go: [None] is [nil]. *)
Record t := mk {
  Value : option string;
  GoCode : option GoCode.t;
  InsideStringLiteral : bool }.
End ScriptContents.

Module ScriptElement.
Record t := mk { Attributes : list Attribute; Contents : list ScriptContents.t }.
End ScriptElement.

Module HTMLComment.
Record t := mk { Contents : string }.
End HTMLComment.

Module Text.
Record t := mk { Value : string; TrailingSpace : TrailingSpace }.
End Text.

Module Whitespace.
Record t := mk { Value : string }.
End Whitespace.

Module StringExpression.
Record t := mk { Expression : Expression.t; TrailingSpace : TrailingSpace }.
End StringExpression.

Module GoComment.
Record t := mk { Contents : string }.
End GoComment.

Module TemplElementExpression.
Record t (N : Type) := mk { Expression : Expression.t; Children : list N }.
Arguments mk {N}.
Arguments Expression {N}.
Arguments Children {N}.
End TemplElementExpression.

Module CallTemplateExpression.
Record t := mk { Expression : Expression.t }.
End CallTemplateExpression.

Module ForExpression.
Record t (N : Type) := mk { Expression : Expression.t; Children : list N }.
Arguments mk {N}.
Arguments Expression {N}.
Arguments Children {N}.
End ForExpression.

Module ElseIfExpression.
Record t (N : Type) := mk { Expression : Expression.t; Then : list N }.
Arguments mk {N}.
Arguments Expression {N}.
Arguments Then {N}.
End ElseIfExpression.

Module IfExpression.
Record t (N : Type) := mk {
  Expression : Expression.t;
  Then : list N;
  ElseIfs : list (ElseIfExpression.t N);
  Else : list N }.
Arguments mk {N}.
Arguments Expression {N}.
Arguments Then {N}.
Arguments ElseIfs {N}.
Arguments Else {N}.
End IfExpression.

Module CaseExpression.
Record t (N : Type) := mk { Expression : Expression.t; Children : list N }.
Arguments mk {N}.
Arguments Expression {N}.
Arguments Children {N}.
End CaseExpression.

Module SwitchExpression.
Record t (N : Type) := mk { Expression : Expression.t; Cases : list (CaseExpression.t N) }.
Arguments mk {N}.
Arguments Expression {N}.
Arguments Cases {N}.
End SwitchExpression.

(** The [parser.Node] interface, closed over the implementations that
    [writeNode] switches on. *)
Inductive Node :=
| NDocType (n : DocType.t)
| NElement (n : Element.t Node)
| NHTMLComment (n : HTMLComment.t)
| NChildrenExpression
| NRawElement (n : RawElement.t)
| NScriptElement (n : ScriptElement.t)
| NForExpression (n : ForExpression.t Node)
| NCallTemplateExpression (n : CallTemplateExpression.t)
| NTemplElementExpression (n : TemplElementExpression.t Node)
| NIfExpression (n : IfExpression.t Node)
| NSwitchExpression (n : SwitchExpression.t Node)
| NStringExpression (n : StringExpression.t)
| NGoCode (n : GoCode.t)
| NWhitespace (n : Whitespace.t)
| NText (n : Text.t)
| NGoComment (n : GoComment.t).

(** The [parser.WhitespaceTrailer] interface: [Some] for the nodes that
    implement it ([Element], [Text], [StringExpression] and [GoCode], the
    nodes that have a [TrailingSpace] field), [None] when the type assertion
    [current.(parser.WhitespaceTrailer)] fails. *)
Definition Trailing (current : Node) : option TrailingSpace :=
  match current with
  | NElement n => Some (Element.TrailingSpace n)
  | NText n => Some (Text.TrailingSpace n)
  | NStringExpression n => Some (StringExpression.TrailingSpace n)
  | NGoCode n => Some (GoCode.TrailingSpace n)
  | _ => None
  end.

Definition list_max_by {A : Type} (f : A -> nat) (l : list A) : nat :=
  fold_right (fun a acc => Nat.max (f a) acc) 0%nat l.

(** The nesting depth of a node: the number of [writeNode] calls that are
    active at once while it is written, less one. *)
Fixpoint depth (n : Node) : nat :=
  match n with
  | NElement e => S (list_max_by depth (Element.Children e))
  | NForExpression e => S (list_max_by depth (ForExpression.Children e))
  | NTemplElementExpression e =>
      S (list_max_by depth (TemplElementExpression.Children e))
  | NIfExpression e =>
      S (Nat.max (list_max_by depth (IfExpression.Then e))
           (Nat.max
              (list_max_by (fun ei => list_max_by depth (ElseIfExpression.Then ei))
                 (IfExpression.ElseIfs e))
              (list_max_by depth (IfExpression.Else e))))
  | NSwitchExpression e =>
      S (list_max_by (fun c => list_max_by depth (CaseExpression.Children c))
           (SwitchExpression.Cases e))
  | _ => 0%nat
  end.

(** *** Template files *)

Module TemplateFileGoExpression.
Record t := mk { Expression : Expression.t }.
End TemplateFileGoExpression.

Module HTMLTemplate.
Record t := mk { Range : Range; Expression : Expression.t; Children : list Node }.
End HTMLTemplate.

Module ConstantCSSProperty.
Record t := mk { Name : string; Value : string }.

(** Modelled from the spec: [ConstantCSSProperty.String(minified)] is in
    the parser package; with [minified = true] a constant property is
    written [name:value;], as the generated [WriteString] calls of the
    repository's expected outputs show. *)
Definition String_minified (p : t) : string := Name p ++ ":" ++ Value p ++ ";".
End ConstantCSSProperty.

Module ExpressionCSSProperty.
Record t := mk { Name : string; Value : StringExpression.t }.
End ExpressionCSSProperty.

Inductive CSSProperty :=
| PConstant (p : ConstantCSSProperty.t)
| PExpression (p : ExpressionCSSProperty.t).

Module CSSTemplate.
Record t := mk {
  Range : Range;
  Name : string;
  Expression : Expression.t;
  Properties : list CSSProperty }.
End CSSTemplate.

Module ScriptTemplate.
Record t := mk {
  Range : Range;
  Name : Expression.t;
  Parameters : Expression.t;
  Value : string }.
End ScriptTemplate.

(** The [parser.TemplateFileNode] interface.  Each implementation is a
    pointer, which the generator tests against [nil]: [None] is [nil]. *)
Inductive TemplateFileNode :=
| TFGoExpression (n : option TemplateFileGoExpression.t)
| TFHTMLTemplate (n : option HTMLTemplate.t)
| TFCSSTemplate (n : option CSSTemplate.t)
| TFScriptTemplate (n : option ScriptTemplate.t).

Module Package.
Record t := mk { Expression : Expression.t }.
End Package.

Module TemplateFile.
Record t := mk {
  Header : list (option TemplateFileGoExpression.t);
  Package : Package.t;
  Nodes : list TemplateFileNode }.
End TemplateFile.

(** Modelled from the spec: the source map is in the parser package.  It is
    two vectors of [(src, dst)] pairs that [Add] (the spec's
    [add_expression]) and [AddSymbolRange] (its [add_symbol]) append to,
    both in insertion order. *)
Module SourceMap.
Record t := mk {
  Expressions : list (Range * Range);
  SymbolRanges : list (Range * Range) }.

Definition NewSourceMap : t := mk [] [].

Definition Add (sm : t) (src : Expression.t) (tgt : Range) : t :=
  mk (Expressions sm ++ [(Expression.Range src, tgt)]) (SymbolRanges sm).

Definition AddSymbolRange (sm : t) (src tgt : Range) : t :=
  mk (Expressions sm) (SymbolRanges sm ++ [(src, tgt)]).
End SourceMap.

(** ** Package [parser]: the template-element parser

    [templElementExpressionParser.Parse].  The input, the parser combinators
    of the [parse] library and the parsers that [Parse] calls ([parseGo],
    the two brace parsers and the template node parser) are declared
    outside the file under study, and are parameters. *)

Module parse.
Record ParseError := mkParseError { Msg : string; Pos : Position }.

(** [parse.Error(msg, pos)]. *)
Definition Error (msg : string) (pos : Position) : ParseError :=
  mkParseError msg pos.
End parse.

Section TemplElementExpressionParser.

(** [*parse.Input]: a parser reads it and leaves it advanced. *)
Variable Input : Type.
Variable Input_Position : Input -> Position.

(** [parse.Parser[T]]: [Parse(pi)] returns [(T, matched, err)]. *)
Definition Parser (T : Type) : Type :=
  Input -> (T * bool * option parse.ParseError) * Input.

Variable Brace : Type.
Variable Rune_at : Parser string.
Variable parseGo_templ_element :
  Input -> (Expression.t * option parse.ParseError) * Input.
Variable openBraceWithOptionalPadding : Parser Brace.
Variable closeBraceWithOptionalPadding : Parser Brace.
Variable newTemplateNodeParser : Parser Brace -> string -> Parser (list Node).

(** The results [(n, matched, err)] of [Parse]; [n] is [None] for a nil
    node. *)
Definition ParseResult : Type := option Node * bool * option parse.ParseError.

Definition templElementExpressionParser_Parse (pi : Input) : ParseResult * Input :=
  (* Check the prefix first. *)
  let '((_, matched, err), pi) := Rune_at pi in
  match err, matched with
  | Some _, _ | None, false => ((None, false, None), pi)
  | None, true =>
    (* Parse the Go expression. *)
    let '((expression, err), pi) := parseGo_templ_element pi in
    let r := TemplElementExpression.mk expression [] in
    match err with
    | Some e => ((Some (NTemplElementExpression r), true, Some e), pi)
    | None =>
      (* Check to see if there's an open brace for children. *)
      let '((_, hasOpenBrace, err), pi) := openBraceWithOptionalPadding pi in
      match err with
      | Some e => ((None, matched, Some e), pi)
      | None =>
        if negb hasOpenBrace then ((Some (NTemplElementExpression r), true, None), pi)
        else
          (* Node contents. *)
          let np := newTemplateNodeParser closeBraceWithOptionalPadding
                      "templ element closing brace" in
          let '((nodes, matched, err), pi) := np pi in
          let r := TemplElementExpression.mk expression nodes in
          match err, matched with
          | Some _, _ | None, false =>
            (* Populate the nodes anyway, so that the LSP can use them. *)
            let err := parse.Error
              ("@" ++ Expression.Value expression
                   ++ ": expected nodes, but none were found")
              (Input_Position pi) in
            ((Some (NTemplElementExpression r), true, Some err), pi)
          | None, true =>
            (* Read the required closing brace. *)
            let '((_, matched, err), pi) := closeBraceWithOptionalPadding pi in
            match err, matched with
            | Some _, _ | None, false =>
              let err := parse.Error
                ("@" ++ Expression.Value expression
                     ++ ": missing end (expected '}')")
                (Input_Position pi) in
              ((Some (NTemplElementExpression r), true, Some err), pi)
            | None, true => ((Some (NTemplElementExpression r), true, None), pi)
            end
          end
      end
    end
  end.

End TemplElementExpressionParser.

(** ** Package [generator] *)

(** A Go [error] of the generator: its message.  [None] is [nil]. *)
Definition error : Type := string.

Module GeneratorOptions.
Record t := mk {
  Version : string;
  FileName : string;
  SkipCodeGeneratedComment : bool;
  GeneratedDate : string }.
End GeneratorOptions.

Module GeneratorOutput.
Record t := mk {
  Options : GeneratorOptions.t;
  SourceMap : SourceMap.t;
  Literals : list string }.
End GeneratorOutput.






(** The loop [for i, prev := range previous.Literals] of [HasTextChanged],
    from index [i] on; [None] when [updated.Literals[i]] is out of range. *)
Fixpoint HasTextChanged_loop (i : nat) (previous updated : list string) : option bool :=
  match previous with
  | [] => Some false
  | prev :: rest =>
    match nth_error updated i with
    | None => None
    | Some upd =>
      if negb (String.eqb prev upd) then Some true
      else HasTextChanged_loop (S i) rest updated
    end
  end.

(** [HasTextChanged] returns true if the text literals have changed between
    the previous and updated [GeneratorOutput]. *)
Definition HasTextChanged (previous updated : GeneratorOutput.t) : option bool :=
  if negb (Nat.eqb (length (GeneratorOutput.Literals previous))
             (length (GeneratorOutput.Literals updated)))
  then Some true
  else HasTextChanged_loop 0 (GeneratorOutput.Literals previous)
         (GeneratorOutput.Literals updated).

(** *** The range writer *)

Definition u32 (z : Z) : Z := z mod 2 ^ 32.
Definition u64 (z : Z) : Z := z mod 2 ^ 64.

(** Modelled from the spec: the [RangeWriter] is declared outside the files
    under study.  It wraps a byte sink, here the bytes written so far, and
    the current cursor: [Write] appends [s], advances the cursor counting
    newlines and columns, and returns the range just written; [WriteIndent]
    prepends [level] tabs, and its range covers indentation and text;
    [WriteStringLiteral] emits the statement that writes [s] to the
    per-render buffer at run time and appends [s] to [Literals].  The cursor
    is [{ byte_offset : u64; line : u32; col : u32 }]. *)
Module RangeWriter.
Record t := mk { Current : Position; w : string; Literals : list string }.

Definition NewRangeWriter : t := mk (mkPosition 0 0 0) "" [].

Definition advanceByte (p : Position) (c : ascii) : Position :=
  if Ascii.eqb c (ascii_of_nat 10)
  then mkPosition (u64 (Index p + 1)) (u32 (Line p + 1)) 0
  else mkPosition (u64 (Index p + 1)) (Line p) (u32 (Col p + 1)).

Fixpoint advance (p : Position) (s : string) : Position :=
  match s with
  | EmptyString => p
  | String c t => advance (advanceByte p c) t
  end.

Definition Write (rw : t) (s : string) : Range * t :=
  let to := advance (Current rw) s in
  (mkRange (Current rw) to, mk to (w rw ++ s) (Literals rw)).

Definition WriteIndent (rw : t) (level : nat) (s : string) : Range * t :=
  Write rw (strings.Repeat tab level ++ s).

Definition literalStatement (s : string) : string :=
  "_, templ_7745c5c3_Err = templ_7745c5c3_Buffer.WriteString("
    ++ dq ++ s ++ dq ++ ")" ++ nl.

Definition WriteStringLiteral (rw : t) (level : nat) (s : string) : Range * t :=
  let '(r, rw) := WriteIndent rw level (literalStatement s) in
  (r, mk (Current rw) (w rw) (Literals rw ++ [s])).
End RangeWriter.

(** *** The generator and its monad *)

Record generator := mkGenerator {
  tf : TemplateFile.t;
  w : RangeWriter.t;
  sourceMap : SourceMap.t;
  variableID : Z;
  childrenVar : string;
  options : GeneratorOptions.t }.

(** The outcome of a method: [Ok] with its results when [err] is nil,
    [Err] with the error otherwise.  [OutOfFuel] is not a Go outcome: it
    marks a run of [writeNodeFuel] that was given too little fuel. *)
Inductive result (A : Type) :=
| Ok (a : A)
| Err (e : error)
| OutOfFuel.
Arguments Ok {A}.
Arguments Err {A}.
Arguments OutOfFuel {A}.

Definition M (A : Type) : Type := generator -> result A * generator.

Definition ret {A : Type} (a : A) : M A := fun g => (Ok a, g).

Definition bind {A B : Type} (m : M A) (f : A -> M B) : M B :=
  fun g =>
    match m g with
    | (Ok a, g') => f a g'
    | (Err e, g') => (Err e, g')
    | (OutOfFuel, g') => (OutOfFuel, g')
    end.

Declare Scope gen_scope.
Delimit Scope gen_scope with gen.
Notation "x <- c1 ;; c2" := (bind c1 (fun x => c2))
  (at level 61, c1 at next level, right associativity) : gen_scope.
Notation "c1 ;; c2" := (bind c1 (fun _ => c2))
  (at level 61, right associativity) : gen_scope.
Local Open Scope gen_scope.

(** [return errors.New(e)]. *)
Definition raise {A : Type} (e : error) : M A := fun g => (Err e, g).

(** [err = m]: run [m] and keep its error in a variable instead of
    returning it. *)
Definition attempt {A : Type} (m : M A) : M (option error) :=
  fun g =>
    match m g with
    | (Ok _, g') => (Ok None, g')
    | (Err e, g') => (Ok (Some e), g')
    | (OutOfFuel, g') => (OutOfFuel, g')
    end.

(** [return err] for an [err] kept by [attempt]. *)
Definition returnErr (err : option error) : M unit :=
  match err with
  | None => ret tt
  | Some e => raise e
  end.

Definition gets {A : Type} (f : generator -> A) : M A := fun g => (Ok (f g), g).

(** [g.w.Write(s)]. *)
Definition Write (s : string) : M Range :=
  fun g =>
    let '(r, rw) := RangeWriter.Write (w g) s in
    (Ok r, mkGenerator (tf g) rw (sourceMap g) (variableID g) (childrenVar g) (options g)).

(** [g.w.WriteIndent(level, s)]. *)
Definition WriteIndent (level : nat) (s : string) : M Range :=
  fun g =>
    let '(r, rw) := RangeWriter.WriteIndent (w g) level s in
    (Ok r, mkGenerator (tf g) rw (sourceMap g) (variableID g) (childrenVar g) (options g)).

(** [g.w.WriteStringLiteral(level, s)]. *)
Definition WriteStringLiteral (level : nat) (s : string) : M Range :=
  fun g =>
    let '(r, rw) := RangeWriter.WriteStringLiteral (w g) level s in
    (Ok r, mkGenerator (tf g) rw (sourceMap g) (variableID g) (childrenVar g) (options g)).

(** [g.sourceMap.Add(src, tgt)]. *)
Definition sourceMap_Add (src : Expression.t) (tgt : Range) : M unit :=
  fun g =>
    (Ok tt, mkGenerator (tf g) (w g) (SourceMap.Add (sourceMap g) src tgt)
              (variableID g) (childrenVar g) (options g)).

(** [g.sourceMap.AddSymbolRange(src, tgt)]. *)
Definition sourceMap_AddSymbolRange (src tgt : Range) : M unit :=
  fun g =>
    (Ok tt, mkGenerator (tf g) (w g) (SourceMap.AddSymbolRange (sourceMap g) src tgt)
              (variableID g) (childrenVar g) (options g)).

(** [g.childrenVar = v]. *)
Definition set_childrenVar (v : string) : M unit :=
  fun g =>
    (Ok tt, mkGenerator (tf g) (w g) (sourceMap g) (variableID g) v (options g)).

(** Go's [int] is 64 bits wide on the platforms templ is built for. *)
Definition int_wrap (z : Z) : Z := (z + 2 ^ 63) mod 2 ^ 64 - 2 ^ 63.

Definition createVariableName : M string :=
  fun g =>
    let id := int_wrap (variableID g + 1) in
    (Ok ("templ_7745c5c3_Var" ++ strconv.Itoa id),
     mkGenerator (tf g) (w g) (sourceMap g) id (childrenVar g) (options g)).

(** *** The generator's methods *)

Section Generator.

(** [strconv.IsPrint] above Latin-1 (Go's Unicode tables), the hexadecimal
    SHA-256 digest [hex.EncodeToString(sha256.Sum(body))], and the [String]
    method of [parser.ExpressionAttributeKey]: all declared outside the files
    under study. *)
Variable isPrintWide : Z -> bool.
Variable sha256_hex : string -> string.
Variable ExpressionAttributeKey_String : Expression.t -> string.

(** [attr.Key.String()]. *)
Definition AttributeKey_String (k : AttributeKey) : string :=
  match k with
  | ConstantAttributeKey name => name
  | ExpressionAttributeKey e => ExpressionAttributeKey_String e
  end.

Definition escapeQuotes (s : string) : string :=
  let quoted := strconv.Quote isPrintWide s in
  substring 1 (String.length quoted - 2)%nat quoted.

(** The loop of [createGoString] over the sections between backticks. *)
Fixpoint createGoString_sects (sects : list string) : string :=
  match sects with
  | [] => ""
  | sect :: rest =>
    sect
    ++ (if (1 <=? length rest)%nat
        then bt ++ " + " ++ dq ++ bt ++ dq ++ " + " ++ bt
        else "")
    ++ createGoString_sects rest
  end.

Definition createGoString (s : string) : string :=
  bt ++ createGoString_sects (strings.Split s (ascii_of_nat 96)) ++ bt.

Definition functionName (name body : string) : string :=
  let hp := substring 0 4 (sha256_hex body) in
  "__templ_" ++ name ++ "_" ++ hp.

Definition stripTypes (parameters : string) : string :=
  let params := strings.Split parameters (ascii_of_nat 44) in
  let variableNames :=
    map (fun param =>
           let p := strings.Split (strings.TrimSpace param) (ascii_of_nat 32) in
           strings.TrimSpace (hd "" p))
        params in
  strings.Join variableNames ", ".

Definition isExpressionAttributeValueURL (elementName attrName : string) : bool :=
  if String.eqb elementName "a" || String.eqb elementName "link"
  then String.eqb attrName "href"
  else if String.eqb elementName "form" then String.eqb attrName "action"
  else if String.eqb elementName "object" then String.eqb attrName "data"
  else false.

Definition isScriptAttribute (name : string) : bool :=
  if strings.HasPrefix name "on" then true
  else if strings.HasPrefix name "hx-on:" then true
  else false.

(** **** File prologue *)

Definition writeCodeGeneratedComment : M unit :=
  opts <- gets options ;;
  if GeneratorOptions.SkipCodeGeneratedComment opts
  then
    (* Write an empty comment so that the file is the same shape. *)
    Write ("//" ++ nl ++ nl) ;; ret tt
  else
    Write ("// Code generated by templ - DO NOT EDIT." ++ nl ++ nl) ;; ret tt.

Definition writeVersionComment : M unit :=
  opts <- gets options ;;
  if negb (String.eqb (GeneratorOptions.Version opts) "")
  then Write ("// templ: version: " ++ GeneratorOptions.Version opts ++ nl) ;; ret tt
  else ret tt.

Definition writeGeneratedDateComment : M unit :=
  opts <- gets options ;;
  if negb (String.eqb (GeneratorOptions.GeneratedDate opts) "")
  then Write ("// templ: generated: " ++ GeneratorOptions.GeneratedDate opts ++ nl) ;; ret tt
  else ret tt.

Definition writeGoExpression (n : option TemplateFileGoExpression.t) : M unit :=
  match n with
  | None => raise "go expression is nil"
  | Some n =>
    let e := TemplateFileGoExpression.Expression n in
    r <- Write (Expression.Value e) ;;
    sourceMap_Add e r ;;
    let v := Expression.Value e in
    let lineSlice := strings.Split v (ascii_of_nat 10) in
    let lastLine := last lineSlice "" in
    if strings.HasPrefix lastLine "//"
    then WriteIndent 0 nl ;; ret tt
    else
      r' <- WriteIndent 0 (nl ++ nl) ;;
      (* Keep a track of symbol ranges for the LSP. *)
      sourceMap_AddSymbolRange (Expression.Range e) (mkRange (From r) (To r'))
  end.

(** [for _, n := range xs { if err := f(n); err != nil { return err } }]. *)
Fixpoint forEach {A : Type} (f : A -> M unit) (xs : list A) : M unit :=
  match xs with
  | [] => ret tt
  | x :: rest => f x ;; forEach f rest
  end.

Definition writeHeader : M unit :=
  t <- gets tf ;;
  if (length (TemplateFile.Header t) =? 0)%nat then ret tt
  else forEach writeGoExpression (TemplateFile.Header t).

Definition writePackage : M unit :=
  t <- gets tf ;;
  let e := Package.Expression (TemplateFile.Package t) in
  (* package ... *)
  r <- Write (Expression.Value e ++ nl ++ nl) ;;
  sourceMap_Add e r ;;
  Write ("//lint:file-ignore SA4006 This context is only used if a nested component is present."
           ++ nl ++ nl) ;;
  ret tt.

Definition writeImports : M unit :=
  Write ("import " ++ dq ++ "github.com/a-h/templ" ++ dq ++ nl) ;;
  Write ("import templruntime " ++ dq ++ "github.com/a-h/templ/runtime" ++ dq ++ nl) ;;
  Write nl ;;
  ret tt.

Definition writeBlankAssignmentForRuntimeImport : M unit :=
  Write "var _ = templruntime.GeneratedTemplate" ;; ret tt.

(** **** CSS and script templates *)

Definition writeCSSProperty (indentLevel : nat) (p : CSSProperty) : M unit :=
  match p with
  | PConstant p =>
    (* Constant CSS property values are not sanitized. *)
    WriteIndent indentLevel
      ("templ_7745c5c3_CSSBuilder.WriteString("
         ++ createGoString (ConstantCSSProperty.String_minified p) ++ ")" ++ nl) ;;
    ret tt
  | PExpression p =>
    WriteIndent indentLevel
      ("templ_7745c5c3_CSSBuilder.WriteString(string(templ.SanitizeCSS("
         ++ bt ++ ExpressionCSSProperty.Name p ++ bt ++ ", ") ;;
    let e := StringExpression.Expression (ExpressionCSSProperty.Value p) in
    r <- Write (Expression.Value e) ;;
    sourceMap_Add e r ;;
    Write (")))" ++ nl) ;;
    ret tt
  end.

Definition writeCSS (n : option CSSTemplate.t) : M unit :=
  match n with
  | None => raise "CSS template is nil"
  | Some n =>
    let indentLevel := 0%nat in
    (* func *)
    r <- Write "func " ;;
    let tgtSymbolRange_From := From r in
    r <- Write (Expression.Value (CSSTemplate.Expression n)) ;;
    sourceMap_Add (CSSTemplate.Expression n) r ;;
    (* templ.CSSClass { *)
    Write (" templ.CSSClass {" ++ nl) ;;
    let indentLevel := S indentLevel in
    WriteIndent indentLevel
      ("templ_7745c5c3_CSSBuilder := templruntime.GetBuilder()" ++ nl) ;;
    forEach (writeCSSProperty indentLevel) (CSSTemplate.Properties n) ;;
    WriteIndent indentLevel
      ("templ_7745c5c3_CSSID := templ.CSSID(" ++ bt ++ CSSTemplate.Name n ++ bt
         ++ ", templ_7745c5c3_CSSBuilder.String())" ++ nl) ;;
    (* return templ.CSS { *)
    WriteIndent indentLevel ("return templ.ComponentCSSClass{" ++ nl) ;;
    WriteIndent (S indentLevel) ("ID: templ_7745c5c3_CSSID," ++ nl) ;;
    WriteIndent (S indentLevel)
      ("Class: templ.SafeCSS(" ++ bt ++ "." ++ bt ++ " + templ_7745c5c3_CSSID + "
         ++ bt ++ "{" ++ bt ++ " + templ_7745c5c3_CSSBuilder.String() + "
         ++ bt ++ "}" ++ bt ++ ")," ++ nl) ;;
    WriteIndent indentLevel ("}" ++ nl) ;;
    let indentLevel := Nat.pred indentLevel in
    (* } *)
    r <- WriteIndent indentLevel ("}" ++ nl ++ nl) ;;
    (* Keep a track of symbol ranges for the LSP. *)
    sourceMap_AddSymbolRange (CSSTemplate.Range n) (mkRange tgtSymbolRange_From (To r))
  end.

Definition writeScript (t : option ScriptTemplate.t) : M unit :=
  match t with
  | None => raise "script template is nil"
  | Some t =>
    let indentLevel := 0%nat in
    (* func *)
    r <- Write "func " ;;
    let tgtSymbolRange_From := From r in
    r <- Write (Expression.Value (ScriptTemplate.Name t)) ;;
    sourceMap_Add (ScriptTemplate.Name t) r ;;
    (* ( *)
    Write "(" ;;
    (* Write parameters. *)
    r <- Write (Expression.Value (ScriptTemplate.Parameters t)) ;;
    sourceMap_Add (ScriptTemplate.Parameters t) r ;;
    (* ) templ.ComponentScript { *)
    Write (") templ.ComponentScript {" ++ nl) ;;
    let indentLevel := S indentLevel in
    (* return templ.ComponentScript{ *)
    WriteIndent indentLevel ("return templ.ComponentScript{" ++ nl) ;;
    let fn := functionName (Expression.Value (ScriptTemplate.Name t))
                (ScriptTemplate.Value t) in
    let goFn := createGoString fn in
    let params := stripTypes (Expression.Value (ScriptTemplate.Parameters t)) in
    WriteIndent (S indentLevel) ("Name: " ++ goFn ++ "," ++ nl) ;;
    let prefix := "function " ++ fn ++ "(" ++ params ++ "){" in
    let body := strings.TrimLeftFunc (ScriptTemplate.Value t) unicode.IsSpace in
    let suffix := "}" in
    WriteIndent (S indentLevel)
      ("Function: " ++ createGoString (prefix ++ body ++ suffix) ++ "," ++ nl) ;;
    WriteIndent (S indentLevel)
      ("Call: templ.SafeScript(" ++ goFn ++ ", " ++ params ++ ")," ++ nl) ;;
    WriteIndent (S indentLevel)
      ("CallInline: templ.SafeScriptInline(" ++ goFn ++ ", " ++ params ++ ")," ++ nl) ;;
    (* } *)
    WriteIndent indentLevel ("}" ++ nl) ;;
    let indentLevel := Nat.pred indentLevel in
    (* } *)
    r <- WriteIndent indentLevel ("}" ++ nl ++ nl) ;;
    (* Keep track of the symbol range for the LSP. *)
    sourceMap_AddSymbolRange (ScriptTemplate.Range t) (mkRange tgtSymbolRange_From (To r))
  end.

(** **** Helpers of the node writers *)

Definition writeTemplBuffer (indentLevel : nat) : M unit :=
  WriteIndent indentLevel
    ("templ_7745c5c3_Buffer, templ_7745c5c3_IsBuffer := templruntime.GetBuffer(templ_7745c5c3_W)"
       ++ nl) ;;
  WriteIndent indentLevel ("if !templ_7745c5c3_IsBuffer {" ++ nl) ;;
  WriteIndent (S indentLevel) ("defer func() {" ++ nl) ;;
  WriteIndent (S (S indentLevel))
    ("templ_7745c5c3_BufErr := templruntime.ReleaseBuffer(templ_7745c5c3_Buffer)" ++ nl) ;;
  WriteIndent (S (S indentLevel)) ("if templ_7745c5c3_Err == nil {" ++ nl) ;;
  WriteIndent (S (S (S indentLevel))) ("templ_7745c5c3_Err = templ_7745c5c3_BufErr" ++ nl) ;;
  WriteIndent (S (S indentLevel)) ("}" ++ nl) ;;
  WriteIndent (S indentLevel) ("}()" ++ nl) ;;
  WriteIndent indentLevel ("}" ++ nl) ;;
  ret tt.

Definition writeErrorHandler (indentLevel : nat) : M unit :=
  WriteIndent indentLevel ("if templ_7745c5c3_Err != nil {" ++ nl) ;;
  WriteIndent (S indentLevel) ("return templ_7745c5c3_Err" ++ nl) ;;
  WriteIndent indentLevel ("}" ++ nl) ;;
  ret tt.

Definition writeExpressionErrorHandler (indentLevel : nat) (expression : Expression.t)
  : M unit :=
  WriteIndent indentLevel ("if templ_7745c5c3_Err != nil {" ++ nl) ;;
  let line := u32 (Line (To (Expression.Range expression)) + 1) in
  let col := Col (To (Expression.Range expression)) in
  opts <- gets options ;;
  WriteIndent (S indentLevel)
    ("return" ++ tab ++ "templ.Error{Err: templ_7745c5c3_Err, FileName: "
       ++ createGoString (GeneratorOptions.FileName opts)
       ++ ", Line: " ++ strconv.Itoa line ++ ", Col: " ++ strconv.Itoa col ++ "}" ++ nl) ;;
  WriteIndent indentLevel ("}" ++ nl) ;;
  ret tt.

Definition writeWhitespaceTrailer (indentLevel : nat) (n : TrailingSpace) : M unit :=
  if TrailingSpace_eqb n SpaceNone then ret tt
  else
    (* Normalize whitespace for minified output. *)
    let n := if TrailingSpace_eqb n SpaceVertical then SpaceHorizontal else n in
    WriteStringLiteral indentLevel (TrailingSpace_string n) ;; ret tt.

Definition writeDocType (indentLevel : nat) (n : DocType.t) : M unit :=
  WriteStringLiteral indentLevel ("<!doctype " ++ escapeQuotes (DocType.Value n) ++ ">") ;;
  ret tt.

Definition writeChildrenExpression (indentLevel : nat) : M unit :=
  cv <- gets childrenVar ;;
  WriteIndent indentLevel
    ("templ_7745c5c3_Err = " ++ cv ++ ".Render(ctx, templ_7745c5c3_Buffer)" ++ nl) ;;
  writeErrorHandler indentLevel.

Definition writeSelfClosingTemplElementExpression (indentLevel : nat)
  (n : TemplElementExpression.t Node) : M unit :=
  WriteIndent indentLevel "templ_7745c5c3_Err = " ;;
  (* Template expression. *)
  r <- Write (Expression.Value (TemplElementExpression.Expression n)) ;;
  sourceMap_Add (TemplElementExpression.Expression n) r ;;
  (* .Render(ctx, templ_7745c5c3_Buffer) *)
  Write (".Render(ctx, templ_7745c5c3_Buffer)" ++ nl) ;;
  writeErrorHandler indentLevel.

Definition writeCallTemplateExpression (indentLevel : nat) (n : CallTemplateExpression.t)
  : M unit :=
  WriteIndent indentLevel "templ_7745c5c3_Err = " ;;
  (* Template expression. *)
  r <- Write (Expression.Value (CallTemplateExpression.Expression n)) ;;
  sourceMap_Add (CallTemplateExpression.Expression n) r ;;
  (* .Render(ctx, templ_7745c5c3_Buffer) *)
  Write (".Render(ctx, templ_7745c5c3_Buffer)" ++ nl) ;;
  writeErrorHandler indentLevel.

Definition writeGoCode (indentLevel : nat) (e : Expression.t) : M unit :=
  if String.eqb (strings.TrimSpace (Expression.Value e)) "" then ret tt
  else
    r <- WriteIndent indentLevel (Expression.Value e ++ nl) ;;
    sourceMap_Add e r.

Definition writeStringExpression (indentLevel : nat) (e : Expression.t) : M unit :=
  if String.eqb (strings.TrimSpace (Expression.Value e)) "" then ret tt
  else
    vn <- createVariableName ;;
    (* var vn string *)
    WriteIndent indentLevel ("var " ++ vn ++ " string" ++ nl) ;;
    (* vn, templ_7745c5c3_Err = templ.JoinStringErrs( *)
    WriteIndent indentLevel (vn ++ ", templ_7745c5c3_Err = templ.JoinStringErrs(") ;;
    (* p.Name() *)
    r <- Write (Expression.Value e) ;;
    sourceMap_Add e r ;;
    (* ) *)
    Write (")" ++ nl) ;;
    (* String expression error handler. *)
    writeExpressionErrorHandler indentLevel e ;;
    (* _, templ_7745c5c3_Err = templ_7745c5c3_Buffer.WriteString(vn) *)
    WriteIndent indentLevel
      ("_, templ_7745c5c3_Err = templ_7745c5c3_Buffer.WriteString(templ.EscapeString("
         ++ vn ++ "))" ++ nl) ;;
    writeErrorHandler indentLevel.

Definition writeWhitespace (indentLevel : nat) (n : Whitespace.t) : M unit :=
  if (String.length (Whitespace.Value n) =? 0)%nat then ret tt
  else WriteStringLiteral indentLevel " " ;; ret tt.

Definition writeText (indentLevel : nat) (n : Text.t) : M unit :=
  WriteStringLiteral indentLevel (escapeQuotes (Text.Value n)) ;; ret tt.

Definition writeComment (indentLevel : nat) (c : HTMLComment.t) : M unit :=
  (* <!-- *)
  WriteStringLiteral indentLevel "<!--" ;;
  (* Contents. *)
  writeText indentLevel (Text.mk (HTMLComment.Contents c) SpaceNone) ;;
  (* --> *)
  WriteStringLiteral indentLevel "-->" ;;
  ret tt.

(** **** Attributes *)

Definition writeAttributeCSS (indentLevel : nat) (attr : ExpressionAttribute.t)
  : M (option ExpressionAttribute.t) :=
  let name := html.EscapeString (AttributeKey_String (ExpressionAttribute.Key attr)) in
  if negb (String.eqb name "class") then ret None
  else
    (* Create a class name for the style. *)
    classesName <- createVariableName ;;
    WriteIndent indentLevel ("var " ++ classesName ++ " = []any{") ;;
    (* p.Name() *)
    r <- Write (Expression.Value (ExpressionAttribute.Expression attr)) ;;
    sourceMap_Add (ExpressionAttribute.Expression attr) r ;;
    Write ("}" ++ nl) ;;
    (* Render the CSS before the element if required. *)
    WriteIndent indentLevel
      ("templ_7745c5c3_Err = templ.RenderCSSItems(ctx, templ_7745c5c3_Buffer, "
         ++ classesName ++ "...)" ++ nl) ;;
    writeErrorHandler indentLevel ;;
    (* Rewrite the ExpressionAttribute to point at the new variable. *)
    let newAttr :=
      ExpressionAttribute.mk (ExpressionAttribute.Key attr)
        (Expression.mk ("templ.CSSClasses(" ++ classesName ++ ").String()")
           (mkRange (mkPosition 0 0 0) (mkPosition 0 0 0))) in
    ret (Some newAttr).

(** [for i, x := range xs { xs[i] = f(x) }], stopping at the first error. *)
Fixpoint forEachUpdate {A : Type} (f : A -> M A) (xs : list A) : M (list A) :=
  match xs with
  | [] => ret []
  | x :: rest =>
    x' <- f x ;;
    rest' <- forEachUpdate f rest ;;
    ret (x' :: rest')
  end.

(** The body of the loop of [writeAttributesCSS]: the value left in
    [attrs[i]]. *)
Fixpoint writeAttributesCSS_attr (indentLevel : nat) (attr : Attribute) {struct attr}
  : M Attribute :=
  match attr with
  | AExpression a =>
    r <- writeAttributeCSS indentLevel a ;;
    ret (match r with Some a' => AExpression a' | None => attr end)
  | AConditional cattr =>
    thn <- forEachUpdate (writeAttributesCSS_attr indentLevel)
             (ConditionalAttribute.Then cattr) ;;
    els <- forEachUpdate (writeAttributesCSS_attr indentLevel)
             (ConditionalAttribute.Else cattr) ;;
    ret (AConditional
           (ConditionalAttribute.mk (ConditionalAttribute.Expression cattr) thn els))
  | _ => ret attr
  end.

(** [writeAttributesCSS] rewrites [attrs] in place; the rewritten slice is
    the result here. *)
Definition writeAttributesCSS (indentLevel : nat) (attrs : list Attribute)
  : M (list Attribute) :=
  forEachUpdate (writeAttributesCSS_attr indentLevel) attrs.

Definition writeElementCSS (indentLevel : nat) (attrs : list Attribute)
  : M (list Attribute) :=
  writeAttributesCSS indentLevel attrs.

Fixpoint getAttributeScripts (attr : Attribute) : list string :=
  match attr with
  | AConditional attr =>
    flat_map getAttributeScripts (ConditionalAttribute.Then attr)
    ++ flat_map getAttributeScripts (ConditionalAttribute.Else attr)
  | AExpression attr =>
    let name := html.EscapeString (AttributeKey_String (ExpressionAttribute.Key attr)) in
    if isScriptAttribute name
    then [Expression.Value (ExpressionAttribute.Expression attr)]
    else []
  | _ => []
  end.

Definition writeElementScript (indentLevel : nat) (attrs : list Attribute) : M unit :=
  let scriptExpressions := flat_map getAttributeScripts attrs in
  if (length scriptExpressions =? 0)%nat then ret tt
  else
    (* Render the scripts before the element if required. *)
    WriteIndent indentLevel
      ("templ_7745c5c3_Err = templ.RenderScriptItems(ctx, templ_7745c5c3_Buffer, "
         ++ strings.Join scriptExpressions ", " ++ ")" ++ nl) ;;
    writeErrorHandler indentLevel.

Definition writeAttributeKey (indentLevel : nat) (attr : AttributeKey) : M unit :=
  match attr with
  | ConstantAttributeKey attrName =>
    let name := html.EscapeString attrName in
    WriteStringLiteral indentLevel (" " ++ name) ;; ret tt
  | ExpressionAttributeKey expression =>
    vn <- createVariableName ;;
    (* var vn string *)
    WriteIndent indentLevel ("var " ++ vn ++ " string" ++ nl) ;;
    (* vn, templ_7745c5c3_Err = templ.JoinStringErrs( *)
    WriteIndent indentLevel (vn ++ ", templ_7745c5c3_Err = templ.JoinStringErrs(") ;;
    (* p.Name() *)
    r <- Write (Expression.Value expression) ;;
    sourceMap_Add expression r ;;
    (* ) *)
    Write (")" ++ nl) ;;
    (* Attribute expression error handler. *)
    writeExpressionErrorHandler indentLevel expression ;;
    (* _, templ_7745c5c3_Err = templ_7745c5c3_Buffer.WriteString(vn) *)
    WriteIndent indentLevel
      ("_, templ_7745c5c3_Err = templ_7745c5c3_Buffer.WriteString(templ.EscapeString("
         ++ bt ++ " " ++ bt ++ "+" ++ vn ++ "))" ++ nl) ;;
    writeErrorHandler indentLevel
  end.

Definition writeBoolConstantAttribute (indentLevel : nat) (attr : BoolConstantAttribute.t)
  : M unit :=
  writeAttributeKey indentLevel (BoolConstantAttribute.Key attr).

Definition writeConstantAttribute (indentLevel : nat) (attr : ConstantAttribute.t)
  : M unit :=
  writeAttributeKey indentLevel (ConstantAttribute.Key attr) ;;
  let quote := if ConstantAttribute.SingleQuote attr then "'" else dq in
  let value := escapeQuotes ("=" ++ quote ++ ConstantAttribute.Value attr ++ quote) in
  WriteStringLiteral indentLevel value ;; ret tt.

Definition writeBoolExpressionAttribute (indentLevel : nat)
  (attr : BoolExpressionAttribute.t) : M unit :=
  (* if *)
  WriteIndent indentLevel "if " ;;
  (* x == y *)
  r <- Write (Expression.Value (BoolExpressionAttribute.Expression attr)) ;;
  sourceMap_Add (BoolExpressionAttribute.Expression attr) r ;;
  (* { *)
  Write (" {" ++ nl) ;;
  writeAttributeKey (S indentLevel) (BoolExpressionAttribute.Key attr) ;;
  (* } *)
  WriteIndent indentLevel ("}" ++ nl) ;;
  ret tt.

Definition writeExpressionAttributeValueURL (indentLevel : nat)
  (attr : ExpressionAttribute.t) : M unit :=
  vn <- createVariableName ;;
  (* var vn templ.SafeURL *)
  WriteIndent indentLevel ("var " ++ vn ++ " templ.SafeURL" ++ nl) ;;
  (* vn, templ_7745c5c3_Err = templ.JoinURLErrs( *)
  WriteIndent indentLevel (vn ++ ", templ_7745c5c3_Err = templ.JoinURLErrs(") ;;
  (* p.Name() *)
  r <- Write (Expression.Value (ExpressionAttribute.Expression attr)) ;;
  sourceMap_Add (ExpressionAttribute.Expression attr) r ;;
  (* ) *)
  Write (")" ++ nl) ;;
  (* Attribute expression error handler. *)
  writeExpressionErrorHandler indentLevel (ExpressionAttribute.Expression attr) ;;
  (* _, templ_7745c5c3_Err = templ_7745c5c3_Buffer.WriteString(vn) *)
  WriteIndent indentLevel
    ("_, templ_7745c5c3_Err = templ_7745c5c3_Buffer.WriteString(templ.EscapeString("
       ++ vn ++ "))" ++ nl) ;;
  writeErrorHandler indentLevel.

Definition writeExpressionAttributeValueScript (indentLevel : nat)
  (attr : ExpressionAttribute.t) : M unit :=
  (* It's a JavaScript handler, and requires special handling. *)
  vn <- createVariableName ;;
  (* var vn templ.ComponentScript = *)
  WriteIndent indentLevel ("var " ++ vn ++ " templ.ComponentScript = ") ;;
  (* p.Name() *)
  r <- Write (Expression.Value (ExpressionAttribute.Expression attr)) ;;
  sourceMap_Add (ExpressionAttribute.Expression attr) r ;;
  Write nl ;;
  WriteIndent indentLevel
    ("_, templ_7745c5c3_Err = templ_7745c5c3_Buffer.WriteString(" ++ vn ++ ".Call)" ++ nl) ;;
  writeErrorHandler indentLevel.

Definition writeExpressionAttributeValueDefault (indentLevel : nat)
  (attr : ExpressionAttribute.t) : M unit :=
  vn <- createVariableName ;;
  (* var vn string *)
  WriteIndent indentLevel ("var " ++ vn ++ " string" ++ nl) ;;
  (* vn, templ_7745c5c3_Err = templ.JoinStringErrs( *)
  WriteIndent indentLevel (vn ++ ", templ_7745c5c3_Err = templ.JoinStringErrs(") ;;
  (* p.Name() *)
  r <- Write (Expression.Value (ExpressionAttribute.Expression attr)) ;;
  sourceMap_Add (ExpressionAttribute.Expression attr) r ;;
  (* ) *)
  Write (")" ++ nl) ;;
  (* Attribute expression error handler. *)
  writeExpressionErrorHandler indentLevel (ExpressionAttribute.Expression attr) ;;
  (* _, templ_7745c5c3_Err = templ_7745c5c3_Buffer.WriteString(vn) *)
  WriteIndent indentLevel
    ("_, templ_7745c5c3_Err = templ_7745c5c3_Buffer.WriteString(templ.EscapeString("
       ++ vn ++ "))" ++ nl) ;;
  writeErrorHandler indentLevel.

Definition writeExpressionAttributeValueStyle (indentLevel : nat)
  (attr : ExpressionAttribute.t) : M unit :=
  vn <- createVariableName ;;
  (* var vn string *)
  WriteIndent indentLevel ("var " ++ vn ++ " string" ++ nl) ;;
  (* vn, templ_7745c5c3_Err = templruntime.SanitizeStyleAttributeValues( *)
  WriteIndent indentLevel
    (vn ++ ", templ_7745c5c3_Err = templruntime.SanitizeStyleAttributeValues(") ;;
  (* value *)
  r <- Write (Expression.Value (ExpressionAttribute.Expression attr)) ;;
  sourceMap_Add (ExpressionAttribute.Expression attr) r ;;
  (* ) *)
  Write (")" ++ nl) ;;
  (* Attribute expression error handler. *)
  writeExpressionErrorHandler indentLevel (ExpressionAttribute.Expression attr) ;;
  (* _, templ_7745c5c3_Err = templ_7745c5c3_Buffer.WriteString(templ.EscapeString(vn)) *)
  WriteIndent indentLevel
    ("_, templ_7745c5c3_Err = templ_7745c5c3_Buffer.WriteString(templ.EscapeString("
       ++ vn ++ "))" ++ nl) ;;
  writeErrorHandler indentLevel.

Definition writeExpressionAttribute (indentLevel : nat) (elementName : string)
  (attr : ExpressionAttribute.t) : M unit :=
  writeAttributeKey indentLevel (ExpressionAttribute.Key attr) ;;
  (* the equals sign and the opening quote *)
  WriteStringLiteral indentLevel ("=\" ++ dq) ;;
  let attrKey := html.EscapeString (AttributeKey_String (ExpressionAttribute.Key attr)) in
  (* Value. *)
  (if isExpressionAttributeValueURL elementName attrKey
   then writeExpressionAttributeValueURL indentLevel attr
   else if isScriptAttribute attrKey
   then writeExpressionAttributeValueScript indentLevel attr
   else if String.eqb attrKey "style"
   then writeExpressionAttributeValueStyle indentLevel attr
   else writeExpressionAttributeValueDefault indentLevel attr) ;;
  (* Close quote. *)
  WriteStringLiteral indentLevel ("\" ++ dq) ;;
  ret tt.

Definition writeSpreadAttributes (indentLevel : nat) (attr : SpreadAttributes.t)
  : M unit :=
  (* templ.RenderAttributes(ctx, w, spreadAttrs) *)
  WriteIndent indentLevel
    "templ_7745c5c3_Err = templ.RenderAttributes(ctx, templ_7745c5c3_Buffer, " ;;
  (* spreadAttrs *)
  r <- Write (Expression.Value (SpreadAttributes.Expression attr)) ;;
  sourceMap_Add (SpreadAttributes.Expression attr) r ;;
  (* ) *)
  Write (")" ++ nl) ;;
  writeErrorHandler indentLevel.

Section ConditionalAttributes.

(** [writeConditionalAttribute] and [writeElementAttributes] call each
    other; the second is a parameter of the first. *)
Variable writeElementAttributes_rec : nat -> string -> list Attribute -> M unit.

Definition writeConditionalAttribute (indentLevel : nat) (elementName : string)
  (attr : ConditionalAttribute.t Attribute) : M unit :=
  (* if *)
  WriteIndent indentLevel "if " ;;
  (* x == y *)
  r <- Write (Expression.Value (ConditionalAttribute.Expression attr)) ;;
  sourceMap_Add (ConditionalAttribute.Expression attr) r ;;
  (* { *)
  Write (" {" ++ nl) ;;
  writeElementAttributes_rec (S indentLevel) elementName (ConditionalAttribute.Then attr) ;;
  (if (0 <? length (ConditionalAttribute.Else attr))%nat
   then
     (* } else { *)
     WriteIndent indentLevel ("} else {" ++ nl) ;;
     writeElementAttributes_rec (S indentLevel) elementName (ConditionalAttribute.Else attr)
   else ret tt) ;;
  (* } *)
  WriteIndent indentLevel ("}" ++ nl) ;;
  ret tt.

End ConditionalAttributes.

(** [for _, x := range xs { err = f(x) }; return err]: every [x] is visited,
    and the error returned is that of the last one. *)
Fixpoint forEachKeepLast {A : Type} (f : A -> M unit) (xs : list A) (err : option error)
  : M unit :=
  match xs with
  | [] => returnErr err
  | x :: rest =>
    err' <- attempt (f x) ;;
    forEachKeepLast f rest err'
  end.

(** The switch in the loop of [writeElementAttributes]. *)
Fixpoint writeElementAttributes_attr (indentLevel : nat) (name : string)
  (attr : Attribute) {struct attr} : M unit :=
  match attr with
  | ABoolConstant attr => writeBoolConstantAttribute indentLevel attr
  | AConstant attr => writeConstantAttribute indentLevel attr
  | ABoolExpression attr => writeBoolExpressionAttribute indentLevel attr
  | AExpression attr => writeExpressionAttribute indentLevel name attr
  | ASpread attr => writeSpreadAttributes indentLevel attr
  | AConditional attr =>
    writeConditionalAttribute
      (fun indentLevel name attrs =>
         forEachKeepLast (writeElementAttributes_attr indentLevel name) attrs None)
      indentLevel name attr
  end.

Definition writeElementAttributes (indentLevel : nat) (name : string)
  (attrs : list Attribute) : M unit :=
  forEachKeepLast (writeElementAttributes_attr indentLevel name) attrs None.

(** **** Whitespace stripping *)

Definition isWhitespace (n : Node) : bool :=
  match n with
  | NWhitespace _ => true
  | _ => false
  end.

Fixpoint stripWhitespace (input : list Node) : list Node :=
  match input with
  | [] => []
  | n :: rest =>
    if negb (isWhitespace n) then n :: stripWhitespace rest
    else stripWhitespace rest
  end.

Fixpoint stripLeadingWhitespace (nodes : list Node) : list Node :=
  match nodes with
  | [] => []
  | n :: rest =>
    if negb (isWhitespace n) then nodes
    else stripLeadingWhitespace rest
  end.

(** The loop [for i := len(nodes) - 1; i >= 0; i--] of
    [stripTrailingWhitespace], with [i + 1] as its counter. *)
Fixpoint stripTrailingWhitespace_from (nodes : list Node) (i1 : nat) : list Node :=
  match i1 with
  | O => []
  | S i =>
    match nth_error nodes i with
    | Some n =>
      if negb (isWhitespace n) then firstn (S i) nodes
      else stripTrailingWhitespace_from nodes i
    | None => stripTrailingWhitespace_from nodes i
    end
  end.

Definition stripTrailingWhitespace (nodes : list Node) : list Node :=
  stripTrailingWhitespace_from nodes (length nodes).

Definition stripLeadingAndTrailingWhitespace (nodes : list Node) : list Node :=
  stripTrailingWhitespace (stripLeadingWhitespace nodes).

Definition isInlineOrText (next : option Node) : bool :=
  match next with
  | None => false
  | Some (NIfExpression _) => true
  | Some (NSwitchExpression _) => true
  | Some (NForExpression _) => true
  | Some (NElement n) => negb (Element.IsBlockElement n)
  | Some (NText _) => true
  | Some (NStringExpression _) => true
  | Some _ => false
  end.

(** **** Nodes *)

Definition writeScriptContents (indentLevel : nat) (c : ScriptContents.t) : M unit :=
  match ScriptContents.Value c with
  | Some value =>
    if String.eqb value "" then ret tt
    else
      (* This is a JS expression and can be written directly to the output. *)
      writeText indentLevel (Text.mk value SpaceNone)
  | None =>
    match ScriptContents.GoCode c with
    | Some goCode =>
      (* This is a Go code block. *)
      vn <- createVariableName ;;
      let fnCall :=
        if ScriptContents.InsideStringLiteral c
        then "templruntime.ScriptContentInsideStringLiteral"
        else "templruntime.ScriptContentOutsideStringLiteral" in
      WriteIndent indentLevel (vn ++ ", templ_7745c5c3_Err := " ++ fnCall ++ "(") ;;
      (* p.Name() *)
      r <- Write (Expression.Value (GoCode.Expression goCode)) ;;
      sourceMap_Add (GoCode.Expression goCode) r ;;
      (* ) *)
      Write (")" ++ nl) ;;
      (* Expression error handler. *)
      writeExpressionErrorHandler indentLevel (GoCode.Expression goCode) ;;
      (* _, templ_7745c5c3_Err = templ_7745c5c3_Buffer.WriteString(jvn) *)
      WriteIndent indentLevel
        ("_, templ_7745c5c3_Err = templ_7745c5c3_Buffer.WriteString(" ++ vn ++ ")" ++ nl) ;;
      writeErrorHandler indentLevel ;;
      (* Write any trailing space. *)
      if negb (String.eqb (TrailingSpace_string (GoCode.TrailingSpace goCode)) "")
      then
        writeText indentLevel
          (Text.mk (TrailingSpace_string (GoCode.TrailingSpace goCode)) SpaceNone)
      else ret tt
    | None => raise "unknown script content"
    end
  end.

Definition writeRawElement (indentLevel : nat) (n : RawElement.t) : M unit :=
  (if (length (RawElement.Attributes n) =? 0)%nat
   then
     (* <div> *)
     WriteStringLiteral indentLevel
       ("<" ++ html.EscapeString (RawElement.Name n) ++ ">") ;;
     ret tt
   else
     (* <script></script> *)
     writeElementScript indentLevel (RawElement.Attributes n) ;;
     (* <div *)
     WriteStringLiteral indentLevel ("<" ++ html.EscapeString (RawElement.Name n)) ;;
     writeElementAttributes indentLevel (RawElement.Name n) (RawElement.Attributes n) ;;
     (* > *)
     WriteStringLiteral indentLevel ">" ;;
     ret tt) ;;
  (* Contents. *)
  writeText indentLevel (Text.mk (RawElement.Contents n) SpaceNone) ;;
  (* </div> *)
  WriteStringLiteral indentLevel ("</" ++ html.EscapeString (RawElement.Name n) ++ ">") ;;
  ret tt.

Definition writeScriptElement (indentLevel : nat) (n : ScriptElement.t) : M unit :=
  (if (length (ScriptElement.Attributes n) =? 0)%nat
   then
     WriteStringLiteral indentLevel "<script>" ;; ret tt
   else
     (* <script></script> *)
     writeElementScript indentLevel (ScriptElement.Attributes n) ;;
     WriteStringLiteral indentLevel "<script" ;;
     writeElementAttributes indentLevel "script" (ScriptElement.Attributes n) ;;
     (* > *)
     WriteStringLiteral indentLevel ">" ;;
     ret tt) ;;
  (* Contents. *)
  forEach (writeScriptContents indentLevel) (ScriptElement.Contents n) ;;
  WriteStringLiteral indentLevel "</script>" ;;
  ret tt.

Section Visitor.

(** [writeNode], as the methods below call it for the nodes under a node. *)
Variable writeNode_rec : nat -> Node -> option Node -> M unit.

Fixpoint writeNodes (indentLevel : nat) (nodes : list Node) (next : option Node)
  : M unit :=
  match nodes with
  | [] => ret tt
  | curr :: rest =>
    let nextNode :=
      match rest with
      | n :: _ => Some n
      | [] => next
      end in
    writeNode_rec indentLevel curr nextNode ;;
    writeNodes indentLevel rest next
  end.

Definition writeElseIf (indentLevel : nat) (nextNode : option Node)
  (elseIf : ElseIfExpression.t Node) : M unit :=
  (* } else if { *)
  WriteIndent indentLevel "} else if " ;;
  (* x == y { *)
  r <- Write (Expression.Value (ElseIfExpression.Expression elseIf)) ;;
  sourceMap_Add (ElseIfExpression.Expression elseIf) r ;;
  (* { *)
  Write (" {" ++ nl) ;;
  writeNodes (S indentLevel)
    (stripLeadingAndTrailingWhitespace (ElseIfExpression.Then elseIf)) nextNode.

Definition writeIfExpression (indentLevel : nat) (n : IfExpression.t Node)
  (nextNode : option Node) : M unit :=
  (* if *)
  WriteIndent indentLevel "if " ;;
  (* x == y { *)
  r <- Write (Expression.Value (IfExpression.Expression n)) ;;
  sourceMap_Add (IfExpression.Expression n) r ;;
  (* { *)
  Write (" {" ++ nl) ;;
  writeNodes (S indentLevel)
    (stripLeadingAndTrailingWhitespace (IfExpression.Then n)) nextNode ;;
  forEach (writeElseIf indentLevel nextNode) (IfExpression.ElseIfs n) ;;
  (if (0 <? length (IfExpression.Else n))%nat
   then
     (* } else { *)
     WriteIndent indentLevel ("} else {" ++ nl) ;;
     writeNodes (S indentLevel)
       (stripLeadingAndTrailingWhitespace (IfExpression.Else n)) nextNode
   else ret tt) ;;
  (* } *)
  WriteIndent indentLevel ("}" ++ nl) ;;
  ret tt.

Definition writeCase (indentLevel : nat) (next : option Node)
  (c : CaseExpression.t Node) : M unit :=
  (* case x: *)
  (* default: *)
  r <- WriteIndent indentLevel (Expression.Value (CaseExpression.Expression c)) ;;
  sourceMap_Add (CaseExpression.Expression c) r ;;
  writeNodes (S indentLevel)
    (stripLeadingAndTrailingWhitespace (CaseExpression.Children c)) next.

Definition writeSwitchExpression (indentLevel : nat) (n : SwitchExpression.t Node)
  (next : option Node) : M unit :=
  (* switch *)
  WriteIndent indentLevel "switch " ;;
  (* val *)
  r <- Write (Expression.Value (SwitchExpression.Expression n)) ;;
  sourceMap_Add (SwitchExpression.Expression n) r ;;
  (* { *)
  Write (" {" ++ nl) ;;
  (if (0 <? length (SwitchExpression.Cases n))%nat
   then forEach (writeCase indentLevel next) (SwitchExpression.Cases n)
   else ret tt) ;;
  (* } *)
  WriteIndent indentLevel ("}" ++ nl) ;;
  ret tt.

Definition writeBlockTemplElementExpression (indentLevel : nat)
  (n : TemplElementExpression.t Node) : M unit :=
  childrenName <- createVariableName ;;
  WriteIndent indentLevel
    (childrenName
       ++ " := templruntime.GeneratedTemplate(func(templ_7745c5c3_Input templruntime.GeneratedComponentInput) (templ_7745c5c3_Err error) {"
       ++ nl) ;;
  WriteIndent (S indentLevel)
    ("templ_7745c5c3_W, ctx := templ_7745c5c3_Input.Writer, templ_7745c5c3_Input.Context"
       ++ nl) ;;
  writeTemplBuffer (S indentLevel) ;;
  (* ctx = templ.InitializeContext(ctx) *)
  WriteIndent (S indentLevel) ("ctx = templ.InitializeContext(ctx)" ++ nl) ;;
  writeNodes (S indentLevel)
    (stripLeadingAndTrailingWhitespace (TemplElementExpression.Children n)) None ;;
  (* return nil *)
  WriteIndent (S indentLevel) ("return nil" ++ nl) ;;
  WriteIndent indentLevel ("})" ++ nl) ;;
  WriteIndent indentLevel "templ_7745c5c3_Err = " ;;
  r <- Write (Expression.Value (TemplElementExpression.Expression n)) ;;
  sourceMap_Add (TemplElementExpression.Expression n) r ;;
  (* .Render(templ.WithChildren(ctx, children), templ_7745c5c3_Buffer) *)
  Write (".Render(templ.WithChildren(ctx, " ++ childrenName ++ "), templ_7745c5c3_Buffer)"
           ++ nl) ;;
  writeErrorHandler indentLevel.

Definition writeTemplElementExpression (indentLevel : nat)
  (n : TemplElementExpression.t Node) : M unit :=
  if (length (TemplElementExpression.Children n) =? 0)%nat
  then writeSelfClosingTemplElementExpression indentLevel n
  else writeBlockTemplElementExpression indentLevel n.

Definition writeForExpression (indentLevel : nat) (n : ForExpression.t Node)
  (next : option Node) : M unit :=
  (* for *)
  WriteIndent indentLevel "for " ;;
  (* i, v := range p.Stuff *)
  r <- Write (Expression.Value (ForExpression.Expression n)) ;;
  sourceMap_Add (ForExpression.Expression n) r ;;
  (* { *)
  Write (" {" ++ nl) ;;
  (* Children. *)
  writeNodes (S indentLevel)
    (stripLeadingAndTrailingWhitespace (ForExpression.Children n)) next ;;
  (* } *)
  WriteIndent indentLevel ("}" ++ nl) ;;
  ret tt.

Definition writeElement (indentLevel : nat) (n : Element.t Node) : M unit :=
  (if (length (Element.Attributes n) =? 0)%nat
   then
     (* <div> *)
     WriteStringLiteral indentLevel ("<" ++ html.EscapeString (Element.Name n) ++ ">") ;;
     ret tt
   else
     let attrs := CopyAttributes (Element.Attributes n) in
     (* <style type="text/css"></style> *)
     attrs <- writeElementCSS indentLevel attrs ;;
     (* <script></script> *)
     writeElementScript indentLevel attrs ;;
     (* <div *)
     WriteStringLiteral indentLevel ("<" ++ html.EscapeString (Element.Name n)) ;;
     writeElementAttributes indentLevel (Element.Name n) attrs ;;
     (* > *)
     WriteStringLiteral indentLevel ">" ;;
     ret tt) ;;
  (* Skip children and close tag for void elements. *)
  if Element.IsVoidElement n && (length (Element.Children n) =? 0)%nat
  then ret tt
  else
    (* Children. *)
    writeNodes indentLevel (stripWhitespace (Element.Children n)) None ;;
    (* </div> *)
    WriteStringLiteral indentLevel ("</" ++ html.EscapeString (Element.Name n) ++ ">") ;;
    ret tt.

(** The type switch of [writeNode]. *)
Definition writeNode_switch (indentLevel : nat) (current : Node) (next : option Node)
  : M unit :=
  match current with
  | NDocType n => writeDocType indentLevel n
  | NElement n => writeElement indentLevel n
  | NHTMLComment n => writeComment indentLevel n
  | NChildrenExpression => writeChildrenExpression indentLevel
  | NRawElement n => writeRawElement indentLevel n
  | NScriptElement n => writeScriptElement indentLevel n
  | NForExpression n => writeForExpression indentLevel n next
  | NCallTemplateExpression n => writeCallTemplateExpression indentLevel n
  | NTemplElementExpression n => writeTemplElementExpression indentLevel n
  | NIfExpression n => writeIfExpression indentLevel n next
  | NSwitchExpression n => writeSwitchExpression indentLevel n next
  | NStringExpression n =>
    writeStringExpression indentLevel (StringExpression.Expression n)
  | NGoCode n => writeGoCode indentLevel (GoCode.Expression n)
  | NWhitespace n => writeWhitespace indentLevel n
  | NText n => writeText indentLevel n
  | NGoComment _ => ret tt
  end.

Definition writeNode (indentLevel : nat) (current : Node) (next : option Node)
  : M unit :=
  match current with
  | NGoComment _ =>
    (* Do not render Go comments in the output HTML. *)
    ret tt
  | _ =>
    err <- attempt (writeNode_switch indentLevel current next) ;;
    (* Write trailing whitespace, if there is a next node that might need the space. *)
    let needed := isInlineOrText (Some current) && isInlineOrText next in
    match Trailing current with
    | Some ws =>
      (if needed then writeWhitespaceTrailer indentLevel ws else ret tt) ;;
      returnErr err
    | None => returnErr err
    end
  end.

(** **** HTML templates and the file *)

Definition writeTemplate (nodeIdx : nat) (t : option HTMLTemplate.t) : M unit :=
  match t with
  | None => raise "template is nil"
  | Some t =>
    let indentLevel := 0%nat in
    (* func *)
    r <- Write "func " ;;
    let tgtSymbolRange_From := From r in
    (* (r *Receiver) Name(params []string) *)
    r <- Write (Expression.Value (HTMLTemplate.Expression t)) ;;
    sourceMap_Add (HTMLTemplate.Expression t) r ;;
    (* templ.Component { *)
    Write (" templ.Component {" ++ nl) ;;
    let indentLevel := S indentLevel in
    WriteIndent indentLevel
      ("return templruntime.GeneratedTemplate(func(templ_7745c5c3_Input templruntime.GeneratedComponentInput) (templ_7745c5c3_Err error) {"
         ++ nl) ;;
    let indentLevel := S indentLevel in
    WriteIndent indentLevel
      ("templ_7745c5c3_W, ctx := templ_7745c5c3_Input.Writer, templ_7745c5c3_Input.Context"
         ++ nl) ;;
    WriteIndent indentLevel
      ("if templ_7745c5c3_CtxErr := ctx.Err(); templ_7745c5c3_CtxErr != nil {" ++ nl) ;;
    WriteIndent (S indentLevel) "return templ_7745c5c3_CtxErr" ;;
    WriteIndent indentLevel ("}" ++ nl) ;;
    writeTemplBuffer indentLevel ;;
    (* ctx = templ.InitializeContext(ctx) *)
    WriteIndent indentLevel ("ctx = templ.InitializeContext(ctx)" ++ nl) ;;
    cv <- createVariableName ;;
    set_childrenVar cv ;;
    WriteIndent indentLevel (cv ++ " := templ.GetChildren(ctx)" ++ nl) ;;
    WriteIndent indentLevel ("if " ++ cv ++ " == nil {" ++ nl) ;;
    WriteIndent (S indentLevel) (cv ++ " = templ.NopComponent" ++ nl) ;;
    WriteIndent indentLevel ("}" ++ nl) ;;
    (* ctx = templ.ClearChildren(children) *)
    WriteIndent indentLevel ("ctx = templ.ClearChildren(ctx)" ++ nl) ;;
    (* Nodes. *)
    writeNodes indentLevel (stripWhitespace (HTMLTemplate.Children t)) None ;;
    (* return nil *)
    WriteIndent indentLevel ("return nil" ++ nl) ;;
    let indentLevel := Nat.pred indentLevel in
    (* }) *)
    WriteIndent indentLevel ("})" ++ nl) ;;
    let indentLevel := Nat.pred indentLevel in
    (* gofmt wants to remove a single empty line at the end of a file
       so we have to make sure we don't output one if this is the last node. *)
    file <- gets tf ;;
    let closingBrace :=
      if (length (TemplateFile.Nodes file) <=? nodeIdx + 1)%nat
      then "}" ++ nl
      else "}" ++ nl ++ nl in
    r <- WriteIndent indentLevel closingBrace ;;
    (* Keep a track of symbol ranges for the LSP. *)
    sourceMap_AddSymbolRange (HTMLTemplate.Range t) (mkRange tgtSymbolRange_From (To r))
  end.

Definition writeTemplateNode (i : nat) (n : TemplateFileNode) : M unit :=
  match n with
  | TFGoExpression n => writeGoExpression n
  | TFHTMLTemplate n => writeTemplate i n
  | TFCSSTemplate n => writeCSS n
  | TFScriptTemplate n => writeScript n
  end.

(** The loop [for i, n := range g.tf.Nodes] from index [i] on. *)
Fixpoint writeTemplateNodes_from (i : nat) (nodes : list TemplateFileNode) : M unit :=
  match nodes with
  | [] => ret tt
  | n :: rest => writeTemplateNode i n ;; writeTemplateNodes_from (S i) rest
  end.

Definition writeTemplateNodes : M unit :=
  file <- gets tf ;;
  writeTemplateNodes_from 0 (TemplateFile.Nodes file).

Definition generate : M unit :=
  writeCodeGeneratedComment ;;
  writeVersionComment ;;
  writeGeneratedDateComment ;;
  writeHeader ;;
  writePackage ;;
  writeImports ;;
  writeTemplateNodes ;;
  writeBlankAssignmentForRuntimeImport.

End Visitor.

(** [writeNode] with its recursion closed: a node of depth [d] is written by
    [writeNodeFuel (S d)], and more fuel changes nothing. *)
Fixpoint writeNodeFuel (fuel : nat) (indentLevel : nat) (current : Node)
  (next : option Node) : M unit :=
  match fuel with
  | O => fun g => (OutOfFuel, g)
  | S fuel' => writeNode (writeNodeFuel fuel') indentLevel current next
  end.

Definition TemplateFileNode_depth (n : TemplateFileNode) : nat :=
  match n with
  | TFHTMLTemplate (Some t) => list_max_by depth (HTMLTemplate.Children t)
  | _ => 0%nat
  end.

Definition TemplateFile_depth (template : TemplateFile.t) : nat :=
  list_max_by TemplateFileNode_depth (TemplateFile.Nodes template).

(** [GenerateOpt]: [func(g *generator) error]. *)
Definition GenerateOpt : Type := M unit.

(** [WithVersion] enables the version to be included in the generated code. *)
Definition WithVersion (v : string) : GenerateOpt :=
  fun g =>
    (Ok tt, mkGenerator (tf g) (w g) (sourceMap g) (variableID g) (childrenVar g)
              (GeneratorOptions.mk v (GeneratorOptions.FileName (options g))
                 (GeneratorOptions.SkipCodeGeneratedComment (options g))
                 (GeneratorOptions.GeneratedDate (options g)))).


(** [WithSkipCodeGeneratedComment] skips the code generated comment at the
    top of the file. *)
Definition WithSkipCodeGeneratedComment : GenerateOpt :=
  fun g =>
    (Ok tt, mkGenerator (tf g) (w g) (sourceMap g) (variableID g) (childrenVar g)
              (GeneratorOptions.mk (GeneratorOptions.Version (options g))
                 (GeneratorOptions.FileName (options g)) true
                 (GeneratorOptions.GeneratedDate (options g)))).

(** [Generate] with [fuel] for the nodes.  The result is the
    [GeneratorOutput] or the error, and the bytes written to [w]. *)
Definition GenerateFuel (fuel : nat) (template : TemplateFile.t) (opts : list GenerateOpt)
  : result GeneratorOutput.t * string :=
  let g := mkGenerator template RangeWriter.NewRangeWriter SourceMap.NewSourceMap 0 ""
             (GeneratorOptions.mk "" "" false "") in
  let '(r, g) := (forEach (fun opt => opt) opts ;; generate (writeNodeFuel fuel)) g in
  (match r with
   | Ok _ =>
     Ok (GeneratorOutput.mk (options g) (sourceMap g) (RangeWriter.Literals (w g)))
   | Err e => Err e
   | OutOfFuel => OutOfFuel
   end, RangeWriter.w (w g)).

(** [Generate] generates Go code from the input template file to [w], and
    returns a map of the location of Go expressions in the template to the
    location of the generated Go code in the output. *)
Definition Generate (template : TemplateFile.t) (opts : list GenerateOpt)
  : result GeneratorOutput.t * string :=
  GenerateFuel (S (TemplateFile_depth template)) template opts.


(** * Specification-level definitions

    The vocabulary of the statements proved below: what the specification
    says in words, as predicates over the model above. *)

(** [s] contains [sub]. *)
Definition Contains (s sub : string) : Prop :=
  exists pre post, s = pre ++ sub ++ post.

(** The test of [Contains]. *)
Fixpoint containsb (s sub : string) : bool :=
  String.prefix sub s
  || match s with
     | String _ rest => containsb rest sub
     | EmptyString => false
     end.




(** The closing brace parser did not find the brace: [err != nil || !matched]. *)
Definition not_found {T : Type} (r : T * bool * option parse.ParseError) : Prop :=
  snd r <> None \/ snd (fst r) = false.

(** ** Sample inputs *)

Definition pos0 : Position := mkPosition 0 0 0.
Definition range0 : Range := mkRange pos0 pos0.
Definition expr (s : string) : Expression.t := Expression.mk s range0.

(** A small instance of the parsers that [Parse] is given: the input is the
    text still to be read, with the count of bytes read so far. *)
Definition toyInput : Type := nat * string.

Definition toy_Position (pi : toyInput) : Position :=
  mkPosition (Z.of_nat (fst pi)) 0 (Z.of_nat (fst pi)).

Fixpoint toy_skipSpaces (n : nat) (s : string) : nat * string :=
  match s with
  | String " " t => toy_skipSpaces (S n) t
  | _ => (n, s)
  end.

Definition toy_rune (c : ascii) : toyInput -> (string * bool * option parse.ParseError) * toyInput :=
  fun pi =>
    match snd pi with
    | String c' t =>
      if Ascii.eqb c c' then ((String c "", true, None), (S (fst pi), t))
      else (("", false, None), pi)
    | EmptyString => (("", false, None), pi)
    end.

Fixpoint toy_word (s : string) : string * string :=
  match s with
  | EmptyString => ("", "")
  | String c t =>
    if Ascii.eqb c " " || Ascii.eqb c "{" || Ascii.eqb c "}" then ("", s)
    else let '(w, r) := toy_word t in (String c w, r)
  end.

Definition toy_parseGo : toyInput -> (Expression.t * option parse.ParseError) * toyInput :=
  fun pi =>
    let '(w, r) := toy_word (snd pi) in
    ((expr w, None), ((fst pi + String.length w)%nat, r)).

Definition toy_brace (c : ascii) : toyInput -> (unit * bool * option parse.ParseError) * toyInput :=
  fun pi =>
    let '(n, s) := toy_skipSpaces (fst pi) (snd pi) in
    match s with
    | String c' t =>
      if Ascii.eqb c c' then ((tt, true, None), toy_skipSpaces (S n) t)
      else ((tt, false, None), pi)
    | EmptyString => ((tt, false, None), pi)
    end.

(** A node parser that finds no node and succeeds. *)
Definition toy_nodeParser
  (until : toyInput -> (unit * bool * option parse.ParseError) * toyInput)
  (untilName : string)
  : toyInput -> (list Node * bool * option parse.ParseError) * toyInput :=
  fun pi => (([], true, None), pi).

Definition toy_Parse : toyInput -> ParseResult * toyInput :=
  templElementExpressionParser_Parse toyInput toy_Position unit (toy_rune "@") toy_parseGo
    (toy_brace "{") (toy_brace "}") toy_nodeParser.

(** A node parser that finds no node and stops only in front of its
    terminator: it looks ahead for the terminator without reading it, and
    reports it as not found where it is not the next thing in the input. *)
Definition toy_untilNodeParser
  (until : toyInput -> (unit * bool * option parse.ParseError) * toyInput)
  (untilName : string)
  : toyInput -> (list Node * bool * option parse.ParseError) * toyInput :=
  fun pi =>
    match until pi with
    | ((_, _, Some err), _) => (([], false, Some err), pi)
    | ((_, true, None), _) => (([], true, None), pi)
    | ((_, false, None), _) =>
      (([], false, Some (parse.Error (untilName ++ " not found") (toy_Position pi))), pi)
    end.

Definition toy_Parse_until : toyInput -> ParseResult * toyInput :=
  templElementExpressionParser_Parse toyInput toy_Position unit (toy_rune "@") toy_parseGo
    (toy_brace "{") (toy_brace "}") toy_untilNodeParser.

(** ** Escaping, in the words of the Go documentation *)

(** What [strconv.Quote] writes for one byte of an ASCII string: a
    backslash before the double quote and the backslash, the printable
    characters as they are, and an escape sequence for a control character. *)
Definition goEscapeByte (c : ascii) : string :=
  let b := byteZ c in
  if b =? 34 then "\" ++ dq
  else if b =? 92 then "\\"
  else if (32 <=? b) && (b <=? 126) then String c ""
  else if b =? 7 then "\a"
  else if b =? 8 then "\b"
  else if b =? 12 then "\f"
  else if b =? 10 then "\n"
  else if b =? 13 then "\r"
  else if b =? 9 then "\t"
  else if b =? 11 then "\v"
  else "\x" ++ strconv.hexDigits 2 b.

Fixpoint goEscapeASCII (s : string) : string :=
  match s with
  | EmptyString => ""
  | String c t => goEscapeByte c ++ goEscapeASCII t
  end.

Fixpoint isASCII (s : string) : bool :=
  match s with
  | EmptyString => true
  | String c t => (byteZ c <? 128) && isASCII t
  end.

(** A quote character: the double quote or the single quote. *)
Definition isQuote (c : ascii) : bool := (byteZ c =? 34) || (byteZ c =? 39).

(** [literal] is [contents] with its quote characters replaced, each by a
    string of [f]'s choice, and every other character unchanged. *)
Fixpoint escapesQuotesOnly (f : ascii -> string) (contents : string) : string :=
  match contents with
  | EmptyString => ""
  | String c t =>
    (if isQuote c then f c else String c "") ++ escapesQuotesOnly f t
  end.

(** A byte that [html.EscapeString] leaves alone. *)
Definition htmlPlain (c : ascii) : bool :=
  let b := byteZ c in
  negb ((b =? 38) || (b =? 39) || (b =? 60) || (b =? 62) || (b =? 34)).

Fixpoint htmlPlainString (s : string) : bool :=
  match s with
  | EmptyString => true
  | String c t => htmlPlain c && htmlPlainString t
  end.

(** The text is empty or consists only of white space: every rune of it is
    white space. *)
Definition onlyWhitespace (s : string) : bool :=
  forallb (fun rb => unicode.IsSpace (fst rb)) (utf8.runes s).

(** ** What a run of the generator adds *)

Definition out (g : generator) : string := RangeWriter.w (w g).
Definition cur (g : generator) : Position := RangeWriter.Current (w g).
Definition lits (g : generator) : list string := RangeWriter.Literals (w g).
Definition syms (g : generator) : list (Range * Range) :=
  SourceMap.SymbolRanges (sourceMap g).

(** From [g] to [g'] the text [txt] was written, the literals [ls] were
    recorded and the symbol ranges [ss] were added, in this order, and
    nothing that was there before was changed. *)
Record delta (g g' : generator) (txt : string) (ls : list string)
  (ss : list (Range * Range)) : Prop := mkDelta {
  d_tf : tf g' = tf g;
  d_options : options g' = options g;
  d_out : out g' = out g ++ txt;
  d_cur : cur g' = RangeWriter.advance (cur g) txt;
  d_lits : lits g' = (lits g ++ ls)%list;
  d_syms : syms g' = (syms g ++ ss)%list }.

(** [g'] extends [g] by text and by literals that satisfy [P], with no new
    symbol range. *)
Definition ext (P : string -> Prop) (g g' : generator) : Prop :=
  exists txt ls, delta g g' txt ls [] /\ Forall P ls.

(** Every run of [m] extends the generator it starts from. *)
Definition pres {A : Type} (P : string -> Prop) (m : M A) : Prop :=
  forall g, ext P g (snd (m g)).

(** [m] returns without an error. *)
Definition total {A : Type} (m : M A) : Prop :=
  forall g, exists a, fst (m g) = Ok a.

(** A literal that does not open a closing tag. *)
Definition noClose (s : string) : Prop := String.prefix "</" s = false.

Definition anyLiteral (s : string) : Prop := True.

(** ** Node emission, in the words of the specification *)

(** A node is inline-or-text if it is an [IfExpression], a
    [SwitchExpression], a [ForExpression], a [Text], a [StringExpression], or
    an [Element] whose tag is not a block element. *)
Definition inlineOrText (n : Node) : bool :=
  match n with
  | NIfExpression _ | NSwitchExpression _ | NForExpression _
  | NText _ | NStringExpression _ => true
  | NElement e => negb (Element.IsBlockElement e)
  | _ => false
  end.

(** The node carries a trailing-space marker that is not none. *)
Definition hasTrailingSpace (n : Node) : bool :=
  match Trailing n with
  | Some SpaceNone | None => false
  | Some _ => true
  end.

(** A space is due after [current]: it carries a trailing-space marker, and
    it and its next sibling are inline-or-text; a missing sibling is not. *)
Definition trailerDue (current : Node) (next : option Node) : bool :=
  hasTrailingSpace current && inlineOrText current
  && match next with
     | Some n => inlineOrText n
     | None => false
     end.

(** The contexts of an expression attribute's value. *)
Inductive ValueContext := URLContext | ScriptContext | StyleContext | DefaultContext.

(** The element and attribute pairs whose value is a URL. *)
Definition urlPairs : list (string * string) :=
  [("a", "href"); ("link", "href"); ("form", "action"); ("object", "data")].

Definition isURLPair (elementName key : string) : bool :=
  existsb (fun p => String.eqb elementName (fst p) && String.eqb key (snd p)) urlPairs.

Definition valueContext (elementName key : string) : ValueContext :=
  if isURLPair elementName key then URLContext
  else if String.prefix "on" key || String.prefix "hx-on:" key then ScriptContext
  else if String.eqb key "style" then StyleContext
  else DefaultContext.

(** The text that the emitted code has right before the expression, by
    context: the call that the value goes through, or for a script handler
    the declaration of the typed script variable [vn]. *)
Definition valueHead (ctx : ValueContext) (vn : string) : string :=
  match ctx with
  | URLContext => vn ++ ", templ_7745c5c3_Err = templ.JoinURLErrs("
  | ScriptContext => "var " ++ vn ++ " templ.ComponentScript = "
  | StyleContext =>
    vn ++ ", templ_7745c5c3_Err = templruntime.SanitizeStyleAttributeValues("
  | DefaultContext => vn ++ ", templ_7745c5c3_Err = templ.JoinStringErrs("
  end.

(** The statement of the emitted code that writes the value held in [vn]:
    the [Call] field as it is for a script handler, the escaped string
    otherwise. *)
Definition valueWrite (ctx : ValueContext) (vn : string) : string :=
  match ctx with
  | ScriptContext =>
    "_, templ_7745c5c3_Err = templ_7745c5c3_Buffer.WriteString(" ++ vn ++ ".Call)" ++ nl
  | _ =>
    "_, templ_7745c5c3_Err = templ_7745c5c3_Buffer.WriteString(templ.EscapeString("
      ++ vn ++ "))" ++ nl
  end.

(** The writer of the value, by context. *)
Definition valueWriter (ctx : ValueContext) : nat -> ExpressionAttribute.t -> M unit :=
  match ctx with
  | URLContext => writeExpressionAttributeValueURL
  | ScriptContext => writeExpressionAttributeValueScript
  | StyleContext => writeExpressionAttributeValueStyle
  | DefaultContext => writeExpressionAttributeValueDefault
  end.

(** The name that [createVariableName] returns in [g]. *)
Definition nextVariableName (g : generator) : string :=
  "templ_7745c5c3_Var" ++ strconv.Itoa (int_wrap (variableID g + 1)).

(** The literals of an element's open tag, given those of its attributes. *)
Definition openTagLiterals (name : string) (attrs : list Attribute)
  (attrLiterals : list string) : list string :=
  if (length attrs =? 0)%nat then ["<" ++ html.EscapeString name ++ ">"]
  else ("<" ++ html.EscapeString name) :: (attrLiterals ++ [">"])%list.

(** The first half of [writeElement]: the open tag with its attributes. *)
Definition writeOpenTag (indentLevel : nat) (n : Element.t Node) : M unit :=
  if (length (Element.Attributes n) =? 0)%nat
  then
    WriteStringLiteral indentLevel ("<" ++ html.EscapeString (Element.Name n) ++ ">") ;;
    ret tt
  else
    let attrs := CopyAttributes (Element.Attributes n) in
    attrs <- writeElementCSS indentLevel attrs ;;
    writeElementScript indentLevel attrs ;;
    WriteStringLiteral indentLevel ("<" ++ html.EscapeString (Element.Name n)) ;;
    writeElementAttributes indentLevel (Element.Name n) attrs ;;
    WriteStringLiteral indentLevel ">" ;;
    ret tt.

(** The literal of an element's closing tag. *)
Definition closeTag (n : Element.t Node) : string :=
  "</" ++ html.EscapeString (Element.Name n) ++ ">".

(** [n] as an element that is not void. *)
Definition asNormalElement (n : Element.t Node) : Element.t Node :=
  Element.mk (Element.Name n) (Element.Attributes n) (Element.Children n)
    (Element.TrailingSpace n) false (Element.IsBlockElement n).

(** ** The declarations of a file, in the words of the specification *)

(** The last line of the expression starts a line comment. *)
Definition endsInComment (e : Expression.t) : bool :=
  strings.HasPrefix (last (strings.Split (Expression.Value e) (ascii_of_nat 10)) "") "//".

(** The source range that a declaration gives to the symbol ranges: none for
    a Go expression whose last line is a comment, its range otherwise. *)
Definition goSymbol (n : option TemplateFileGoExpression.t) : list Range :=
  match n with
  | Some n =>
    let e := TemplateFileGoExpression.Expression n in
    if endsInComment e then [] else [Expression.Range e]
  | None => []
  end.

Definition nodeSymbol (n : TemplateFileNode) : list Range :=
  match n with
  | TFGoExpression n => goSymbol n
  | TFHTMLTemplate (Some t) => [HTMLTemplate.Range t]
  | TFCSSTemplate (Some t) => [CSSTemplate.Range t]
  | TFScriptTemplate (Some t) => [ScriptTemplate.Range t]
  | _ => []
  end.

Definition symbolSources (file : TemplateFile.t) : list Range :=
  (flat_map goSymbol (TemplateFile.Header file)
     ++ flat_map nodeSymbol (TemplateFile.Nodes file))%list.

(** One declaration per header block and per top-level node. *)
Definition declarationCount (file : TemplateFile.t) : nat :=
  (length (TemplateFile.Header file) + length (TemplateFile.Nodes file))%nat.

(** The ranges are not empty, do not overlap and increase, from the byte
    offset [lo] on. *)
Fixpoint increasingFrom (lo : Z) (rs : list Range) : Prop :=
  match rs with
  | [] => True
  | r :: rest =>
    lo <= Index (From r) /\ Index (From r) < Index (To r)
    /\ increasingFrom (Index (To r)) rest
  end.

(** The symbol ranges of a declaration written from [g] to [g']: its
    sources, each with the range of the text written. *)
Definition symbolAt (g g' : generator) (srcs : list Range) : list (Range * Range) :=
  map (fun s => (s, mkRange (cur g) (cur g'))) srcs.

(** The text that ends a declaration: [count] is the number of top-level
    nodes and [i] the index of the node. *)
Definition nodeTail (count i : nat) (n : TemplateFileNode) : string :=
  match n with
  | TFGoExpression (Some e) =>
    if endsInComment (TemplateFileGoExpression.Expression e) then nl else nl ++ nl
  | TFGoExpression None => ""
  | TFHTMLTemplate _ =>
    tab ++ "})" ++ nl ++ "}" ++ nl ++ (if (count <=? i + 1)%nat then "" else nl)
  | TFCSSTemplate _ | TFScriptTemplate _ => tab ++ "}" ++ nl ++ "}" ++ nl ++ nl
  end.

(** The text [chunk] written for the node [n] at index [i] ends with the
    node's tail; for a Go expression the tail follows the expression. *)
Definition chunkOf (count i : nat) (n : TemplateFileNode) (chunk : string) : Prop :=
  exists pre,
    chunk = pre ++ nodeTail count i n
    /\ match n with
       | TFGoExpression (Some e) =>
         pre = Expression.Value (TemplateFileGoExpression.Expression e)
       | _ => True
       end.

Fixpoint chunksOf (count i : nat) (nodes : list TemplateFileNode) (chunks : list string)
  : Prop :=
  match nodes, chunks with
  | [], [] => True
  | n :: ns, c :: cs => chunkOf count i n c /\ chunksOf count (S i) ns cs
  | _, _ => False
  end.

(** The texts one after the other. *)
Fixpoint joinAll (chunks : list string) : string :=
  match chunks with
  | [] => ""
  | c :: cs => c ++ joinAll cs
  end.

(** The byte offset of the cursor. *)
Definition idx (g : generator) : Z := Index (cur g).

(** The ranges increase between the offsets [lo] and [hi]. *)
Definition within (lo hi : Z) (rs : list Range) : Prop :=
  increasingFrom lo rs /\ Forall (fun r => Index (To r) <= hi) rs.

(** The symbol ranges [ss] added while [txt] was written from [g] lie in the
    text written, in increasing order, as long as the offset does not wrap. *)
Definition spans (g : generator) (txt : string) (ss : list (Range * Range)) : Prop :=
  0 <= idx g -> idx g + Z.of_nat (String.length txt) < 2 ^ 64 ->
  within (idx g) (idx g + Z.of_nat (String.length txt)) (map snd ss).

(** The text of a declaration ends in a blank line. *)
Definition endsInBlankLine (chunk : string) : Prop :=
  exists pre, chunk = pre ++ nl ++ nl.

(** An option that changes the options only. *)
Definition setsOptionsOnly (opt : GenerateOpt) : Prop :=
  forall g, fst (opt g) = Ok tt
            /\ tf (snd (opt g)) = tf g
            /\ w (snd (opt g)) = w g
            /\ sourceMap (snd (opt g)) = sourceMap g.

(** A generator at the start of a file with no header and no nodes. *)
Definition emptyFile : TemplateFile.t :=
  TemplateFile.mk [] (Package.mk (expr "package main")) [].

Definition generator0 : generator :=
  mkGenerator emptyFile RangeWriter.NewRangeWriter SourceMap.NewSourceMap 0 ""
    (GeneratorOptions.mk "" "" false "").

(** ** Sample files and sample instances of the library functions *)

Definition rangeAt (a b : Z) : Range := mkRange (mkPosition a 0 0) (mkPosition b 0 0).

(** Every rune above Latin-1 counts as printable. *)
Definition printAll : Z -> bool := fun _ => true.

(** A constant in place of the hash of a script body. *)
Definition sampleHash : string -> string := fun _ => "0123456789abcdef".

(** A file whose header is one Go expression that ends in a line comment. *)
Definition commentFile : TemplateFile.t :=
  TemplateFile.mk
    [Some (TemplateFileGoExpression.mk (Expression.mk "// note" (rangeAt 0 7)))]
    (Package.mk (expr "package main")) [].

(** A header, a Go expression that ends in a line comment, an HTML template
    and a CSS template. *)
Definition sampleFile : TemplateFile.t :=
  TemplateFile.mk
    [Some (TemplateFileGoExpression.mk (Expression.mk "import x" (rangeAt 0 8)))]
    (Package.mk (expr "package main"))
    [TFGoExpression
       (Some (TemplateFileGoExpression.mk (Expression.mk "// note" (rangeAt 30 37))));
     TFHTMLTemplate
       (Some (HTMLTemplate.mk (rangeAt 38 70) (expr "Hello()")
                [NText (Text.mk "hi" SpaceNone)]));
     TFCSSTemplate (Some (CSSTemplate.mk (rangeAt 71 90) "red" (expr "red()") []))].

(** A blank string expression with a trailing space, and a text after it. *)
Definition blankExpression : Node :=
  NStringExpression (StringExpression.mk (expr "  ") SpaceHorizontal).

Definition someText : Node := NText (Text.mk "hi" SpaceHorizontal).

(** A void element with no children. *)
Definition brElement : Element.t Node := Element.mk "br" [] [] SpaceNone true false.

(** Go code with a vertical trailing space among the contents of a script
    element. *)
Definition scriptGoCode : ScriptContents.t :=
  ScriptContents.mk None (Some (GoCode.mk (expr "x") SpaceVertical)) false.

(** The result of [Generate], or an empty result in its place. *)
Definition outputOf (r : result GeneratorOutput.t * string) : GeneratorOutput.t :=
  match fst r with
  | Ok op => op
  | _ => GeneratorOutput.mk (GeneratorOptions.mk "" "" false "") SourceMap.NewSourceMap []
  end.

(** The [String] method of an expression key, for the sample runs. *)
Definition braces (e : Expression.t) : string := "{ " ++ Expression.Value e ++ " }".

(** ** Vocabulary of the further properties *)

(** [s] has the byte [c]. *)
Fixpoint hasByte (c : ascii) (s : string) : bool :=
  match s with
  | EmptyString => false
  | String x t => Ascii.eqb x c || hasByte c t
  end.

(** A declaration that is a nil pointer. *)
Definition isNil (n : TemplateFileNode) : bool :=
  match n with
  | TFGoExpression None | TFHTMLTemplate None | TFCSSTemplate None
  | TFScriptTemplate None => true
  | _ => false
  end.

(** The comments at the top of the file, by the options. *)
Definition prologueText (o : GeneratorOptions.t) : string :=
  (if GeneratorOptions.SkipCodeGeneratedComment o
   then "//" ++ nl ++ nl
   else "// Code generated by templ - DO NOT EDIT." ++ nl ++ nl)
  ++ (if String.eqb (GeneratorOptions.Version o) "" then ""
      else "// templ: version: " ++ GeneratorOptions.Version o ++ nl)
  ++ (if String.eqb (GeneratorOptions.GeneratedDate o) "" then ""
      else "// templ: generated: " ++ GeneratorOptions.GeneratedDate o ++ nl).

(** The file from the header on. *)
Definition generateTail (rec : nat -> Node -> option Node -> M unit) : M unit :=
  writeHeader ;;
  writePackage ;;
  writeImports ;;
  writeTemplateNodes rec ;;
  writeBlankAssignmentForRuntimeImport.

(** The next sibling of the last node of a list that [rest] follows. *)
Definition nextOf (rest : list Node) (next : option Node) : option Node :=
  match rest with
  | n :: _ => Some n
  | [] => next
  end.

(** Every byte is a printable ASCII character. *)
Fixpoint printableASCII (s : string) : bool :=
  match s with
  | EmptyString => true
  | String c t => (32 <=? byteZ c) && (byteZ c <=? 126) && printableASCII t
  end.

(** The value of a hexadecimal digit. *)
Definition hexValue (c : ascii) : Z :=
  let b := byteZ c in
  if (48 <=? b) && (b <=? 57) then b - 48
  else if (97 <=? b) && (b <=? 102) then b - 87
  else 0.

(** The byte that an escape sequence of one letter stands for in a Go string
    literal. *)
Definition unescapeLetter (c : ascii) : ascii :=
  let b := byteZ c in
  if b =? 97 then ascii_of_nat 7
  else if b =? 98 then ascii_of_nat 8
  else if b =? 102 then ascii_of_nat 12
  else if b =? 110 then ascii_of_nat 10
  else if b =? 114 then ascii_of_nat 13
  else if b =? 116 then ascii_of_nat 9
  else if b =? 118 then ascii_of_nat 11
  else c.

(** The bytes that the body of an interpreted Go string literal stands for,
    for the escape sequences of one letter and of two hexadecimal digits. *)
Fixpoint goUnescape (s : string) : string :=
  match s with
  | EmptyString => ""
  | String c t =>
    if Ascii.eqb c "\" then
      match t with
      | EmptyString => String c ""
      | String x u =>
        if Ascii.eqb x "x" then
          match u with
          | String h1 (String h2 t') =>
            String (ascii_of_nat (Z.to_nat (16 * hexValue h1 + hexValue h2)))
              (goUnescape t')
          | _ => String x (goUnescape u)
          end
        else String (unescapeLetter x) (goUnescape u)
      end
    else String c (goUnescape t)
  end.

(** A Go expression parser that reads the word and reports an error. *)
Definition toy_parseGo_error
  : toyInput -> (Expression.t * option parse.ParseError) * toyInput :=
  fun pi =>
    let '(w, r) := toy_word (snd pi) in
    ((expr w, Some (parse.Error "not an expression" (toy_Position pi))),
     ((fst pi + String.length w)%nat, r)).

Definition toy_Parse_error : toyInput -> ParseResult * toyInput :=
  templElementExpressionParser_Parse toyInput toy_Position unit (toy_rune "@")
    toy_parseGo_error (toy_brace "{") (toy_brace "}") toy_nodeParser.

(** The separator that [createGoString] puts in place of a backtick: the
    end of a raw string, the backtick as an interpreted string, and the
    start of the next raw string. *)
Definition backtickSeparator : string := bt ++ " + " ++ dq ++ bt ++ dq ++ " + " ++ bt.

(** The method returned without an error. *)
Definition succeeded {A : Type} (r : result A) : bool :=
  match r with
  | Ok _ => true
  | _ => false
  end.

(** A script content that [writeScriptContents] knows how to write: a
    value or Go code. *)
Definition knownContent (c : ScriptContents.t) : bool :=
  match ScriptContents.Value c, ScriptContents.GoCode c with
  | None, None => false
  | _, _ => true
  end.

(** Every script element in the node, at any depth, has known contents
    only. *)
Fixpoint knownScripts (n : Node) : bool :=
  match n with
  | NScriptElement s => forallb knownContent (ScriptElement.Contents s)
  | NElement e => forallb knownScripts (Element.Children e)
  | NForExpression e => forallb knownScripts (ForExpression.Children e)
  | NTemplElementExpression e => forallb knownScripts (TemplElementExpression.Children e)
  | NIfExpression e =>
    forallb knownScripts (IfExpression.Then e)
    && forallb (fun ei => forallb knownScripts (ElseIfExpression.Then ei))
         (IfExpression.ElseIfs e)
    && forallb knownScripts (IfExpression.Else e)
  | NSwitchExpression e =>
    forallb (fun c => forallb knownScripts (CaseExpression.Children c))
      (SwitchExpression.Cases e)
  | _ => true
  end.

(** A declaration that [Generate] can write: not nil, and for an HTML
    template with known script contents only. *)
Definition writable (n : TemplateFileNode) : bool :=
  match n with
  | TFHTMLTemplate (Some t) => forallb knownScripts (HTMLTemplate.Children t)
  | _ => negb (isNil n)
  end.

Definition writableFile (file : TemplateFile.t) : bool :=
  forallb (fun h => writable (TFGoExpression h)) (TemplateFile.Header file)
  && forallb writable (TemplateFile.Nodes file).

(** [m], run from any generator, does not run out of fuel, and returns
    without an error exactly when [b] is true. *)
Definition settles {A : Type} (m : M A) (b : bool) : Prop :=
  forall g, fst (m g) <> OutOfFuel /\ succeeded (fst (m g)) = b.

(** An inline element whose only child is a script element with a content
    that is neither a value nor Go code. *)
Definition badScript : Node :=
  NScriptElement (ScriptElement.mk [] [ScriptContents.mk None None false]).

Definition spanWithBadScript : Node :=
  NElement (Element.mk "span" [] [badScript] SpaceHorizontal false false).

Definition badScriptFile : TemplateFile.t :=
  TemplateFile.mk [] (Package.mk (expr "package main"))
    [TFHTMLTemplate (Some (HTMLTemplate.mk (rangeAt 0 10) (expr "Bad()")
                             [spanWithBadScript; someText]))].


(** A text with a backslash and a double quote. *)
Definition quotedText : string := "a\" ++ dq ++ "b".


(** * Facts about strings *)

Lemma sapp_assoc (a b c : string) : (a ++ b) ++ c = a ++ (b ++ c).
Proof. induction a as [|x a IH]; simpl; [reflexivity|now rewrite IH]. Qed.

Lemma sapp_nil_l (a : string) : "" ++ a = a.
Proof. reflexivity. Qed.

Lemma sapp_nil_r (a : string) : a ++ "" = a.
Proof. induction a as [|x a IH]; simpl; [reflexivity|now rewrite IH]. Qed.

Lemma slength_app (a b : string) :
  String.length (a ++ b) = (String.length a + String.length b)%nat.
Proof. induction a as [|x a IH]; simpl; [reflexivity|now rewrite IH]. Qed.

Lemma sapp_inv_head (a b c : string) : a ++ b = a ++ c -> b = c.
Proof. induction a as [|x a IH]; simpl; intros H; [exact H|]. inversion H; auto. Qed.

Lemma substring_all (s : string) : substring 0 (String.length s) s = s.
Proof. induction s as [|x s IH]; simpl; [reflexivity|now rewrite IH]. Qed.

Lemma substring_app_l (a b : string) : substring 0 (String.length a) (a ++ b) = a.
Proof.
  induction a as [|x a IH]; simpl.
  - destruct b; reflexivity.
  - now rewrite IH.
Qed.

Lemma prefix_app (p s : string) : String.prefix p (p ++ s) = true.
Proof.
  induction p as [|x p IH]; simpl.
  - destruct s; reflexivity.
  - destruct (ascii_dec x x); [exact IH|congruence].
Qed.


Lemma Contains_app_l (pre s sub : string) : Contains s sub -> Contains (pre ++ s) sub.
Proof.
  intros (a & b & ->). exists (pre ++ a), b. now rewrite sapp_assoc.
Qed.

Lemma Contains_app_r (s post sub : string) : Contains s sub -> Contains (s ++ post) sub.
Proof.
  intros (a & b & ->). exists a, (b ++ post). now rewrite !sapp_assoc.
Qed.

Lemma Contains_refl (s : string) : Contains s s.
Proof. exists "", "". simpl. now rewrite sapp_nil_r. Qed.


Lemma Contains_containsb (s sub : string) : Contains s sub -> containsb s sub = true.
Proof.
  intros (pre & post & ->). induction pre as [|c pre IH].
  - cbn [append]. destruct (sub ++ post) eqn:E; cbn [containsb]; rewrite <- ?E;
      rewrite prefix_app; reflexivity.
  - cbn [append containsb]. rewrite IH. apply orb_true_r.
Qed.


(** * Properties *)

(** ** Change detection *)









(** ** The template-element parser *)

Example toy_Parse_self_closing :
  toy_Parse (0%nat, "@Foo()")
  = ((Some (NTemplElementExpression (TemplElementExpression.mk (expr "Foo()") [])),
      true, None),
     (6%nat, "")).
Proof. reflexivity. Qed.

Example toy_Parse_nested_absent :
  toy_Parse (0%nat, "<p>") = ((None, false, None), (0%nat, "<p>")).
Proof. reflexivity. Qed.

(** C8, as the code has it.  After the [@] and the template expression:
    when the open brace parser reports no brace, [Parse] returns the node
    without children and no error.  When it reports a brace, the node parser
    runs first: if it fails or finds nothing, [Parse] returns the node with
    the nodes that parser returned as children and the error "expected nodes,
    but none were found", without looking for the closing brace; if it
    returns its nodes and the closing brace parser then does not find the
    brace, [Parse] returns the node with those nodes as children and an error
    whose message contains "missing end (expected '}')"; and if the closing
    brace is found, the node with those children and no error. *)
Theorem Parse_self_closing_and_missing_end
  (Input : Type) (Input_Position : Input -> Position) (Brace : Type)
  (Rune_at : Parser Input string)
  (parseGo : Input -> (Expression.t * option parse.ParseError) * Input)
  (openBrace closeBrace : Parser Input Brace)
  (newTemplateNodeParser : Parser Input Brace -> string -> Parser Input (list Node))
  (pi pi1 pi2 : Input) (at_sign : string) (e : Expression.t) :
  Rune_at pi = ((at_sign, true, None), pi1) ->
  parseGo pi1 = ((e, None), pi2) ->
  let Parse := templElementExpressionParser_Parse Input Input_Position Brace Rune_at
                 parseGo openBrace closeBrace newTemplateNodeParser in
  let node children :=
    Some (NTemplElementExpression (TemplElementExpression.mk e children)) in
  (forall b pi3,
      openBrace pi2 = ((b, false, None), pi3) ->
      Parse pi = ((node [], true, None), pi3))
  /\ (forall b pi3 r pi4,
         openBrace pi2 = ((b, true, None), pi3) ->
         newTemplateNodeParser closeBrace "templ element closing brace" pi3 = (r, pi4) ->
         not_found r ->
         Parse pi
         = ((node (fst (fst r)), true,
             Some (parse.Error
                     ("@" ++ Expression.Value e ++ ": expected nodes, but none were found")
                     (Input_Position pi4))),
            pi4))
  /\ (forall b pi3 nodes pi4 r pi5,
         openBrace pi2 = ((b, true, None), pi3) ->
         newTemplateNodeParser closeBrace "templ element closing brace" pi3
         = ((nodes, true, None), pi4) ->
         closeBrace pi4 = (r, pi5) ->
         not_found r ->
         exists msg,
           msg = "@" ++ Expression.Value e ++ ": missing end (expected '}')"
           /\ Parse pi
              = ((node nodes, true, Some (parse.Error msg (Input_Position pi5))), pi5)
           /\ Contains msg "missing end (expected '}')")
  /\ (forall b pi3 nodes pi4 b' pi5,
         openBrace pi2 = ((b, true, None), pi3) ->
         newTemplateNodeParser closeBrace "templ element closing brace" pi3
         = ((nodes, true, None), pi4) ->
         closeBrace pi4 = ((b', true, None), pi5) ->
         Parse pi = ((node nodes, true, None), pi5)).
Proof.
  intros Hat Hgo Parse node. subst Parse node.
  unfold templElementExpressionParser_Parse. rewrite Hat, Hgo.
  split; [|split; [|split]].
  - intros b pi3 Hopen. rewrite Hopen. reflexivity.
  - intros b pi3 r pi4 Hopen Hnodes Hmissing. rewrite Hopen. cbn [negb].
    rewrite Hnodes. destruct r as [[nodes m] err].
    destruct Hmissing as [Herr|Hm]; cbn in *.
    + destruct err; [reflexivity|congruence].
    + subst m. destruct err; reflexivity.
  - intros b pi3 nodes pi4 r pi5 Hopen Hnodes Hclose Hmissing.
    exists ("@" ++ Expression.Value e ++ ": missing end (expected '}')").
    split; [reflexivity|]. split.
    + rewrite Hopen. cbn [negb]. rewrite Hnodes, Hclose.
      destruct r as [[x matched] err].
      destruct Hmissing as [Herr|Hm]; cbn in *.
      * destruct err; [reflexivity|congruence].
      * subst matched. destruct err; reflexivity.
    + exists ("@" ++ Expression.Value e ++ ": "), "".
      now rewrite !sapp_assoc, sapp_nil_r.
  - intros b pi3 nodes pi4 b' pi5 Hopen Hnodes Hclose.
    rewrite Hopen. cbn [negb]. rewrite Hnodes, Hclose. reflexivity.
Qed.


(** ** The library functions *)

Lemma escapeQuotes_body (s : string) :
  escapeQuotes s = strconv.quoteBody isPrintWide 0 s.
Proof.
  unfold escapeQuotes, strconv.Quote, dq, chr. cbn [append String.length substring].
  rewrite slength_app. cbn [String.length].
  replace (S (String.length (strconv.quoteBody isPrintWide 0 s) + 1) - 2)%nat
    with (String.length (strconv.quoteBody isPrintWide 0 s)) by lia.
  apply substring_app_l.
Qed.

Lemma appendEscapedRune_ascii (c : ascii) :
  (byteZ c <? 128) = true ->
  strconv.appendEscapedRune isPrintWide (byteZ c) = goEscapeByte c.
Proof.
  destruct c as [[] [] [] [] [] [] [] []]; intros H;
    try discriminate H; vm_compute; reflexivity.
Qed.

Lemma quoteBody_ascii (s : string) :
  isASCII s = true -> strconv.quoteBody isPrintWide 0 s = goEscapeASCII s.
Proof.
  induction s as [|c t IH]; intros H; [reflexivity|].
  simpl in H. apply andb_true_iff in H as [Hc Ht].
  cbn [strconv.quoteBody goEscapeASCII].
  assert (Hself : (utf8.RuneSelf <=? byteZ c) = false).
  { unfold utf8.RuneSelf. apply Z.ltb_lt in Hc. apply Z.leb_gt. exact Hc. }
  rewrite Hself. cbn [Nat.eqb Nat.pred andb].
  assert (Herr : (byteZ c =? utf8.RuneError) = false).
  { unfold utf8.RuneError. apply Z.ltb_lt in Hc. apply Z.eqb_neq. lia. }
  rewrite Herr. rewrite appendEscapedRune_ascii by exact Hc.
  now rewrite IH.
Qed.

(** On ASCII text [escapeQuotes] is Go's quoting, byte by byte. *)
Lemma escapeQuotes_ascii (s : string) :
  isASCII s = true -> escapeQuotes s = goEscapeASCII s.
Proof. intros H. rewrite escapeQuotes_body. now apply quoteBody_ascii. Qed.

Lemma escapeByte_plain (c : ascii) :
  htmlPlain c = true -> html.escapeByte c = String c "".
Proof.
  unfold htmlPlain, html.escapeByte. cbv zeta. intros H.
  apply negb_true_iff in H. rewrite !orb_false_iff in H.
  destruct H as [[[[H1 H2] H3] H4] H5]. now rewrite H1, H2, H3, H4, H5.
Qed.

Lemma escapeByte_special (c : ascii) :
  htmlPlain c = false -> exists t, html.escapeByte c = String "&" t.
Proof.
  unfold htmlPlain, html.escapeByte. cbv zeta. intros H.
  apply negb_false_iff in H.
  destruct (byteZ c =? 38); [eexists; reflexivity|].
  destruct (byteZ c =? 39); [eexists; reflexivity|].
  destruct (byteZ c =? 60); [eexists; reflexivity|].
  destruct (byteZ c =? 62); [eexists; reflexivity|].
  destruct (byteZ c =? 34); [eexists; reflexivity|].
  discriminate H.
Qed.

Lemma htmlPlain_amp (c : ascii) : htmlPlain c = true -> c <> "&"%char.
Proof. intros H ->. discriminate H. Qed.

(** [html.EscapeString] keeps every prefix made of plain bytes, and adds
    none. *)
Lemma prefix_EscapeString (t k : string) :
  htmlPlainString t = true ->
  String.prefix t (html.EscapeString k) = String.prefix t k.
Proof.
  revert k. induction t as [|x t IH]; intros k Ht.
  - destruct k; simpl; [reflexivity|]. now destruct (html.escapeByte a ++ html.EscapeString k).
  - simpl in Ht. apply andb_true_iff in Ht as [Hx Ht].
    destruct k as [|y k]; [reflexivity|].
    cbn [html.EscapeString]. destruct (htmlPlain y) eqn:Hy.
    + rewrite escapeByte_plain by exact Hy. cbn [append String.prefix].
      destruct (ascii_dec x y); [now apply IH|reflexivity].
    + destruct (escapeByte_special y Hy) as [u ->]. cbn [append String.prefix].
      destruct (ascii_dec x "&"); [now apply htmlPlain_amp in Hx|].
      destruct (ascii_dec x y); [subst; congruence|reflexivity].
Qed.

Lemma eqb_EscapeString (t k : string) :
  htmlPlainString t = true ->
  String.eqb (html.EscapeString k) t = String.eqb k t.
Proof.
  revert t. induction k as [|y k IH]; intros t Ht; [reflexivity|].
  cbn [html.EscapeString]. destruct (htmlPlain y) eqn:Hy.
  - rewrite escapeByte_plain by exact Hy. cbn [append].
    destruct t as [|x t]; [reflexivity|]. cbn [String.eqb].
    simpl in Ht. apply andb_true_iff in Ht as [_ Ht].
    destruct (Ascii.eqb y x); [now apply IH|reflexivity].
  - destruct (escapeByte_special y Hy) as [u ->]. cbn [append].
    destruct t as [|x t]; [reflexivity|]. cbn [String.eqb].
    simpl in Ht. apply andb_true_iff in Ht as [Hx _].
    destruct (Ascii.eqb_spec "&" x) as [<-|_]; [discriminate Hx|].
    destruct (Ascii.eqb_spec y x) as [->|_]; [congruence|reflexivity].
Qed.

Lemma TrimSpace_onlyWhitespace (s : string) :
  onlyWhitespace s = true -> strings.TrimSpace s = "".
Proof.
  unfold onlyWhitespace, strings.TrimSpace, strings.TrimLeftFunc. intros H.
  assert (Hdrop : strings.dropWhileRune unicode.IsSpace (utf8.runes s) = []).
  { induction (utf8.runes s) as [|[r b] l IH]; [reflexivity|].
    simpl in H. apply andb_true_iff in H as [Hr Hl]. simpl. rewrite Hr. now apply IH. }
  rewrite Hdrop. reflexivity.
Qed.


(** ** Runs of the generator only extend it *)

Lemma advance_app (p : Position) (a b : string) :
  RangeWriter.advance p (a ++ b) = RangeWriter.advance (RangeWriter.advance p a) b.
Proof. revert p. induction a as [|x a IH]; intros p; simpl; [reflexivity|apply IH]. Qed.

Lemma delta_refl g : delta g g "" [] [].
Proof.
  constructor; try reflexivity.
  - now rewrite sapp_nil_r.
  - now rewrite app_nil_r.
  - now rewrite app_nil_r.
Qed.

Lemma delta_trans g1 g2 g3 t1 t2 l1 l2 s1 s2 :
  delta g1 g2 t1 l1 s1 -> delta g2 g3 t2 l2 s2 ->
  delta g1 g3 (t1 ++ t2) (l1 ++ l2) (s1 ++ s2).
Proof.
  intros [A1 A2 A3 A4 A5 A6] [B1 B2 B3 B4 B5 B6]. constructor.
  - congruence.
  - congruence.
  - rewrite B3, A3. apply sapp_assoc.
  - rewrite B4, A4. symmetry. apply advance_app.
  - rewrite B5, A5. symmetry. apply app_assoc.
  - rewrite B6, A6. symmetry. apply app_assoc.
Qed.

Lemma ext_refl P g : ext P g g.
Proof. exists "", []. split; [apply delta_refl|constructor]. Qed.

Lemma ext_trans P g1 g2 g3 : ext P g1 g2 -> ext P g2 g3 -> ext P g1 g3.
Proof.
  intros (t1 & l1 & D1 & F1) (t2 & l2 & D2 & F2).
  exists (t1 ++ t2), (l1 ++ l2)%list. split.
  - exact (delta_trans _ _ _ _ _ _ _ _ _ D1 D2).
  - apply Forall_app; auto.
Qed.

Lemma ext_weaken (P Q : string -> Prop) g g' :
  (forall s, P s -> Q s) -> ext P g g' -> ext Q g g'.
Proof.
  intros H (t & l & D & F). exists t, l. split; [exact D|].
  eapply Forall_impl; eauto.
Qed.

Lemma pres_weaken {A} (P Q : string -> Prop) (m : M A) :
  (forall s, P s -> Q s) -> pres P m -> pres Q m.
Proof. intros H Hm g. eapply ext_weaken; eauto. Qed.

Lemma pres_any {A} (P : string -> Prop) (m : M A) : pres P m -> pres anyLiteral m.
Proof. apply pres_weaken. intros; exact I. Qed.

Section Pres.

Variable P : string -> Prop.

Lemma pres_ret {A} (a : A) : pres P (ret a).
Proof. intros g. apply ext_refl. Qed.

Lemma pres_raise {A} (e : error) : pres P (@raise A e).
Proof. intros g. apply ext_refl. Qed.

Lemma pres_gets {A} (f : generator -> A) : pres P (gets f).
Proof. intros g. apply ext_refl. Qed.

Lemma pres_returnErr (err : option error) : pres P (returnErr err).
Proof. destruct err; [apply pres_raise|apply pres_ret]. Qed.

Lemma pres_bind {A B} (m : M A) (f : A -> M B) :
  pres P m -> (forall a, pres P (f a)) -> pres P (bind m f).
Proof.
  intros Hm Hf g. unfold bind. specialize (Hm g).
  destruct (m g) as [[a|e|] g1]; simpl in *; auto.
  eapply ext_trans; [exact Hm|apply Hf].
Qed.

Lemma pres_attempt {A} (m : M A) : pres P m -> pres P (attempt m).
Proof.
  intros Hm g. unfold attempt. specialize (Hm g).
  destruct (m g) as [[a|e|] g1]; simpl in *; auto.
Qed.

Lemma delta_Write (s : string) (g : generator) :
  delta g (snd (Write s g)) s [] [].
Proof.
  unfold Write, RangeWriter.Write. simpl.
  constructor; try reflexivity; unfold lits, syms; simpl; now rewrite app_nil_r.
Qed.

Lemma pres_Write (s : string) : pres P (Write s).
Proof. intros g. exists s, []. split; [apply delta_Write|constructor]. Qed.

Lemma delta_WriteIndent (level : nat) (s : string) (g : generator) :
  delta g (snd (WriteIndent level s g)) (strings.Repeat tab level ++ s) [] [].
Proof.
  unfold WriteIndent, RangeWriter.WriteIndent, RangeWriter.Write. simpl.
  constructor; try reflexivity; unfold lits, syms; simpl; now rewrite app_nil_r.
Qed.

Lemma pres_WriteIndent (level : nat) (s : string) : pres P (WriteIndent level s).
Proof. intros g. eexists _, []. split; [apply delta_WriteIndent|constructor]. Qed.

Lemma delta_WriteStringLiteral (level : nat) (s : string) (g : generator) :
  delta g (snd (WriteStringLiteral level s g))
    (strings.Repeat tab level ++ RangeWriter.literalStatement s) [s] [].
Proof.
  unfold WriteStringLiteral, RangeWriter.WriteStringLiteral, RangeWriter.WriteIndent,
    RangeWriter.Write. simpl.
  constructor; try reflexivity; unfold syms; simpl; now rewrite app_nil_r.
Qed.

Lemma pres_WriteStringLiteral (level : nat) (s : string) :
  P s -> pres P (WriteStringLiteral level s).
Proof.
  intros Hs g. eexists _, [s]. split; [apply delta_WriteStringLiteral|].
  constructor; [exact Hs|constructor].
Qed.

Lemma pres_sourceMap_Add (src : Expression.t) (tgt : Range) :
  pres P (sourceMap_Add src tgt).
Proof.
  intros g. exists "", []. split; [|constructor].
  unfold sourceMap_Add. simpl.
  constructor; try reflexivity; unfold out, lits, syms; simpl;
    rewrite ?sapp_nil_r, ?app_nil_r; reflexivity.
Qed.

Lemma pres_createVariableName : pres P createVariableName.
Proof.
  intros g. exists "", []. split; [|constructor].
  unfold createVariableName. simpl.
  constructor; try reflexivity; unfold out, lits, syms; simpl;
    rewrite ?sapp_nil_r, ?app_nil_r; reflexivity.
Qed.

Lemma pres_set_childrenVar (v : string) : pres P (set_childrenVar v).
Proof.
  intros g. exists "", []. split; [|constructor].
  unfold set_childrenVar. simpl.
  constructor; try reflexivity; unfold out, lits, syms; simpl;
    rewrite ?sapp_nil_r, ?app_nil_r; reflexivity.
Qed.

Lemma pres_forEach {A} (f : A -> M unit) (xs : list A) :
  (forall x, pres P (f x)) -> pres P (forEach f xs).
Proof.
  intros Hf. induction xs as [|x xs IH]; simpl; [apply pres_ret|].
  apply pres_bind; auto.
Qed.

Lemma pres_forEachUpdate {A} (f : A -> M A) (xs : list A) :
  (forall x, In x xs -> pres P (f x)) -> pres P (forEachUpdate f xs).
Proof.
  induction xs as [|x xs IH]; intros Hf; simpl; [apply pres_ret|].
  apply pres_bind; [apply Hf; now left|intros x'].
  apply pres_bind; [apply IH; intros; apply Hf; now right|intros r; apply pres_ret].
Qed.

Lemma pres_forEachKeepLast {A} (f : A -> M unit) (xs : list A) (err : option error) :
  (forall x, In x xs -> pres P (f x)) -> pres P (forEachKeepLast f xs err).
Proof.
  revert err. induction xs as [|x xs IH]; intros err Hf; simpl; [apply pres_returnErr|].
  apply pres_bind; [apply pres_attempt, Hf; now left|intros e].
  apply IH. intros; apply Hf; now right.
Qed.

End Pres.

(** *** Runs that return without an error *)

Lemma total_ret {A} (a : A) : total (ret a).
Proof. intros g. now exists a. Qed.

Lemma total_gets {A} (f : generator -> A) : total (gets f).
Proof. intros g. now eexists. Qed.

Lemma total_bind {A B} (m : M A) (f : A -> M B) :
  total m -> (forall a, total (f a)) -> total (bind m f).
Proof.
  intros Hm Hf g. unfold bind. destruct (Hm g) as [a Ha].
  destruct (m g) as [r g1]. simpl in Ha. subst r. apply Hf.
Qed.

Lemma total_Write (s : string) : total (Write s).
Proof. intros g. unfold Write, RangeWriter.Write. simpl. now eexists. Qed.

Lemma total_WriteIndent (level : nat) (s : string) : total (WriteIndent level s).
Proof.
  intros g. unfold WriteIndent, RangeWriter.WriteIndent, RangeWriter.Write. simpl.
  now eexists.
Qed.

Lemma total_WriteStringLiteral (level : nat) (s : string) :
  total (WriteStringLiteral level s).
Proof.
  intros g. unfold WriteStringLiteral, RangeWriter.WriteStringLiteral,
              RangeWriter.WriteIndent, RangeWriter.Write. simpl.
  now eexists.
Qed.

Lemma total_sourceMap_Add (src : Expression.t) (tgt : Range) :
  total (sourceMap_Add src tgt).
Proof. intros g. now eexists. Qed.

Lemma total_createVariableName : total createVariableName.
Proof. intros g. now eexists. Qed.

Lemma total_forEachUpdate {A} (f : A -> M A) (xs : list A) :
  (forall x, In x xs -> total (f x)) -> total (forEachUpdate f xs).
Proof.
  induction xs as [|x xs IH]; intros Hf; simpl; [apply total_ret|].
  apply total_bind; [apply Hf; now left|intros x'].
  apply total_bind; [apply IH; intros; apply Hf; now right|intros r; apply total_ret].
Qed.

Lemma total_forEach {A} (f : A -> M unit) (xs : list A) :
  (forall x, total (f x)) -> total (forEach f xs).
Proof.
  intros Hf. induction xs as [|x xs IH]; simpl; [apply total_ret|].
  apply total_bind; auto.
Qed.

Lemma attempt_total {A} (m : M A) (g : generator) :
  total m -> attempt m g = (Ok None, snd (m g)).
Proof.
  intros Hm. unfold attempt. destruct (Hm g) as [a Ha].
  destruct (m g) as [r g1]. simpl in *. now subst r.
Qed.

Lemma total_forEachKeepLast {A} (f : A -> M unit) (xs : list A) :
  (forall x, In x xs -> total (f x)) -> total (forEachKeepLast f xs None).
Proof.
  induction xs as [|x xs IH]; intros Hf; simpl; [apply total_ret|].
  intros g. unfold bind. rewrite attempt_total by (apply Hf; now left).
  apply IH. intros; apply Hf; now right.
Qed.

Create HintDb pres discriminated.

#[local] Hint Resolve pres_ret pres_raise pres_gets pres_returnErr pres_Write
  pres_WriteIndent pres_sourceMap_Add pres_createVariableName pres_set_childrenVar
  : pres.

Create HintDb total discriminated.

#[local] Hint Resolve total_ret total_gets total_Write total_WriteIndent
  total_WriteStringLiteral total_sourceMap_Add total_createVariableName : total.

(** One step of a proof that a method only extends the generator: split a
    sequence, or decide a test. *)
Ltac pres_step :=
  match goal with
  | |- pres _ (bind _ _) => apply pres_bind; [|intros ?]
  | |- pres _ (attempt _) => apply pres_attempt
  | |- pres _ (forEach _ _) => apply pres_forEach; intros ?
  | |- pres _ (if ?b then _ else _) => destruct b
  | |- pres _ (match ?x with _ => _ end) => destruct x
  | |- pres _ (WriteStringLiteral _ _) =>
      apply pres_WriteStringLiteral; first [exact I | reflexivity | idtac]
  | |- pres _ _ => solve [eauto with pres]
  end.

Ltac pres_tac := repeat pres_step.

Ltac total_step :=
  match goal with
  | |- total (bind _ _) => apply total_bind; [|intros ?]
  | |- total (forEach _ _) => apply total_forEach; intros ?
  | |- total (if ?b then _ else _) => destruct b
  | |- total (match ?x with _ => _ end) => destruct x
  | |- total _ => solve [eauto with total]
  end.

Ltac total_tac := repeat total_step.


(** *** Induction over attributes, which nest through conditional attributes *)

Lemma Attribute_ind_nested (Q : Attribute -> Prop) :
  (forall a, Q (ABoolConstant a)) ->
  (forall a, Q (AConstant a)) ->
  (forall a, Q (ABoolExpression a)) ->
  (forall a, Q (AExpression a)) ->
  (forall a, Q (ASpread a)) ->
  (forall c,
      Forall Q (ConditionalAttribute.Then c) ->
      Forall Q (ConditionalAttribute.Else c) ->
      Q (AConditional c)) ->
  forall a, Q a.
Proof.
  intros H1 H2 H3 H4 H5 H6.
  fix IH 1.
  intros [a|a|a|a|a|[e thn els]];
    [apply H1|apply H2|apply H3|apply H4|apply H5|].
  apply H6; simpl.
  - revert thn. fix IHl 1. intros [|x l]; constructor; [apply IH|apply IHl].
  - revert els. fix IHl 1. intros [|x l]; constructor; [apply IH|apply IHl].
Qed.

(** *** The writers of code *)

Section PresCode.

Variable P : string -> Prop.

Lemma pres_writeErrorHandler lvl : pres P (writeErrorHandler lvl).
Proof. unfold writeErrorHandler. pres_tac. Qed.

Lemma pres_writeExpressionErrorHandler lvl e :
  pres P (writeExpressionErrorHandler lvl e).
Proof. unfold writeExpressionErrorHandler. pres_tac. Qed.

Lemma pres_writeTemplBuffer lvl : pres P (writeTemplBuffer lvl).
Proof. unfold writeTemplBuffer. pres_tac. Qed.

Hint Resolve pres_writeErrorHandler pres_writeExpressionErrorHandler
  pres_writeTemplBuffer : pres.

Lemma pres_writeChildrenExpression lvl : pres P (writeChildrenExpression lvl).
Proof. unfold writeChildrenExpression. pres_tac. Qed.

Lemma pres_writeSelfClosingTemplElementExpression lvl n :
  pres P (writeSelfClosingTemplElementExpression lvl n).
Proof. unfold writeSelfClosingTemplElementExpression. pres_tac. Qed.

Lemma pres_writeCallTemplateExpression lvl n :
  pres P (writeCallTemplateExpression lvl n).
Proof. unfold writeCallTemplateExpression. pres_tac. Qed.

Lemma pres_writeGoCode lvl e : pres P (writeGoCode lvl e).
Proof. unfold writeGoCode. pres_tac. Qed.

Lemma pres_writeStringExpression lvl e : pres P (writeStringExpression lvl e).
Proof. unfold writeStringExpression. pres_tac. Qed.

Lemma pres_writeCSSProperty lvl p : pres P (writeCSSProperty lvl p).
Proof. unfold writeCSSProperty. pres_tac. Qed.

Lemma pres_writeAttributeCSS lvl a : pres P (writeAttributeCSS lvl a).
Proof. unfold writeAttributeCSS. pres_tac. Qed.

Lemma pres_writeAttributesCSS_attr lvl a : pres P (writeAttributesCSS_attr lvl a).
Proof.
  induction a as [a|a|a|a|a|c IHt IHe] using Attribute_ind_nested;
    cbn [writeAttributesCSS_attr]; try apply pres_ret.
  - apply pres_bind; [apply pres_writeAttributeCSS|intros r; apply pres_ret].
  - apply pres_bind; [|intros thn].
    { apply pres_forEachUpdate. intros x Hx. rewrite Forall_forall in IHt. auto. }
    apply pres_bind; [|intros els; apply pres_ret].
    apply pres_forEachUpdate. intros x Hx. rewrite Forall_forall in IHe. auto.
Qed.

Lemma pres_writeAttributesCSS lvl attrs : pres P (writeAttributesCSS lvl attrs).
Proof.
  unfold writeAttributesCSS. apply pres_forEachUpdate.
  intros x _. apply pres_writeAttributesCSS_attr.
Qed.

Lemma pres_writeElementCSS lvl attrs : pres P (writeElementCSS lvl attrs).
Proof. apply pres_writeAttributesCSS. Qed.

Lemma pres_writeElementScript lvl attrs : pres P (writeElementScript lvl attrs).
Proof. unfold writeElementScript. pres_tac. Qed.

Lemma pres_writeExpressionAttributeValueURL lvl a :
  pres P (writeExpressionAttributeValueURL lvl a).
Proof. unfold writeExpressionAttributeValueURL. pres_tac. Qed.

Lemma pres_writeExpressionAttributeValueScript lvl a :
  pres P (writeExpressionAttributeValueScript lvl a).
Proof. unfold writeExpressionAttributeValueScript. pres_tac. Qed.

Lemma pres_writeExpressionAttributeValueDefault lvl a :
  pres P (writeExpressionAttributeValueDefault lvl a).
Proof. unfold writeExpressionAttributeValueDefault. pres_tac. Qed.

Lemma pres_writeExpressionAttributeValueStyle lvl a :
  pres P (writeExpressionAttributeValueStyle lvl a).
Proof. unfold writeExpressionAttributeValueStyle. pres_tac. Qed.

Lemma pres_writeSpreadAttributes lvl a : pres P (writeSpreadAttributes lvl a).
Proof. unfold writeSpreadAttributes. pres_tac. Qed.

End PresCode.

#[local] Hint Resolve pres_writeErrorHandler pres_writeExpressionErrorHandler
  pres_writeTemplBuffer pres_writeChildrenExpression
  pres_writeSelfClosingTemplElementExpression pres_writeCallTemplateExpression
  pres_writeGoCode pres_writeStringExpression pres_writeCSSProperty
  pres_writeAttributeCSS pres_writeAttributesCSS pres_writeElementCSS
  pres_writeElementScript pres_writeExpressionAttributeValueURL
  pres_writeExpressionAttributeValueScript pres_writeExpressionAttributeValueDefault
  pres_writeExpressionAttributeValueStyle pres_writeSpreadAttributes : pres.

(** *** The writers of attributes: no literal opens a closing tag *)

Lemma quoteBody_printable (c : ascii) (t : string) :
  (32 <=? byteZ c) && (byteZ c <=? 126) = true ->
  byteZ c <> 34 -> byteZ c <> 92 ->
  strconv.quoteBody isPrintWide 0 (String c t)
  = String c (strconv.quoteBody isPrintWide 0 t).
Proof.
  intros Hp Hq Hb.
  assert (Hc : (byteZ c <? 128) = true).
  { apply andb_true_iff in Hp as [_ Hp]. apply Z.leb_le in Hp. apply Z.ltb_lt. lia. }
  cbn [strconv.quoteBody].
  assert (Hself : (utf8.RuneSelf <=? byteZ c) = false).
  { unfold utf8.RuneSelf. apply Z.ltb_lt in Hc. apply Z.leb_gt. exact Hc. }
  rewrite Hself. cbn [Nat.eqb Nat.pred andb].
  assert (Herr : (byteZ c =? utf8.RuneError) = false).
  { unfold utf8.RuneError. apply Z.ltb_lt in Hc. apply Z.eqb_neq. lia. }
  rewrite Herr, appendEscapedRune_ascii by exact Hc.
  unfold goEscapeByte. cbv zeta.
  apply Z.eqb_neq in Hq, Hb. rewrite Hq, Hb, Hp. reflexivity.
Qed.

Lemma noClose_escapeQuotes_eq (s : string) : noClose (escapeQuotes ("=" ++ s)).
Proof.
  unfold noClose. rewrite escapeQuotes_body. cbn [append].
  rewrite quoteBody_printable by (vm_compute; congruence). reflexivity.
Qed.

Lemma pres_writeAttributeKey lvl k : pres noClose (writeAttributeKey lvl k).
Proof. unfold writeAttributeKey. pres_tac. Qed.

#[local] Hint Resolve pres_writeAttributeKey : pres.

Lemma pres_writeBoolConstantAttribute lvl a :
  pres noClose (writeBoolConstantAttribute lvl a).
Proof. unfold writeBoolConstantAttribute. pres_tac. Qed.

Lemma pres_writeConstantAttribute lvl a :
  pres noClose (writeConstantAttribute lvl a).
Proof.
  unfold writeConstantAttribute. pres_tac. apply noClose_escapeQuotes_eq.
Qed.

Lemma pres_writeBoolExpressionAttribute lvl a :
  pres noClose (writeBoolExpressionAttribute lvl a).
Proof. unfold writeBoolExpressionAttribute. pres_tac. Qed.

Lemma pres_writeExpressionAttribute lvl name a :
  pres noClose (writeExpressionAttribute lvl name a).
Proof. unfold writeExpressionAttribute. pres_tac. Qed.

Lemma pres_writeConditionalAttribute rec lvl name c :
  (forall l n, pres noClose (rec l n (ConditionalAttribute.Then c))) ->
  (forall l n, pres noClose (rec l n (ConditionalAttribute.Else c))) ->
  pres noClose (writeConditionalAttribute rec lvl name c).
Proof. intros Ht He. unfold writeConditionalAttribute. pres_tac; auto. Qed.

Lemma pres_writeElementAttributes_attr lvl name a :
  pres noClose (writeElementAttributes_attr lvl name a).
Proof.
  revert lvl name.
  induction a as [a|a|a|a|a|c IHt IHe] using Attribute_ind_nested; intros lvl name;
    cbn [writeElementAttributes_attr].
  - apply pres_writeBoolConstantAttribute.
  - apply pres_writeConstantAttribute.
  - apply pres_writeBoolExpressionAttribute.
  - apply pres_writeExpressionAttribute.
  - apply pres_writeSpreadAttributes.
  - apply pres_writeConditionalAttribute; intros l n; apply pres_forEachKeepLast;
      intros x Hx; [rewrite Forall_forall in IHt|rewrite Forall_forall in IHe]; auto.
Qed.

Lemma pres_writeElementAttributes lvl name attrs :
  pres noClose (writeElementAttributes lvl name attrs).
Proof.
  unfold writeElementAttributes. apply pres_forEachKeepLast.
  intros x _. apply pres_writeElementAttributes_attr.
Qed.


(** *** The writers of attributes return without an error *)

Lemma total_writeErrorHandler lvl : total (writeErrorHandler lvl).
Proof. unfold writeErrorHandler. total_tac. Qed.

Lemma total_writeExpressionErrorHandler lvl e :
  total (writeExpressionErrorHandler lvl e).
Proof. unfold writeExpressionErrorHandler. total_tac. Qed.

#[local] Hint Resolve total_writeErrorHandler total_writeExpressionErrorHandler : total.

Lemma total_writeAttributeCSS lvl a : total (writeAttributeCSS lvl a).
Proof. unfold writeAttributeCSS. total_tac. Qed.

Lemma total_writeAttributesCSS_attr lvl a : total (writeAttributesCSS_attr lvl a).
Proof.
  induction a as [a|a|a|a|a|c IHt IHe] using Attribute_ind_nested;
    cbn [writeAttributesCSS_attr]; try apply total_ret.
  - apply total_bind; [apply total_writeAttributeCSS|intros r; apply total_ret].
  - apply total_bind; [|intros thn].
    { apply total_forEachUpdate. intros x Hx. rewrite Forall_forall in IHt. auto. }
    apply total_bind; [|intros els; apply total_ret].
    apply total_forEachUpdate. intros x Hx. rewrite Forall_forall in IHe. auto.
Qed.

Lemma total_writeElementCSS lvl attrs : total (writeElementCSS lvl attrs).
Proof.
  unfold writeElementCSS, writeAttributesCSS. apply total_forEachUpdate.
  intros x _. apply total_writeAttributesCSS_attr.
Qed.

Lemma total_writeElementScript lvl attrs : total (writeElementScript lvl attrs).
Proof. unfold writeElementScript. total_tac. Qed.

Lemma total_writeAttributeKey lvl k : total (writeAttributeKey lvl k).
Proof. unfold writeAttributeKey. total_tac. Qed.

#[local] Hint Resolve total_writeAttributeKey : total.

Lemma total_writeConstantAttribute lvl a : total (writeConstantAttribute lvl a).
Proof. unfold writeConstantAttribute. total_tac. Qed.

Lemma total_writeBoolExpressionAttribute lvl a :
  total (writeBoolExpressionAttribute lvl a).
Proof. unfold writeBoolExpressionAttribute. total_tac. Qed.

Lemma total_writeExpressionAttributeValueURL lvl a :
  total (writeExpressionAttributeValueURL lvl a).
Proof. unfold writeExpressionAttributeValueURL. total_tac. Qed.

Lemma total_writeExpressionAttributeValueScript lvl a :
  total (writeExpressionAttributeValueScript lvl a).
Proof. unfold writeExpressionAttributeValueScript. total_tac. Qed.

Lemma total_writeExpressionAttributeValueDefault lvl a :
  total (writeExpressionAttributeValueDefault lvl a).
Proof. unfold writeExpressionAttributeValueDefault. total_tac. Qed.

Lemma total_writeExpressionAttributeValueStyle lvl a :
  total (writeExpressionAttributeValueStyle lvl a).
Proof. unfold writeExpressionAttributeValueStyle. total_tac. Qed.

#[local] Hint Resolve total_writeExpressionAttributeValueURL
  total_writeExpressionAttributeValueScript total_writeExpressionAttributeValueDefault
  total_writeExpressionAttributeValueStyle : total.

Lemma total_writeExpressionAttribute lvl name a :
  total (writeExpressionAttribute lvl name a).
Proof. unfold writeExpressionAttribute. total_tac. Qed.

Lemma total_writeSpreadAttributes lvl a : total (writeSpreadAttributes lvl a).
Proof. unfold writeSpreadAttributes. total_tac. Qed.

Lemma total_writeConditionalAttribute rec lvl name c :
  (forall l n, total (rec l n (ConditionalAttribute.Then c))) ->
  (forall l n, total (rec l n (ConditionalAttribute.Else c))) ->
  total (writeConditionalAttribute rec lvl name c).
Proof. intros Ht He. unfold writeConditionalAttribute. total_tac; auto. Qed.

Lemma total_writeElementAttributes_attr lvl name a :
  total (writeElementAttributes_attr lvl name a).
Proof.
  revert lvl name.
  induction a as [a|a|a|a|a|c IHt IHe] using Attribute_ind_nested; intros lvl name;
    cbn [writeElementAttributes_attr].
  - apply total_writeAttributeKey.
  - apply total_writeConstantAttribute.
  - apply total_writeBoolExpressionAttribute.
  - apply total_writeExpressionAttribute.
  - apply total_writeSpreadAttributes.
  - apply total_writeConditionalAttribute; intros l n; apply total_forEachKeepLast;
      intros x Hx; [rewrite Forall_forall in IHt|rewrite Forall_forall in IHe]; auto.
Qed.

Lemma total_writeElementAttributes lvl name attrs :
  total (writeElementAttributes lvl name attrs).
Proof.
  unfold writeElementAttributes. apply total_forEachKeepLast.
  intros x _. apply total_writeElementAttributes_attr.
Qed.

(** *** The writers of nodes *)

Lemma pres_any_writeElementAttributes lvl name attrs :
  pres anyLiteral (writeElementAttributes lvl name attrs).
Proof. eapply pres_any, pres_writeElementAttributes. Qed.

#[local] Hint Resolve pres_any_writeElementAttributes : pres.

Lemma pres_writeWhitespaceTrailer lvl n : pres anyLiteral (writeWhitespaceTrailer lvl n).
Proof. unfold writeWhitespaceTrailer. pres_tac. Qed.

Lemma pres_writeDocType lvl n : pres anyLiteral (writeDocType lvl n).
Proof. unfold writeDocType. pres_tac. Qed.

Lemma pres_writeWhitespace lvl n : pres anyLiteral (writeWhitespace lvl n).
Proof. unfold writeWhitespace. pres_tac. Qed.

Lemma pres_writeText lvl n : pres anyLiteral (writeText lvl n).
Proof. unfold writeText. pres_tac. Qed.

#[local] Hint Resolve pres_writeWhitespaceTrailer pres_writeDocType pres_writeWhitespace
  pres_writeText : pres.

Lemma pres_writeComment lvl n : pres anyLiteral (writeComment lvl n).
Proof. unfold writeComment. pres_tac. Qed.

Lemma pres_writeScriptContents lvl c : pres anyLiteral (writeScriptContents lvl c).
Proof. unfold writeScriptContents. pres_tac. Qed.

#[local] Hint Resolve pres_writeComment pres_writeScriptContents : pres.

Lemma pres_writeRawElement lvl n : pres anyLiteral (writeRawElement lvl n).
Proof. unfold writeRawElement. pres_tac. Qed.

Lemma pres_writeScriptElement lvl n : pres anyLiteral (writeScriptElement lvl n).
Proof. unfold writeScriptElement. pres_tac. Qed.

#[local] Hint Resolve pres_writeRawElement pres_writeScriptElement : pres.

Section PresVisitor.

Variable rec : nat -> Node -> option Node -> M unit.
Hypothesis pres_rec : forall lvl n next, pres anyLiteral (rec lvl n next).

Lemma pres_writeNodes lvl nodes next : pres anyLiteral (writeNodes rec lvl nodes next).
Proof.
  induction nodes as [|n nodes IH]; cbn [writeNodes]; [apply pres_ret|].
  apply pres_bind; [apply pres_rec|intros _; exact IH].
Qed.

Hint Resolve pres_writeNodes : pres.

Lemma pres_writeElseIf lvl next e : pres anyLiteral (writeElseIf rec lvl next e).
Proof. unfold writeElseIf. pres_tac. Qed.

Lemma pres_writeCase lvl next c : pres anyLiteral (writeCase rec lvl next c).
Proof. unfold writeCase. pres_tac. Qed.

Hint Resolve pres_writeElseIf pres_writeCase : pres.

Lemma pres_writeIfExpression lvl n next :
  pres anyLiteral (writeIfExpression rec lvl n next).
Proof. unfold writeIfExpression. pres_tac. Qed.

Lemma pres_writeSwitchExpression lvl n next :
  pres anyLiteral (writeSwitchExpression rec lvl n next).
Proof. unfold writeSwitchExpression. pres_tac. Qed.

Lemma pres_writeBlockTemplElementExpression lvl n :
  pres anyLiteral (writeBlockTemplElementExpression rec lvl n).
Proof. unfold writeBlockTemplElementExpression. pres_tac. Qed.

Hint Resolve pres_writeBlockTemplElementExpression : pres.

Lemma pres_writeTemplElementExpression lvl n :
  pres anyLiteral (writeTemplElementExpression rec lvl n).
Proof. unfold writeTemplElementExpression. pres_tac. Qed.

Lemma pres_writeForExpression lvl n next :
  pres anyLiteral (writeForExpression rec lvl n next).
Proof. unfold writeForExpression. pres_tac. Qed.

Lemma pres_writeElement lvl n : pres anyLiteral (writeElement rec lvl n).
Proof. unfold writeElement. pres_tac. Qed.

Hint Resolve pres_writeIfExpression pres_writeSwitchExpression
  pres_writeTemplElementExpression pres_writeForExpression pres_writeElement : pres.

Lemma pres_writeNode_switch lvl current next :
  pres anyLiteral (writeNode_switch rec lvl current next).
Proof. unfold writeNode_switch. destruct current; eauto with pres. Qed.

Lemma pres_writeNode lvl current next :
  pres anyLiteral (writeNode rec lvl current next).
Proof.
  unfold writeNode.
  destruct current;
    lazymatch goal with
    | |- pres _ (ret _) => apply pres_ret
    | |- _ =>
      apply pres_bind; [apply pres_attempt, pres_writeNode_switch|intros err];
      cbn [Trailing]; pres_tac
    end.
Qed.

End PresVisitor.

Lemma pres_writeNodeFuel fuel :
  forall lvl current next, pres anyLiteral (writeNodeFuel fuel lvl current next).
Proof.
  induction fuel as [|fuel IH]; intros lvl current next.
  - intros g. apply ext_refl.
  - cbn [writeNodeFuel]. apply pres_writeNode. exact IH.
Qed.

#[local] Hint Resolve total_writeElementCSS total_writeElementScript
  total_writeElementAttributes : total.


(** ** Stepping through a method *)

Lemma bind_step {A B} (P : string -> Prop) (m : M A) (f : A -> M B) (g : generator) :
  total m -> pres P m ->
  exists a g1 txt ls,
    m g = (Ok a, g1) /\ bind m f g = f a g1 /\ delta g g1 txt ls [] /\ Forall P ls.
Proof.
  intros Ht Hp. destruct (Ht g) as [a Ha]. destruct (Hp g) as (txt & ls & D & F).
  unfold bind. destruct (m g) as [r g1]. simpl in *. subst r.
  exists a, g1, txt, ls. auto.
Qed.

Lemma Forall_False_nil {A} (l : list A) : Forall (fun _ => False) l -> l = [].
Proof. destruct l; [reflexivity|]. intros H. inversion H; contradiction. Qed.

Lemma lits_WriteStringLiteral lvl s g :
  lits (snd (WriteStringLiteral lvl s g)) = (lits g ++ [s])%list.
Proof. reflexivity. Qed.

Lemma run_WriteStringLiteral lvl s g :
  exists r, WriteStringLiteral lvl s g = (Ok r, snd (WriteStringLiteral lvl s g)).
Proof. eexists. reflexivity. Qed.

(** ** Raw elements *)

Lemma writeText_run lvl n g :
  exists g1,
    writeText lvl n g = (Ok tt, g1)
    /\ delta g g1 (strings.Repeat tab lvl
                     ++ RangeWriter.literalStatement (escapeQuotes (Text.Value n)))
         [escapeQuotes (Text.Value n)] [].
Proof.
  eexists. split; [reflexivity|].
  apply (delta_WriteStringLiteral lvl (escapeQuotes (Text.Value n)) g).
Qed.

Lemma writeRawElement_literals lvl n g :
  exists pre,
    fst (writeRawElement lvl n g) = Ok tt
    /\ lits (snd (writeRawElement lvl n g))
       = (lits g ++ pre
            ++ [escapeQuotes (RawElement.Contents n);
                ("</" ++ html.EscapeString (RawElement.Name n) ++ ">")%string])%list.
Proof.
  unfold writeRawElement.
  match goal with
  | |- context [bind ?m ?f g] =>
    destruct (bind_step anyLiteral m f g) as (a & g1 & txt & ls & Hm & Hb & D & _)
  end.
  - total_tac.
  - pres_tac.
  - exists ls. rewrite Hb. cbn. unfold lits in *. cbn.
    destruct D as [_ _ _ _ Dl _]. unfold lits in Dl. rewrite Dl.
    split; [reflexivity|]. now rewrite <- !app_assoc.
Qed.

(** C9, as the code has it.  The contents of a [RawElement] are emitted as
    one literal, between the literals of the open tag and the closing tag.
    The literal is the Go-quoted form of the contents; on ASCII contents that
    is: a backslash before each double quote and each backslash, an escape
    sequence for each control character, and every other character, the
    single quote among them, unchanged. *)
Theorem writeRawElement_contents_go_quoted lvl (n : RawElement.t) (g : generator) :
  exists pre,
    fst (writeRawElement lvl n g) = Ok tt
    /\ lits (snd (writeRawElement lvl n g))
       = (lits g ++ pre
            ++ [escapeQuotes (RawElement.Contents n);
                ("</" ++ html.EscapeString (RawElement.Name n) ++ ">")%string])%list
    /\ (isASCII (RawElement.Contents n) = true ->
        escapeQuotes (RawElement.Contents n) = goEscapeASCII (RawElement.Contents n)).
Proof.
  destruct (writeRawElement_literals lvl n g) as (pre & H1 & H2).
  exists pre. repeat split; auto. apply escapeQuotes_ascii.
Qed.

(** ** Blank expressions *)

Lemma writeWhitespaceTrailer_unit lvl ts g :
  bind (writeWhitespaceTrailer lvl ts) (fun _ => returnErr None) g
  = writeWhitespaceTrailer lvl ts g.
Proof. unfold writeWhitespaceTrailer. destruct ts; reflexivity. Qed.

(** C10, as the code has it.  For an expression text that is empty or only
    white space, [writeStringExpression] and [writeGoCode] return with the
    generator unchanged, and so does [writeNode] on a [GoCode] node; on a
    [StringExpression] node [writeNode] still writes the node's trailing
    space when the next node is inline-or-text, and nothing else. *)
Theorem blank_expression_writes_nothing rec lvl (e : Expression.t) (g : generator) :
  onlyWhitespace (Expression.Value e) = true ->
  writeStringExpression lvl e g = (Ok tt, g)
  /\ writeGoCode lvl e g = (Ok tt, g)
  /\ (forall ts next,
         writeNode rec lvl (NGoCode (GoCode.mk e ts)) next g = (Ok tt, g))
  /\ (forall ts next,
         writeNode rec lvl (NStringExpression (StringExpression.mk e ts)) next g
         = if isInlineOrText next then writeWhitespaceTrailer lvl ts g else (Ok tt, g)).
Proof.
  intros H. apply TrimSpace_onlyWhitespace in H.
  assert (Hs : writeStringExpression lvl e g = (Ok tt, g)).
  { unfold writeStringExpression. now rewrite H. }
  assert (Hc : writeGoCode lvl e g = (Ok tt, g)).
  { unfold writeGoCode. now rewrite H. }
  repeat split; auto.
  - intros ts next. unfold writeNode, bind, attempt.
    cbn [writeNode_switch GoCode.Expression]. rewrite Hc. reflexivity.
  - intros ts next. unfold writeNode. unfold bind at 1. unfold attempt.
    cbn [writeNode_switch StringExpression.Expression]. rewrite Hs.
    cbn [Trailing StringExpression.TrailingSpace isInlineOrText andb].
    destruct (isInlineOrText next); [apply writeWhitespaceTrailer_unit|reflexivity].
Qed.

(** ** Whitespace literals *)

Lemma escapeQuotes_space : escapeQuotes " " = " ".
Proof. rewrite escapeQuotes_ascii by reflexivity. reflexivity. Qed.

Lemma escapeQuotes_nl : escapeQuotes nl = "\n".
Proof. rewrite escapeQuotes_ascii by reflexivity. reflexivity. Qed.

(** C5, as the code has it.  A [Whitespace] node with a value is emitted as
    the literal of one space, and so is the trailing space of a node in
    [writeNode], where a vertical marker is normalized to a horizontal one.
    The trailing space of a Go expression among the contents of a script
    element is not normalized: it goes through [writeText], which emits one
    space for a horizontal marker and the escaped newline for a vertical
    one. *)
Theorem whitespace_literals lvl (g : generator) :
  (forall n,
      lits (snd (writeWhitespace lvl n g))
      = (lits g ++ if (String.length (Whitespace.Value n) =? 0)%nat then [] else [" "])%list)
  /\ (forall ts,
         lits (snd (writeWhitespaceTrailer lvl ts g))
         = (lits g ++ match ts with SpaceNone => [] | _ => [" "] end)%list)
  /\ (forall e ts inside,
         lits (snd (writeScriptContents lvl
                      (ScriptContents.mk None (Some (GoCode.mk e ts)) inside) g))
         = (lits g ++ match ts with
                      | SpaceNone => []
                      | SpaceHorizontal => [" "]
                      | SpaceVertical => ["\n"]
                      end)%list).
Proof.
  repeat split.
  - intros n. unfold writeWhitespace.
    destruct (String.length (Whitespace.Value n) =? 0)%nat; cbn; unfold lits; cbn;
      [now rewrite app_nil_r|reflexivity].
  - intros ts. unfold writeWhitespaceTrailer.
    destruct ts; cbn; unfold lits; cbn; [now rewrite app_nil_r|reflexivity|reflexivity].
  - intros e ts inside. unfold writeScriptContents.
    cbn [ScriptContents.Value ScriptContents.GoCode GoCode.Expression GoCode.TrailingSpace].
    destruct ts; cbn; unfold lits; cbn;
      rewrite ?escapeQuotes_space, ?escapeQuotes_nl, ?app_nil_r; reflexivity.
Qed.


(** ** Running a method step by step

    Each primitive returns [Ok] with a known value, and what it adds is
    known; [run_step] rewrites the first step of a sequence by these
    equations and records what the step added. *)

Lemma bind_ok {A B} (m : M A) (f : A -> M B) (g g1 : generator) (a : A) :
  m g = (Ok a, g1) -> bind m f g = f a g1.
Proof. intros H. unfold bind. now rewrite H. Qed.

Lemma bind_fst_ok {A B} (m : M A) (f : A -> M B) (g : generator) (b : B) :
  fst (bind m f g) = Ok b -> exists a, m g = (Ok a, snd (m g)).
Proof.
  unfold bind. destruct (m g) as [[a|e|] g1]; cbn [fst snd]; intros H;
    [exists a; reflexivity|discriminate|discriminate].
Qed.

Lemma bind_assoc {A B C} (m : M A) (f : A -> M B) (h : B -> M C) (g : generator) :
  bind (bind m f) h g = bind m (fun a => bind (f a) h) g.
Proof. unfold bind. destruct (m g) as [[a|e|] g1]; reflexivity. Qed.

Lemma run_total {A} (m : M A) (g : generator) :
  total m -> exists a, m g = (Ok a, snd (m g)).
Proof.
  intros H. destruct (H g) as [a Ha]. exists a.
  destruct (m g) as [r g1]. simpl in *. now subst.
Qed.

Lemma run_total_unit (m : M unit) (g : generator) :
  total m -> m g = (Ok tt, snd (m g)).
Proof. intros H. destruct (run_total m g H) as [[] Ha]. exact Ha. Qed.

Lemma run_Write s g :
  Write s g = (Ok (mkRange (cur g) (cur (snd (Write s g)))), snd (Write s g)).
Proof. reflexivity. Qed.

Lemma run_WriteIndent lvl s g :
  WriteIndent lvl s g
  = (Ok (mkRange (cur g) (cur (snd (WriteIndent lvl s g)))), snd (WriteIndent lvl s g)).
Proof. reflexivity. Qed.

Lemma run_WriteStringLiteral' lvl s g :
  WriteStringLiteral lvl s g
  = (Ok (mkRange (cur g) (cur (snd (WriteStringLiteral lvl s g)))),
     snd (WriteStringLiteral lvl s g)).
Proof. reflexivity. Qed.

Lemma run_sourceMap_Add src tgt g :
  sourceMap_Add src tgt g = (Ok tt, snd (sourceMap_Add src tgt g)).
Proof. reflexivity. Qed.

Lemma delta_sourceMap_Add src tgt g : delta g (snd (sourceMap_Add src tgt g)) "" [] [].
Proof.
  unfold sourceMap_Add. simpl.
  constructor; try reflexivity; unfold out, lits, syms; simpl;
    rewrite ?sapp_nil_r, ?app_nil_r; reflexivity.
Qed.

Lemma run_sourceMap_AddSymbolRange src tgt g :
  sourceMap_AddSymbolRange src tgt g = (Ok tt, snd (sourceMap_AddSymbolRange src tgt g)).
Proof. reflexivity. Qed.

Lemma delta_sourceMap_AddSymbolRange src tgt g :
  delta g (snd (sourceMap_AddSymbolRange src tgt g)) "" [] [(src, tgt)].
Proof.
  unfold sourceMap_AddSymbolRange. simpl.
  constructor; try reflexivity; unfold out, lits, syms; simpl;
    rewrite ?sapp_nil_r, ?app_nil_r; reflexivity.
Qed.

Lemma run_createVariableName g :
  createVariableName g = (Ok (nextVariableName g), snd (createVariableName g)).
Proof. reflexivity. Qed.

Lemma delta_createVariableName g : delta g (snd (createVariableName g)) "" [] [].
Proof.
  unfold createVariableName. simpl.
  constructor; try reflexivity; unfold out, lits, syms; simpl;
    rewrite ?sapp_nil_r, ?app_nil_r; reflexivity.
Qed.

Lemma run_set_childrenVar v g :
  set_childrenVar v g = (Ok tt, snd (set_childrenVar v g)).
Proof. reflexivity. Qed.

Lemma delta_set_childrenVar v g : delta g (snd (set_childrenVar v g)) "" [] [].
Proof.
  unfold set_childrenVar. simpl.
  constructor; try reflexivity; unfold out, lits, syms; simpl;
    rewrite ?sapp_nil_r, ?app_nil_r; reflexivity.
Qed.

Lemma run_gets {A} (f : generator -> A) g : gets f g = (Ok (f g), g).
Proof. reflexivity. Qed.

Lemma run_ret {A} (a : A) g : ret a g = (Ok a, g).
Proof. reflexivity. Qed.

(** The first step of the sequence in the goal or in [H], a primitive:
    rewrite it, name the generator it leaves, and record its [delta]. *)
Ltac run_prim m g k :=
  lazymatch m with
  | Write ?s =>
    let D := fresh "D" in let g1 := fresh "g" in
    pose proof (delta_Write s g) as D;
    k (run_Write s g); set (g1 := snd (Write s g)) in *; clearbody g1
  | WriteIndent ?l ?s =>
    let D := fresh "D" in let g1 := fresh "g" in
    pose proof (delta_WriteIndent l s g) as D;
    k (run_WriteIndent l s g); set (g1 := snd (WriteIndent l s g)) in *; clearbody g1
  | WriteStringLiteral ?l ?s =>
    let D := fresh "D" in let g1 := fresh "g" in
    pose proof (delta_WriteStringLiteral l s g) as D;
    k (run_WriteStringLiteral' l s g); set (g1 := snd (WriteStringLiteral l s g)) in *; clearbody g1
  | sourceMap_Add ?e ?r =>
    let D := fresh "D" in let g1 := fresh "g" in
    pose proof (delta_sourceMap_Add e r g) as D;
    k (run_sourceMap_Add e r g); set (g1 := snd (sourceMap_Add e r g)) in *; clearbody g1
  | sourceMap_AddSymbolRange ?a ?b =>
    let D := fresh "D" in let g1 := fresh "g" in
    pose proof (delta_sourceMap_AddSymbolRange a b g) as D;
    k (run_sourceMap_AddSymbolRange a b g);
    set (g1 := snd (sourceMap_AddSymbolRange a b g)) in *; clearbody g1
  | createVariableName =>
    let D := fresh "D" in let g1 := fresh "g" in
    pose proof (delta_createVariableName g) as D;
    k (run_createVariableName g); set (g1 := snd (createVariableName g)) in *; clearbody g1
  | set_childrenVar ?v =>
    let D := fresh "D" in let g1 := fresh "g" in
    pose proof (delta_set_childrenVar v g) as D;
    k (run_set_childrenVar v g); set (g1 := snd (set_childrenVar v g)) in *; clearbody g1
  | gets ?f => k (run_gets f g)
  | ret ?a => k (run_ret a g)
  end.

Ltac run_step :=
  lazymatch goal with
  | |- context [bind (bind ?m ?f) ?h ?g] => rewrite (bind_assoc m f h g)
  | |- context [bind ?m ?f ?g] =>
    run_prim m g ltac:(fun E => rewrite (bind_ok m f g _ _ E)); cbv beta
  end.

Ltac run_step_in H :=
  lazymatch type of H with
  | context [bind (bind ?m ?f) ?h ?g] => rewrite (bind_assoc m f h g) in H
  | context [bind ?m ?f ?g] =>
    run_prim m g ltac:(fun E => rewrite (bind_ok m f g _ _ E) in H); cbv beta in H
  end.

(** Compose the recorded [delta]s from the first generator to the last. *)
Ltac delta_chain :=
  lazymatch goal with
  | |- delta ?a ?a _ _ _ => apply delta_refl
  | |- _ => first [eapply delta_trans; [eassumption|delta_chain] | apply delta_refl]
  end.

Lemma delta_eq g g' t t' l l' s s' :
  delta g g' t l s -> t = t' -> l = l' -> s = s' -> delta g g' t' l' s'.
Proof. intros D <- <- <-. exact D. Qed.

(** The text of a sequence of writes, with its parentheses to the right. *)
Ltac text_eq := rewrite ?sapp_assoc, ?sapp_nil_r, ?sapp_nil_l; reflexivity.

Ltac delta_done :=
  eapply delta_eq; [delta_chain|try text_eq|try reflexivity|try reflexivity].

Lemma writeErrorHandler_text lvl g :
  delta g (snd (writeErrorHandler lvl g))
    (strings.Repeat tab lvl ++ "if templ_7745c5c3_Err != nil {" ++ nl
       ++ strings.Repeat tab (S lvl) ++ "return templ_7745c5c3_Err" ++ nl
       ++ strings.Repeat tab lvl ++ "}" ++ nl) [] [].
Proof.
  unfold writeErrorHandler. repeat run_step. cbn [ret snd]. delta_done.
Qed.

(** A step that is a method which writes code only and never fails. *)
Ltac run_code_in H m g :=
  let a := fresh "a" in let E := fresh "E" in
  let txt := fresh "txt" in let ls := fresh "ls" in
  let D := fresh "D" in let F := fresh "F" in let g1 := fresh "g" in
  let T := fresh "T" in let Q := fresh "Q" in
  assert (T : total m) by eauto with total;
  assert (Q : pres (fun _ => False) m) by eauto with pres;
  destruct (run_total m g T) as [a E];
  destruct (Q g) as (txt & ls & D & F);
  apply Forall_False_nil in F; subst ls;
  clear T Q;
  lazymatch type of H with
  | context [bind m ?f g] => rewrite (bind_ok m f g _ _ E) in H; cbv beta in H
  | context [m g] => rewrite E in H
  end;
  clear E; set (g1 := snd (m g)) in *; clearbody g1.

Ltac run_code m g :=
  let a := fresh "a" in let E := fresh "E" in
  let txt := fresh "txt" in let ls := fresh "ls" in
  let D := fresh "D" in let F := fresh "F" in let g1 := fresh "g" in
  let T := fresh "T" in let Q := fresh "Q" in
  assert (T : total m) by eauto with total;
  assert (Q : pres (fun _ => False) m) by eauto with pres;
  destruct (run_total m g T) as [a E];
  destruct (Q g) as (txt & ls & D & F);
  apply Forall_False_nil in F; subst ls;
  clear T Q;
  lazymatch goal with
  | |- context [bind m ?f g] => rewrite (bind_ok m f g _ _ E); cbv beta
  | |- context [m g] => rewrite E
  end;
  clear E; set (g1 := snd (m g)) in *; clearbody g1.

(** Run the whole sequence in the goal. *)
Ltac run :=
  repeat first
    [ run_step
    | lazymatch goal with
      | |- context [bind ?m ?f ?g] => run_code m g
      end ].

Ltac run_in H :=
  repeat first
    [ run_step_in H
    | lazymatch type of H with
      | context [bind ?m ?f ?g] => run_code_in H m g
      end ].


(** ** The trailing space of a node *)

Lemma isInlineOrText_spec (next : option Node) :
  isInlineOrText next = match next with Some n => inlineOrText n | None => false end.
Proof. destruct next as [[]|]; reflexivity. Qed.

Lemma writeNode_run rec lvl current next g :
  fst (writeNode_switch rec lvl current next g) <> OutOfFuel ->
  snd (writeNode rec lvl current next g)
  = if trailerDue current next
    then snd (WriteStringLiteral lvl " " (snd (writeNode_switch rec lvl current next g)))
    else snd (writeNode_switch rec lvl current next g).
Proof.
  intros Hfuel. unfold trailerDue, hasTrailingSpace.
  change (match next with Some n => inlineOrText n | None => false end)
    with ((fun o => match o with Some n => inlineOrText n | None => false end) next).
  cbv beta. rewrite <- isInlineOrText_spec.
  replace (inlineOrText current) with (isInlineOrText (Some current))
    by (destruct current; reflexivity).
  destruct current;
    lazymatch goal with
    | |- context [writeNode _ _ (NGoComment _)] =>
      unfold writeNode; cbn [Trailing]; reflexivity
    | |- _ =>
      unfold writeNode, bind, attempt;
      destruct (writeNode_switch rec lvl _ next g) as [[[]|e|] g1];
      cbn [fst snd] in *; try congruence;
      cbn [Trailing isInlineOrText andb];
      try reflexivity
    end.
  all: try (destruct (Element.TrailingSpace n), (negb (Element.IsBlockElement n)),
              (isInlineOrText next); reflexivity).
  all: try (destruct (StringExpression.TrailingSpace n), (isInlineOrText next);
            reflexivity).
  all: try (destruct (GoCode.TrailingSpace n); reflexivity).
  all: try (destruct (Text.TrailingSpace n), (isInlineOrText next); reflexivity).
Qed.

(** C3.  After the switch of [writeNode] has written a node, the literal of
    one space is emitted exactly when the node carries a trailing-space
    marker that is not none and the node and its next sibling are both
    inline-or-text; nothing else is added. *)
Theorem writeNode_trailing_space rec lvl (current : Node) (next : option Node)
  (g : generator) :
  fst (writeNode_switch rec lvl current next g) <> OutOfFuel ->
  let g1 := snd (writeNode_switch rec lvl current next g) in
  let g2 := snd (writeNode rec lvl current next g) in
  lits g2 = (lits g1 ++ if trailerDue current next then [" "] else [])%list
  /\ out g2
     = out g1 ++ (if trailerDue current next
                  then strings.Repeat tab lvl ++ RangeWriter.literalStatement " "
                  else "").
Proof.
  intros Hfuel g1 g2. subst g1 g2. rewrite writeNode_run by exact Hfuel.
  destruct (trailerDue current next).
  - split; reflexivity.
  - now rewrite app_nil_r, sapp_nil_r.
Qed.

(** ** The value of an expression attribute *)

Lemma isExpressionAttributeValueURL_spec (elementName key : string) :
  isExpressionAttributeValueURL elementName key = isURLPair elementName key.
Proof.
  unfold isExpressionAttributeValueURL, isURLPair, urlPairs. cbn [existsb fst snd].
  destruct (String.eqb_spec elementName "a") as [->|Ha];
    [cbn; now rewrite ?andb_false_r, ?orb_false_r|].
  destruct (String.eqb_spec elementName "link") as [->|Hl];
    [cbn; now rewrite ?andb_false_r, ?orb_false_r|].
  destruct (String.eqb_spec elementName "form") as [->|Hf];
    [cbn; now rewrite ?andb_false_r, ?orb_false_r|].
  destruct (String.eqb_spec elementName "object") as [->|Ho];
    [cbn; now rewrite ?andb_false_r, ?orb_false_r|].
  reflexivity.
Qed.

Lemma isExpressionAttributeValueURL_escaped (elementName key : string) :
  isExpressionAttributeValueURL elementName (html.EscapeString key)
  = isURLPair elementName key.
Proof.
  rewrite <- isExpressionAttributeValueURL_spec.
  unfold isExpressionAttributeValueURL.
  now rewrite !eqb_EscapeString by reflexivity.
Qed.

Lemma isScriptAttribute_escaped (key : string) :
  isScriptAttribute (html.EscapeString key)
  = String.prefix "on" key || String.prefix "hx-on:" key.
Proof.
  unfold isScriptAttribute, strings.HasPrefix.
  rewrite !prefix_EscapeString by reflexivity.
  destruct (String.prefix "on" key), (String.prefix "hx-on:" key); reflexivity.
Qed.

Lemma Contains_String c s sub : Contains s sub -> Contains (String c s) sub.
Proof. intros (a & b & ->). exists (String c a), b. reflexivity. Qed.

Lemma Contains_here (sub rest : string) : Contains (sub ++ rest) sub.
Proof. exists "", rest. reflexivity. Qed.

Lemma valueWriter_delta (ctx : ValueContext) lvl (attr : ExpressionAttribute.t)
  (g : generator) :
  exists front mid back,
    delta g (snd (valueWriter ctx lvl attr g))
      (front ++ valueHead ctx (nextVariableName g)
         ++ Expression.Value (ExpressionAttribute.Expression attr)
         ++ mid ++ valueWrite ctx (nextVariableName g) ++ back) [] [].
Proof.
  pose (back := strings.Repeat tab lvl ++ "if templ_7745c5c3_Err != nil {" ++ nl
                  ++ strings.Repeat tab (S lvl) ++ "return templ_7745c5c3_Err" ++ nl
                  ++ strings.Repeat tab lvl ++ "}" ++ nl).
  destruct ctx; cbn [valueWriter valueHead valueWrite].
  - unfold writeExpressionAttributeValueURL. run.
    pose proof (writeErrorHandler_text lvl g7) as D7.
    exists (strings.Repeat tab lvl ++ "var " ++ nextVariableName g ++ " templ.SafeURL"
              ++ nl ++ strings.Repeat tab lvl),
      (")" ++ nl ++ txt ++ strings.Repeat tab lvl), back.
    subst back. delta_done.
  - unfold writeExpressionAttributeValueScript. run.
    pose proof (writeErrorHandler_text lvl g5) as D5.
    exists (strings.Repeat tab lvl), (nl ++ strings.Repeat tab lvl), back.
    subst back. delta_done.
  - unfold writeExpressionAttributeValueStyle. run.
    pose proof (writeErrorHandler_text lvl g7) as D7.
    exists (strings.Repeat tab lvl ++ "var " ++ nextVariableName g ++ " string"
              ++ nl ++ strings.Repeat tab lvl),
      (")" ++ nl ++ txt ++ strings.Repeat tab lvl), back.
    subst back. delta_done.
  - unfold writeExpressionAttributeValueDefault. run.
    pose proof (writeErrorHandler_text lvl g7) as D7.
    exists (strings.Repeat tab lvl ++ "var " ++ nextVariableName g ++ " string"
              ++ nl ++ strings.Repeat tab lvl),
      (")" ++ nl ++ txt ++ strings.Repeat tab lvl), back.
    subst back. delta_done.
Qed.

Lemma valueHead_length (ctx : ValueContext) (vn : string) :
  String.length (valueHead ctx vn)
  = (String.length vn
     + match ctx with
       | URLContext => 41
       | ScriptContext => 29
       | StyleContext => 65
       | DefaultContext => 44
       end)%nat.
Proof.
  destruct ctx; cbn [valueHead]; rewrite ?slength_app; cbn [String.length]; lia.
Qed.

(** The four contexts put four different texts before the expression. *)
Lemma valueHead_inj (ctx ctx' : ValueContext) (vn : string) :
  valueHead ctx vn = valueHead ctx' vn -> ctx = ctx'.
Proof.
  intros E. apply (f_equal String.length) in E. rewrite !valueHead_length in E.
  destruct ctx, ctx'; try reflexivity; lia.
Qed.

(** C4.  [writeExpressionAttribute] writes the key, the opening quote, the
    value and the closing quote, and the value is written by the writer of
    its context: the URL writer exactly for the pairs a.href, link.href,
    form.action and object.data; otherwise the script writer when the key
    begins with on or hx-on:; otherwise the style writer when the key is
    style; otherwise the default writer.  The code of the value's writer has
    the context's call in front of the expression (JoinURLErrs,
    SanitizeStyleAttributeValues, JoinStringErrs, or the declaration of a
    typed script variable), then the statement that writes the result: the
    Call field as it is for a script, the escaped string otherwise.  The
    writer adds no literal and no symbol range, and the four contexts
    differ in the text they put before the expression. *)
Theorem writeExpressionAttribute_value_by_context lvl (elementName : string)
  (attr : ExpressionAttribute.t) :
  let key := AttributeKey_String (ExpressionAttribute.Key attr) in
  let ctx := valueContext elementName key in
  writeExpressionAttribute lvl elementName attr
  = (writeAttributeKey lvl (ExpressionAttribute.Key attr) ;;
     WriteStringLiteral lvl ("=\" ++ dq) ;;
     valueWriter ctx lvl attr ;;
     WriteStringLiteral lvl ("\" ++ dq) ;;
     ret tt)
  /\ (forall g, exists front mid back,
        delta g (snd (valueWriter ctx lvl attr g))
          (front ++ valueHead ctx (nextVariableName g)
             ++ Expression.Value (ExpressionAttribute.Expression attr)
             ++ mid ++ valueWrite ctx (nextVariableName g) ++ back) [] [])
  /\ (forall ctx' vn, valueHead ctx' vn = valueHead ctx vn -> ctx' = ctx).
Proof.
  intros key ctx. split; [|split].
  - unfold writeExpressionAttribute. cbv zeta. fold key.
    rewrite isExpressionAttributeValueURL_escaped, isScriptAttribute_escaped.
    rewrite (eqb_EscapeString "style" key) by reflexivity.
    subst ctx. unfold valueContext.
    destruct (isURLPair elementName key); cbn [valueWriter]; [reflexivity|].
    destruct (String.prefix "on" key || String.prefix "hx-on:" key);
      cbn [valueWriter]; [reflexivity|].
    destruct (String.eqb key "style"); cbn [valueWriter]; reflexivity.
  - intros g. apply valueWriter_delta.
  - intros ctx' vn. apply valueHead_inj.
Qed.

(** ** Void elements *)

Lemma delta_text g g' t l s l' s' :
  delta g g' t l s -> l = l' -> s = s' -> exists txt, delta g g' txt l' s'.
Proof. intros D <- <-. exists t. exact D. Qed.

Lemma writeElement_split rec lvl (n : Element.t Node) :
  writeElement rec lvl n
  = (writeOpenTag lvl n ;;
     if Element.IsVoidElement n && (length (Element.Children n) =? 0)%nat
     then ret tt
     else
       writeNodes rec lvl (stripWhitespace (Element.Children n)) None ;;
       WriteStringLiteral lvl (closeTag n) ;;
       ret tt).
Proof. reflexivity. Qed.

Lemma writeOpenTag_run lvl (n : Element.t Node) g :
  writeOpenTag lvl n g = (Ok tt, snd (writeOpenTag lvl n g))
  /\ exists txt attrLits,
       Forall noClose attrLits
       /\ delta g (snd (writeOpenTag lvl n g)) txt
            (openTagLiterals (Element.Name n) (Element.Attributes n) attrLits) [].
Proof.
  unfold writeOpenTag, openTagLiterals.
  destruct (length (Element.Attributes n) =? 0)%nat.
  - split; [reflexivity|]. run. cbn [ret snd].
    exists (strings.Repeat tab lvl
              ++ RangeWriter.literalStatement ("<" ++ html.EscapeString (Element.Name n) ++ ">")),
      []. split; [constructor|]. delta_done.
  - cbv zeta. split.
    + apply run_total_unit. total_tac.
    + run.
      lazymatch goal with
      | |- context [bind (writeElementAttributes ?l ?nm ?ats) ?f ?g] =>
        destruct (run_total _ g (total_writeElementAttributes l nm ats)) as [u E];
        destruct (pres_writeElementAttributes l nm ats g) as (atxt & als & DA & FA);
        rewrite (bind_ok _ f g _ _ E); clear E; cbv beta
      end.
      run. cbn [ret snd].
      enough (exists t,
                 delta g g3 t
                   (("<" ++ html.EscapeString (Element.Name n)) :: (als ++ [">"])%list) [])
        as [t D'] by (exists t, als; split; assumption).
      eapply delta_text; [delta_chain| |reflexivity].
      cbn [app]. now rewrite ?app_nil_r.
Qed.

Lemma closeTag_not_open (n : Element.t Node) (attrLits : list string) :
  Forall noClose attrLits ->
  ~ In (closeTag n)
      (openTagLiterals (Element.Name n) (Element.Attributes n) attrLits).
Proof.
  intros F. unfold openTagLiterals, closeTag.
  set (e := html.EscapeString (Element.Name n)).
  assert (L1 : "</" ++ e ++ ">" <> "<" ++ e ++ ">").
  { intros E. apply (f_equal String.length) in E. cbn [append String.length] in E.
    lia. }
  assert (L2 : "</" ++ e ++ ">" <> "<" ++ e).
  { intros E. apply (f_equal String.length) in E. cbn [append String.length] in E.
    rewrite slength_app in E. cbn [String.length] in E. lia. }
  destruct (length (Element.Attributes n) =? 0)%nat; cbn [In].
  - intros [E|[]]. now apply L1.
  - intros [E|H]; [now apply L2|].
    apply in_app_or in H as [H|[E|[]]].
    + rewrite Forall_forall in F. specialize (F _ H). unfold noClose in F.
      cbn in F. destruct (e ++ ">"); discriminate.
    + discriminate.
Qed.

Lemma writeOpenTag_asNormalElement lvl (n : Element.t Node) :
  writeOpenTag lvl (asNormalElement n) = writeOpenTag lvl n.
Proof. unfold writeOpenTag, asNormalElement. cbn [Element.Name Element.Attributes]. reflexivity. Qed.

Lemma writeElement_asNormalElement rec lvl (n : Element.t Node) :
  Element.Children n <> [] ->
  writeElement rec lvl n = writeElement rec lvl (asNormalElement n).
Proof.
  intros Hc. rewrite !writeElement_split, writeOpenTag_asNormalElement.
  unfold closeTag, asNormalElement.
  cbn [Element.Name Element.Children Element.IsVoidElement].
  destruct (Element.Children n) as [|c cs]; [congruence|].
  cbn [length Nat.eqb andb]. now rewrite andb_false_r.
Qed.

(** C6.  A void element with no children is written as its open tag only:
    emission returns after the closing angle bracket of the open tag without
    an error, the literals added are those of the open tag, and the closing
    tag is not among them.  An element with children, void or not, is
    written as the same element that is not void: the open tag, the
    children without their white space, and the closing tag, which is the
    last literal when emission succeeds. *)
Theorem writeElement_void_element fuel lvl (n : Element.t Node) (g : generator) :
  let rec := writeNodeFuel fuel in
  (Element.IsVoidElement n = true -> Element.Children n = [] ->
   writeElement rec lvl n = (writeOpenTag lvl n ;; ret tt)
   /\ fst (writeElement rec lvl n g) = Ok tt
   /\ exists txt attrLits,
        Forall noClose attrLits
        /\ delta g (snd (writeElement rec lvl n g)) txt
             (openTagLiterals (Element.Name n) (Element.Attributes n) attrLits) []
        /\ ~ In (closeTag n)
               (openTagLiterals (Element.Name n) (Element.Attributes n) attrLits))
  /\ (Element.Children n <> [] ->
      writeElement rec lvl n = writeElement rec lvl (asNormalElement n)
      /\ writeElement rec lvl n
         = (writeOpenTag lvl n ;;
            writeNodes rec lvl (stripWhitespace (Element.Children n)) None ;;
            WriteStringLiteral lvl (closeTag n) ;;
            ret tt)
      /\ (fst (writeElement rec lvl n g) = Ok tt ->
          exists txt attrLits childLits,
            Forall noClose attrLits
            /\ delta g (snd (writeElement rec lvl n g)) txt
                 (openTagLiterals (Element.Name n) (Element.Attributes n) attrLits
                    ++ childLits ++ [closeTag n])%list [])).
Proof.
  intros rec.
  destruct (writeOpenTag_run lvl n g) as (E & otxt & als & FA & DO).
  split.
  - intros Hv Hc.
    assert (Eq : writeElement rec lvl n = (writeOpenTag lvl n ;; ret tt)).
    { rewrite writeElement_split, Hv, Hc. reflexivity. }
    split; [exact Eq|]. rewrite Eq, (bind_ok _ _ g _ _ E). cbn [ret fst snd].
    split; [reflexivity|].
    exists otxt, als. split; [exact FA|]. split; [exact DO|].
    now apply closeTag_not_open.
  - intros Hc.
    assert (Eq : writeElement rec lvl n
                 = (writeOpenTag lvl n ;;
                    writeNodes rec lvl (stripWhitespace (Element.Children n)) None ;;
                    WriteStringLiteral lvl (closeTag n) ;;
                    ret tt)).
    { rewrite writeElement_split.
      destruct (Element.Children n) as [|c cs]; [congruence|].
      cbn [length Nat.eqb]. now rewrite andb_false_r. }
    split; [now apply writeElement_asNormalElement|]. split; [exact Eq|].
    rewrite Eq, (bind_ok _ _ g _ _ E).
    set (g1 := snd (writeOpenTag lvl n g)) in *.
    intros Hok. destruct (bind_fst_ok _ _ _ _ Hok) as [[] EK]. clear Hok.
    rewrite (bind_ok _ _ g1 _ _ EK).
    assert (PK : ext anyLiteral g1
                   (snd (writeNodes rec lvl (stripWhitespace (Element.Children n)) None g1))).
    { apply pres_writeNodes. apply pres_writeNodeFuel. }
    destruct PK as (ktxt & kls & DK & _). clear EK.
    set (g2 := snd (writeNodes rec lvl (stripWhitespace (Element.Children n)) None g1)) in *.
    run. cbn [ret snd].
    exists (otxt ++ ktxt ++ strings.Repeat tab lvl
              ++ RangeWriter.literalStatement (closeTag n)), als, kls.
    split; [exact FA|]. delta_done.
Qed.

(** ** The declarations of the file *)

Lemma advance_Index (p : Position) (s : string) :
  Index (RangeWriter.advance p s) = (Index p + Z.of_nat (String.length s)) mod 2 ^ 64
  \/ (s = "" /\ RangeWriter.advance p s = p).
Proof.
  revert p. induction s as [|c s IH]; intros p; [right; split; reflexivity|left].
  cbn [RangeWriter.advance String.length].
  assert (E : Index (RangeWriter.advanceByte p c) = (Index p + 1) mod 2 ^ 64).
  { unfold RangeWriter.advanceByte, u64. destruct (Ascii.eqb c _); reflexivity. }
  destruct (IH (RangeWriter.advanceByte p c)) as [H|[-> H]].
  - rewrite H, E, Zplus_mod_idemp_l. f_equal; lia.
  - rewrite H, E. cbn [String.length]. f_equal; lia.
Qed.

Lemma advance_Index_small (p : Position) (s : string) :
  0 <= Index p -> Index p + Z.of_nat (String.length s) < 2 ^ 64 ->
  Index (RangeWriter.advance p s) = Index p + Z.of_nat (String.length s).
Proof.
  intros H0 H1. destruct (advance_Index p s) as [H|[-> H]].
  - rewrite H. apply Z.mod_small. lia.
  - rewrite H. cbn [String.length]. lia.
Qed.

Lemma increasingFrom_weaken (lo lo' : Z) (rs : list Range) :
  lo' <= lo -> increasingFrom lo rs -> increasingFrom lo' rs.
Proof. destruct rs as [|r rs]; [easy|]. cbn. intros H (A & B & C). split; [lia|split; [lia|exact C]]. Qed.

Lemma total_writeTemplBuffer lvl : total (writeTemplBuffer lvl).
Proof. unfold writeTemplBuffer. total_tac. Qed.

Lemma total_writeCSSProperty lvl p : total (writeCSSProperty lvl p).
Proof. unfold writeCSSProperty. destruct p; total_tac. Qed.

Lemma total_forEach_writeCSSProperty lvl ps : total (forEach (writeCSSProperty lvl) ps).
Proof. apply total_forEach. intros x. apply total_writeCSSProperty. Qed.

Lemma pres_forEach_writeCSSProperty P lvl ps : pres P (forEach (writeCSSProperty lvl) ps).
Proof. apply pres_forEach. intros x. apply pres_writeCSSProperty. Qed.

#[local] Hint Resolve total_writeTemplBuffer total_forEach_writeCSSProperty : total.
#[local] Hint Resolve pres_forEach_writeCSSProperty : pres.

Lemma Repeat_0 (s : string) : strings.Repeat s 0 = "".
Proof. reflexivity. Qed.

Lemma Repeat_1 (s : string) : strings.Repeat s 1 = s.
Proof. cbn. apply sapp_nil_r. Qed.

Lemma delta_cur_nil g g' ls ss : delta g g' "" ls ss -> cur g' = cur g.
Proof. intros D. now rewrite (d_cur _ _ _ _ _ D). Qed.

(** A declaration that writes [txt] and, at its end, records the range of
    all of it as its symbol. *)
Lemma delta_symbol g g1 g' txt ls src (p : Position) :
  delta g g1 txt ls [] -> p = cur g ->
  delta g1 g' "" [] [(src, mkRange p (cur g1))] ->
  delta g g' txt ls (symbolAt g g' [src]).
Proof.
  intros D -> DS. pose proof (delta_cur_nil _ _ _ _ DS) as Ec.
  unfold symbolAt. cbn [map]. rewrite Ec.
  eapply delta_eq; [exact (delta_trans _ _ _ _ _ _ _ _ _ D DS)| | |reflexivity].
  - apply sapp_nil_r.
  - apply app_nil_r.
Qed.

Lemma writeGoExpression_run n g :
  fst (writeGoExpression n g) = Ok tt ->
  exists e,
    n = Some e
    /\ delta g (snd (writeGoExpression n g))
         (Expression.Value (TemplateFileGoExpression.Expression e)
            ++ nodeTail 0 0 (TFGoExpression n))
         [] (symbolAt g (snd (writeGoExpression n g)) (goSymbol n)).
Proof.
  destruct n as [e|]; [|discriminate]. intros _. exists e. split; [reflexivity|].
  unfold writeGoExpression, goSymbol, nodeTail, endsInComment. cbv zeta.
  run.
  destruct (strings.HasPrefix _ "//").
  - run. cbn [ret snd symbolAt map]. rewrite Repeat_0 in *. delta_done.
  - run. rewrite Repeat_0 in *. cbn [From To].
    eapply delta_symbol; [|reflexivity|apply delta_sourceMap_AddSymbolRange].
    delta_done.
Qed.

Lemma delta_split g g1 g2 t1 l1 s1 t2 l2 s2 tail ls ss :
  delta g g1 t1 l1 s1 -> delta g1 g2 t2 l2 s2 ->
  t2 = tail -> (l1 ++ l2)%list = ls -> (s1 ++ s2)%list = ss ->
  exists pre, delta g g2 (pre ++ tail) ls ss.
Proof.
  intros D1 D2 <- <- <-. exists t1. exact (delta_trans _ _ _ _ _ _ _ _ _ D1 D2).
Qed.

(** From [exists pre, delta g g1 (pre ++ tail) ls []] and the record of the
    symbol range at [g1]. *)
Lemma delta_symbol_ex g g1 g' tail ls src (p : Position) :
  (exists pre, delta g g1 (pre ++ tail) ls []) -> p = cur g ->
  delta g1 g' "" [] [(src, mkRange p (cur g1))] ->
  exists pre, delta g g' (pre ++ tail) ls (symbolAt g g' [src]).
Proof.
  intros [pre D] E DS. exists pre. exact (delta_symbol _ _ _ _ _ _ _ D E DS).
Qed.

(** The last two steps before the state [gc] of the goal. *)
Ltac last_two k :=
  lazymatch goal with
  | |- ex (fun pre => delta _ ?gc _ _ _) =>
    lazymatch goal with
    | D2 : delta ?gb gc _ _ _ |- _ =>
      lazymatch goal with
      | D1 : delta ?ga gb _ _ _ |- _ => k ga gc D1 D2
      end
    end
  end.

Lemma writeCSS_run n g :
  fst (writeCSS n g) = Ok tt ->
  exists pre,
    delta g (snd (writeCSS n g)) (pre ++ nodeTail 0 0 (TFCSSTemplate n)) []
      (symbolAt g (snd (writeCSS n g)) (nodeSymbol (TFCSSTemplate n))).
Proof.
  destruct n as [n|]; [|discriminate]. intros _.
  unfold writeCSS, nodeSymbol, nodeTail. cbv zeta. cbn [Nat.pred].
  run. cbn [From To].
  eapply delta_symbol_ex; [|reflexivity|apply delta_sourceMap_AddSymbolRange].
  last_two ltac:(fun ga gc D1 D2 =>
    eapply (delta_split g ga gc);
      [delta_chain
      |exact (delta_trans _ _ _ _ _ _ _ _ _ D1 D2)
      |rewrite Repeat_0, Repeat_1; text_eq
      |reflexivity|reflexivity]).
Qed.

Lemma writeScript_run n g :
  fst (writeScript n g) = Ok tt ->
  exists pre,
    delta g (snd (writeScript n g)) (pre ++ nodeTail 0 0 (TFScriptTemplate n)) []
      (symbolAt g (snd (writeScript n g)) (nodeSymbol (TFScriptTemplate n))).
Proof.
  destruct n as [n|]; [|discriminate]. intros _.
  unfold writeScript, nodeSymbol, nodeTail. cbv zeta. cbn [Nat.pred].
  run. cbn [From To].
  eapply delta_symbol_ex; [|reflexivity|apply delta_sourceMap_AddSymbolRange].
  last_two ltac:(fun ga gc D1 D2 =>
    eapply (delta_split g ga gc);
      [delta_chain
      |exact (delta_trans _ _ _ _ _ _ _ _ _ D1 D2)
      |rewrite Repeat_0, Repeat_1; text_eq
      |reflexivity|reflexivity]).
Qed.

Lemma delta_tf g g' t l s : delta g g' t l s -> tf g' = tf g.
Proof. intros D. exact (d_tf _ _ _ _ _ D). Qed.

Lemma writeTemplate_run fuel i n g :
  fst (writeTemplate (writeNodeFuel fuel) i n g) = Ok tt ->
  exists pre ls,
    delta g (snd (writeTemplate (writeNodeFuel fuel) i n g))
      (pre ++ nodeTail (length (TemplateFile.Nodes (tf g))) i (TFHTMLTemplate n)) ls
      (symbolAt g (snd (writeTemplate (writeNodeFuel fuel) i n g))
         (nodeSymbol (TFHTMLTemplate n))).
Proof.
  destruct n as [n|]; [|discriminate].
  unfold writeTemplate, nodeSymbol, nodeTail. cbv zeta. cbn [Nat.pred].
  run.
  intros Hok. destruct (bind_fst_ok _ _ _ _ Hok) as [[] EK]. clear Hok.
  rewrite (bind_ok _ _ _ _ _ EK).
  lazymatch type of EK with
  | ?m ?gk = _ =>
    assert (PK : ext anyLiteral gk (snd (m gk)))
      by (apply pres_writeNodes; apply pres_writeNodeFuel);
    destruct PK as (ktxt & kls & DK & _); clear EK;
    set (gn := snd (m gk)) in *
  end.
  run. cbn [From To].
  lazymatch goal with
  | |- context [sourceMap_AddSymbolRange _ _ ?gc] =>
    lazymatch goal with
    | D2 : delta ?gb gc _ _ _ |- _ =>
      lazymatch goal with
      | D1 : delta ?ga gb _ _ _ |- _ => revert D1 D2
      end
    end
  end.
  lazymatch goal with
  | |- delta ?ga ?gb _ _ _ -> delta ?gb ?gc _ _ _ -> _ =>
    intros L1 L2;
    assert (DA : exists t, delta g ga t kls [])
      by (eapply delta_text; [delta_chain|cbn [app]; now rewrite ?app_nil_r|reflexivity]);
    destruct DA as [t DA];
    assert (Etf : tf gb = tf g)
      by (rewrite (delta_tf _ _ _ _ _ L1); exact (delta_tf _ _ _ _ _ DA));
    rewrite Etf in *;
    exists t, kls;
    eapply delta_symbol; [|reflexivity|apply delta_sourceMap_AddSymbolRange];
    eapply delta_eq;
      [exact (delta_trans _ _ _ _ _ _ _ _ _ DA (delta_trans _ _ _ _ _ _ _ _ _ L1 L2))
      |rewrite Repeat_0, Repeat_1;
       destruct (length (TemplateFile.Nodes (tf g)) <=? i + 1)%nat; text_eq
      |now rewrite ?app_nil_r|reflexivity]
  end.
Qed.

(** ** The file: its declarations one after the other *)

Lemma within_nil lo hi : within lo hi [].
Proof. split; constructor. Qed.

Lemma within_weaken lo lo' hi hi' rs :
  lo' <= lo -> hi <= hi' -> within lo hi rs -> within lo' hi' rs.
Proof.
  intros Hl Hh [I F]. split.
  - eapply increasingFrom_weaken; eauto.
  - eapply Forall_impl; [|exact F]. cbn. intros; lia.
Qed.

Lemma within_app lo mid hi a b :
  lo <= mid -> mid <= hi -> within lo mid a -> within mid hi b ->
  within lo hi (a ++ b).
Proof.
  intros Hlm Hmh. revert lo Hlm. induction a as [|r a IH]; intros lo Hlm [Ia Fa] Hb; cbn [app].
  - eapply within_weaken; [exact Hlm|apply Z.le_refl|exact Hb].
  - destruct Ia as (A & B & C). inversion Fa as [|? ? Fr Fa']; subst.
    destruct (IH (Index (To r)) Fr (conj C Fa') Hb) as [I' F'].
    split.
    + cbn [increasingFrom]. auto.
    + constructor; [lia|exact F'].
Qed.

Lemma delta_idx g g' txt ls ss :
  delta g g' txt ls ss ->
  0 <= idx g -> idx g + Z.of_nat (String.length txt) < 2 ^ 64 ->
  idx g' = idx g + Z.of_nat (String.length txt).
Proof.
  intros D H0 H1. unfold idx in *. rewrite (d_cur _ _ _ _ _ D).
  now apply advance_Index_small.
Qed.

Lemma spans_nil g txt : spans g txt [].
Proof. intros _ _. apply within_nil. Qed.

Lemma spans_trans g g1 t1 l1 s1 t2 s2 :
  delta g g1 t1 l1 s1 -> spans g t1 s1 -> spans g1 t2 s2 ->
  spans g (t1 ++ t2) (s1 ++ s2).
Proof.
  intros D S1 S2 H0 H1. rewrite slength_app, Nat2Z.inj_add in *.
  assert (E : idx g1 = idx g + Z.of_nat (String.length t1)) by (eapply delta_idx; eauto; lia).
  rewrite map_app.
  apply within_app with (mid := idx g + Z.of_nat (String.length t1)); [lia|lia| |].
  - apply S1; lia.
  - specialize (S2 ltac:(lia) ltac:(lia)). rewrite E in S2.
    now rewrite Z.add_assoc.
Qed.

Lemma spans_symbolAt g g' txt ls ss src :
  delta g g' txt ls ss -> (0 < String.length txt)%nat ->
  spans g txt (symbolAt g g' [src]).
Proof.
  intros D Hlen H0 H1. pose proof (delta_idx _ _ _ _ _ D H0 H1) as E.
  unfold symbolAt, idx in *. cbn [map snd]. split.
  - cbn [increasingFrom From To]. split; [lia|split; [lia|exact I]].
  - constructor; [cbn [To]; lia|constructor].
Qed.

Lemma nodeSymbol_cases (n : TemplateFileNode) :
  nodeSymbol n = [] \/ exists src, nodeSymbol n = [src].
Proof.
  destruct n as [[e|]|[t|]|[t|]|[t|]]; cbn [nodeSymbol goSymbol]; eauto.
  destruct (endsInComment _); eauto.
Qed.

Lemma chunkOf_length count i n chunk src :
  chunkOf count i n chunk -> nodeSymbol n = [src] -> (0 < String.length chunk)%nat.
Proof.
  intros (pre & -> & _) Hs. rewrite slength_app.
  enough (0 < String.length (nodeTail count i n))%nat by lia.
  destruct n as [[e|]|[t|]|[t|]|[t|]]; cbn [nodeSymbol goSymbol] in Hs; try discriminate;
    cbn [nodeTail].
  - destruct (endsInComment _); cbn; lia.
  - cbn. lia.
  - cbn. lia.
  - cbn. lia.
Qed.

Lemma writeTemplateNode_run fuel i n g :
  fst (writeTemplateNode (writeNodeFuel fuel) i n g) = Ok tt ->
  exists chunk ls,
    chunkOf (length (TemplateFile.Nodes (tf g))) i n chunk
    /\ delta g (snd (writeTemplateNode (writeNodeFuel fuel) i n g)) chunk ls
         (symbolAt g (snd (writeTemplateNode (writeNodeFuel fuel) i n g)) (nodeSymbol n)).
Proof.
  destruct n as [n|n|n|n]; cbn [writeTemplateNode]; intros H.
  - destruct (writeGoExpression_run n g H) as (e & -> & D).
    eexists _, []. split; [|exact D]. eexists. split; [reflexivity|reflexivity].
  - destruct (writeTemplate_run fuel i n g H) as (pre & ls & D).
    eexists _, ls. split; [|exact D]. eexists. split; [reflexivity|exact I].
  - destruct (writeCSS_run n g H) as (pre & D).
    eexists _, []. split; [|exact D]. eexists. split; [reflexivity|exact I].
  - destruct (writeScript_run n g H) as (pre & D).
    eexists _, []. split; [|exact D]. eexists. split; [reflexivity|exact I].
Qed.

Lemma writeTemplateNodes_from_cons rec i n rest :
  writeTemplateNodes_from rec i (n :: rest)
  = (writeTemplateNode rec i n ;; writeTemplateNodes_from rec (S i) rest).
Proof. reflexivity. Qed.

Lemma writeTemplateNodes_from_run fuel nodes : forall i g,
  fst (writeTemplateNodes_from (writeNodeFuel fuel) i nodes g) = Ok tt ->
  exists chunks ls ss,
    chunksOf (length (TemplateFile.Nodes (tf g))) i nodes chunks
    /\ delta g (snd (writeTemplateNodes_from (writeNodeFuel fuel) i nodes g))
         (joinAll chunks) ls ss
    /\ map fst ss = flat_map nodeSymbol nodes
    /\ spans g (joinAll chunks) ss.
Proof.
  induction nodes as [|n rest IH]; intros i g.
  - intros _. exists [], [], []. cbn [writeTemplateNodes_from ret snd chunksOf joinAll].
    split; [exact I|]. split; [apply delta_refl|]. split; [reflexivity|apply spans_nil].
  - rewrite writeTemplateNodes_from_cons. intros H.
    destruct (bind_fst_ok _ _ _ _ H) as [[] EK]. revert H.
    rewrite (bind_ok _ _ _ _ _ EK). intros H.
    assert (Hn : fst (writeTemplateNode (writeNodeFuel fuel) i n g) = Ok tt)
      by (now rewrite EK).
    destruct (writeTemplateNode_run fuel i n g Hn) as (chunk & ls1 & Hc & D1).
    set (g1 := snd (writeTemplateNode (writeNodeFuel fuel) i n g)) in *.
    destruct (IH (S i) g1 H) as (chunks & ls2 & ss2 & Hcs & D2 & Hsrc & Hsp).
    rewrite (delta_tf _ _ _ _ _ D1) in Hcs.
    exists (chunk :: chunks), (ls1 ++ ls2)%list,
      (symbolAt g g1 (nodeSymbol n) ++ ss2)%list.
    cbn [chunksOf joinAll flat_map].
    split; [split; assumption|].
    split; [exact (delta_trans _ _ _ _ _ _ _ _ _ D1 D2)|].
    split.
    + rewrite map_app, Hsrc. f_equal. unfold symbolAt. rewrite map_map. cbn [fst].
      apply map_id.
    + eapply spans_trans; [exact D1| |exact Hsp].
      destruct (nodeSymbol_cases n) as [E|[src E]]; rewrite E.
      * apply spans_nil.
      * eapply spans_symbolAt; [exact D1|]. eapply chunkOf_length; eauto.
Qed.

Lemma forEach_writeGoExpression rec hs : forall i,
  forEach writeGoExpression hs = writeTemplateNodes_from rec i (map TFGoExpression hs).
Proof.
  induction hs as [|h hs IH]; intros i; cbn [forEach map]; [reflexivity|].
  rewrite writeTemplateNodes_from_cons. cbn [writeTemplateNode].
  now rewrite (IH (S i)).
Qed.

Lemma flat_map_goSymbol hs :
  flat_map nodeSymbol (map TFGoExpression hs) = flat_map goSymbol hs.
Proof. induction hs as [|h hs IH]; cbn [flat_map map nodeSymbol]; congruence. Qed.

Lemma writeHeader_eq g :
  writeHeader g = forEach writeGoExpression (TemplateFile.Header (tf g)) g.
Proof.
  unfold writeHeader. rewrite (bind_ok _ _ g _ _ (run_gets tf g)).
  destruct (TemplateFile.Header (tf g)); reflexivity.
Qed.

Lemma writeTemplateNodes_eq rec g :
  writeTemplateNodes rec g = writeTemplateNodes_from rec 0 (TemplateFile.Nodes (tf g)) g.
Proof. unfold writeTemplateNodes. now rewrite (bind_ok _ _ g _ _ (run_gets tf g)). Qed.

Lemma total_writeCodeGeneratedComment : total writeCodeGeneratedComment.
Proof. unfold writeCodeGeneratedComment. total_tac. Qed.

Lemma total_writeVersionComment : total writeVersionComment.
Proof. unfold writeVersionComment. total_tac. Qed.

Lemma total_writeGeneratedDateComment : total writeGeneratedDateComment.
Proof. unfold writeGeneratedDateComment. total_tac. Qed.

Lemma total_writePackage : total writePackage.
Proof. unfold writePackage. total_tac. Qed.

Lemma total_writeImports : total writeImports.
Proof. unfold writeImports. total_tac. Qed.

Lemma pres_writeCodeGeneratedComment P : pres P writeCodeGeneratedComment.
Proof. unfold writeCodeGeneratedComment. pres_tac. Qed.

Lemma pres_writeVersionComment P : pres P writeVersionComment.
Proof. unfold writeVersionComment. pres_tac. Qed.

Lemma pres_writeGeneratedDateComment P : pres P writeGeneratedDateComment.
Proof. unfold writeGeneratedDateComment. pres_tac. Qed.

Lemma pres_writePackage P : pres P writePackage.
Proof. unfold writePackage. pres_tac. Qed.

Lemma pres_writeImports P : pres P writeImports.
Proof. unfold writeImports. pres_tac. Qed.

#[local] Hint Resolve total_writeCodeGeneratedComment total_writeVersionComment
  total_writeGeneratedDateComment total_writePackage total_writeImports : total.
#[local] Hint Resolve pres_writeCodeGeneratedComment pres_writeVersionComment
  pres_writeGeneratedDateComment pres_writePackage pres_writeImports : pres.

(** The text between the header and the nodes: the package clause, the lint
    directive and the imports. *)
Lemma generate_run fuel g :
  fst (generate (writeNodeFuel fuel) g) = Ok tt ->
  exists pro hchunks mid nchunks ls ss,
    chunksOf (length (TemplateFile.Nodes (tf g))) 0
      (map TFGoExpression (TemplateFile.Header (tf g))) hchunks
    /\ chunksOf (length (TemplateFile.Nodes (tf g))) 0 (TemplateFile.Nodes (tf g)) nchunks
    /\ delta g (snd (generate (writeNodeFuel fuel) g))
         (pro ++ joinAll hchunks ++ mid ++ joinAll nchunks
            ++ "var _ = templruntime.GeneratedTemplate") ls ss
    /\ map fst ss = symbolSources (tf g)
    /\ spans g (pro ++ joinAll hchunks ++ mid ++ joinAll nchunks
                  ++ "var _ = templruntime.GeneratedTemplate") ss.
Proof.
  unfold generate. run.
  (* the header *)
  intros H. destruct (bind_fst_ok _ _ _ _ H) as [[] EK]. revert H.
  rewrite (bind_ok _ _ _ _ _ EK). 
  assert (Hh : fst (writeHeader g2) = Ok tt) by (now rewrite EK). clear EK.
  rewrite writeHeader_eq in Hh |- *.
  rewrite (forEach_writeGoExpression (writeNodeFuel fuel) _ 0) in Hh |- *.
  destruct (writeTemplateNodes_from_run fuel _ 0 g2 Hh)
    as (hchunks & hls & hss & Hhc & DH & Hhsrc & Hhsp).
  clear Hh.
  set (g3 := snd (writeTemplateNodes_from (writeNodeFuel fuel) 0
                    (map TFGoExpression (TemplateFile.Header (tf g2))) g2)) in *.
  run.
  (* the nodes *)
  intros H. destruct (bind_fst_ok _ _ _ _ H) as [[] EK]. revert H.
  rewrite (bind_ok _ _ _ _ _ EK). intros _.
  assert (Hn : fst (writeTemplateNodes (writeNodeFuel fuel) g5) = Ok tt)
    by (now rewrite EK). clear EK.
  rewrite writeTemplateNodes_eq in Hn |- *.
  destruct (writeTemplateNodes_from_run fuel _ 0 g5 Hn)
    as (nchunks & nls & nss & Hnc & DN & Hnsrc & Hnsp).
  clear Hn.
  set (g6 := snd (writeTemplateNodes_from (writeNodeFuel fuel) 0
                    (TemplateFile.Nodes (tf g5)) g5)) in *.
  unfold writeBlankAssignmentForRuntimeImport. run. cbn [ret snd].
  assert (D02 : delta g g2 (txt ++ txt0 ++ txt1) [] []) by delta_done.
  assert (D35 : delta g3 g5 (txt2 ++ txt3) [] []) by delta_done.
  assert (E2 : tf g2 = tf g) by exact (delta_tf _ _ _ _ _ D02).
  assert (E5 : tf g5 = tf g).
  { rewrite (delta_tf _ _ _ _ _ D35), (delta_tf _ _ _ _ _ DH). exact E2. }
  rewrite E2 in *. rewrite E5 in *.
  exists (txt ++ txt0 ++ txt1), hchunks, (txt2 ++ txt3), nchunks,
    (hls ++ nls)%list, (hss ++ nss)%list.
  split; [exact Hhc|]. split; [exact Hnc|].
  lazymatch goal with
  | DL : delta g6 ?g7 "var _ = templruntime.GeneratedTemplate" [] [] |- _ =>
    pose proof (delta_trans _ _ _ _ _ _ _ _ _ D02
                  (delta_trans _ _ _ _ _ _ _ _ _ DH
                     (delta_trans _ _ _ _ _ _ _ _ _ D35
                        (delta_trans _ _ _ _ _ _ _ _ _ DN DL)))) as DT
  end.
  split; [|split].
  - eapply delta_eq; [exact DT|reflexivity| |].
    + cbn [app]. now rewrite ?app_nil_r.
    + cbn [app]. now rewrite ?app_nil_r.
  - unfold symbolSources. rewrite map_app, Hhsrc, Hnsrc, flat_map_goSymbol. reflexivity.
  - replace (hss ++ nss)%list with ([] ++ hss ++ [] ++ nss ++ [])%list
      by (cbn [app]; now rewrite app_nil_r).
    eapply spans_trans; [exact D02|apply spans_nil|].
    eapply spans_trans; [exact DH|exact Hhsp|].
    eapply spans_trans; [exact D35|apply spans_nil|].
    eapply spans_trans; [exact DN|exact Hnsp|].
    apply spans_nil.
Qed.

(** ** Generate: symbol ranges and blank lines *)

Lemma forEach_opts_run (opts : list GenerateOpt) (g : generator) :
  Forall setsOptionsOnly opts ->
  fst (forEach (fun opt => opt) opts g) = Ok tt
  /\ tf (snd (forEach (fun opt => opt) opts g)) = tf g
  /\ w (snd (forEach (fun opt => opt) opts g)) = w g
  /\ sourceMap (snd (forEach (fun opt => opt) opts g)) = sourceMap g.
Proof.
  intros F. revert g. induction F as [|o opts Ho F IH]; intros g.
  - cbn. auto.
  - cbn [forEach]. destruct (Ho g) as (H1 & H2 & H3 & H4).
    assert (E : o g = (Ok tt, snd (o g))).
    { destruct (o g) as [r g1]. cbn in H1. now subst r. }
    rewrite (bind_ok _ _ g _ _ E).
    destruct (IH (snd (o g))) as (I1 & I2 & I3 & I4).
    repeat split; congruence.
Qed.

Lemma setsOptionsOnly_WithVersion v : setsOptionsOnly (WithVersion v).
Proof. intros g. repeat split. Qed.

Lemma setsOptionsOnly_WithSkipCodeGeneratedComment :
  setsOptionsOnly WithSkipCodeGeneratedComment.
Proof. intros g. repeat split. Qed.

(** What a successful [Generate] returns, from the run of [generate]. *)
Lemma GenerateFuel_run fuel (template : TemplateFile.t) (opts : list GenerateOpt)
  (op : GeneratorOutput.t) (text : string) :
  Forall setsOptionsOnly opts ->
  GenerateFuel fuel template opts = (Ok op, text) ->
  exists pro hchunks mid nchunks,
    chunksOf (length (TemplateFile.Nodes template)) 0
      (map TFGoExpression (TemplateFile.Header template)) hchunks
    /\ chunksOf (length (TemplateFile.Nodes template)) 0 (TemplateFile.Nodes template)
         nchunks
    /\ text = pro ++ joinAll hchunks ++ mid ++ joinAll nchunks
                ++ "var _ = templruntime.GeneratedTemplate"
    /\ map fst (SourceMap.SymbolRanges (GeneratorOutput.SourceMap op))
       = symbolSources template
    /\ (Z.of_nat (String.length text) < 2 ^ 64 ->
        increasingFrom 0 (map snd (SourceMap.SymbolRanges (GeneratorOutput.SourceMap op)))).
Proof.
  intros F. unfold GenerateFuel. cbv zeta.
  set (g0 := mkGenerator template RangeWriter.NewRangeWriter SourceMap.NewSourceMap 0 ""
               (GeneratorOptions.mk "" "" false "")).
  destruct (forEach_opts_run opts g0 F) as (O1 & O2 & O3 & O4).
  assert (EO : forEach (fun opt => opt) opts g0
               = (Ok tt, snd (forEach (fun opt => opt) opts g0))).
  { destruct (forEach (fun opt => opt) opts g0) as [r gx]. cbn in O1. now subst r. }
  rewrite (bind_ok _ _ g0 _ _ EO). clear EO O1.
  set (g1 := snd (forEach (fun opt => opt) opts g0)) in *.
  destruct (generate (writeNodeFuel fuel) g1) as [r g2] eqn:EG.
  destruct r as [[]|e|]; intros H; [|discriminate|discriminate].
  injection H as <- <-.
  assert (HG : fst (generate (writeNodeFuel fuel) g1) = Ok tt) by (now rewrite EG).
  destruct (generate_run fuel g1 HG)
    as (pro & hchunks & mid & nchunks & ls & ss & Hh & Hn & D & Hsrc & Hsp).
  rewrite EG in D. cbn [snd] in D. rewrite O2 in *. subst g0. cbn [tf] in *.
  assert (Eo : out g1 = "") by (unfold out; now rewrite O3).
  assert (Ec : cur g1 = mkPosition 0 0 0) by (unfold cur; now rewrite O3).
  assert (Es : syms g1 = []) by (unfold syms; now rewrite O4).
  pose proof (d_out _ _ _ _ _ D) as Dout. rewrite Eo in Dout. cbn [append] in Dout.
  pose proof (d_syms _ _ _ _ _ D) as Dsyms. rewrite Es in Dsyms. cbn [app] in Dsyms.
  unfold out in Dout. unfold syms in Dsyms.
  exists pro, hchunks, mid, nchunks. cbn [GeneratorOutput.SourceMap].
  rewrite Dout, Dsyms.
  split; [exact Hh|]. split; [exact Hn|]. split; [reflexivity|]. split; [exact Hsrc|].
  intros Hlen. unfold spans, idx in Hsp. rewrite Ec in Hsp. cbn [Index] in Hsp.
  apply Hsp; lia.
Qed.

(** C2, as the code has it.  In the source map of a file that generates
    successfully the symbol ranges are, in the order of the file, one entry
    for each Go expression of the header or of the top level whose last line
    is not a line comment, one for each HTML template, one for each CSS
    template and one for each script template, each with the range of its
    declaration as source; a Go expression that ends in a line comment has
    no entry.  As long as the text written is shorter than 2^64 bytes, the
    destination ranges are not empty, do not overlap and increase. *)
Theorem Generate_symbol_ranges fuel (template : TemplateFile.t)
  (opts : list GenerateOpt) (op : GeneratorOutput.t) (text : string) :
  Forall setsOptionsOnly opts ->
  GenerateFuel fuel template opts = (Ok op, text) ->
  Z.of_nat (String.length text) < 2 ^ 64 ->
  map fst (SourceMap.SymbolRanges (GeneratorOutput.SourceMap op))
  = symbolSources template
  /\ increasingFrom 0
       (map snd (SourceMap.SymbolRanges (GeneratorOutput.SourceMap op))).
Proof.
  intros F H Hlen.
  destruct (GenerateFuel_run fuel template opts op text F H)
    as (pro & hchunks & mid & nchunks & _ & _ & _ & Hsrc & Hinc).
  split; [exact Hsrc|exact (Hinc Hlen)].
Qed.


(** * Further properties of the code *)

(** ** Change detection *)

Lemma HasTextChanged_loop_spec (previous : list string) :
  forall done updated,
    length previous = length updated ->
    exists b,
      HasTextChanged_loop (length done) previous (done ++ updated)%list = Some b
      /\ (b = false <-> previous = updated).
Proof.
  induction previous as [|p previous IH]; intros done [|u updated] Hlen;
    try discriminate; cbn [HasTextChanged_loop].
  - exists false. split; [reflexivity|tauto].
  - rewrite nth_error_app2, Nat.sub_diag by lia. cbn [nth_error].
    destruct (String.eqb_spec p u) as [->|Hpu]; cbn [negb].
    + injection Hlen as Hlen.
      destruct (IH (done ++ [u])%list updated Hlen) as (b & Hb & Hiff).
      rewrite length_app, Nat.add_1_r, <- app_assoc in Hb. cbn [app] in Hb.
      exists b. split; [exact Hb|]. rewrite Hiff. split; congruence.
    + exists true. split; [reflexivity|]. split; congruence.
Qed.

(** X1.  [HasTextChanged] returns (the index into the updated literals
    is never out of range), and it returns false exactly when the two
    outputs have the same list of literals; options and source map play no
    part. *)
Theorem HasTextChanged_iff_literals_differ (previous updated : GeneratorOutput.t) :
  exists b,
    HasTextChanged previous updated = Some b
    /\ (b = false
        <-> GeneratorOutput.Literals previous = GeneratorOutput.Literals updated).
Proof.
  unfold HasTextChanged.
  destruct (Nat.eqb_spec (length (GeneratorOutput.Literals previous))
              (length (GeneratorOutput.Literals updated))) as [E|E]; cbn [negb].
  - exact (HasTextChanged_loop_spec _ [] _ E).
  - exists true. split; [reflexivity|]. split; [discriminate|].
    intros H. rewrite H in E. congruence.
Qed.




(** ** Whitespace stripping *)

Lemma filter_idem {A} (f : A -> bool) (l : list A) :
  filter f (filter f l) = filter f l.
Proof.
  induction l as [|x l IH]; [reflexivity|]. cbn [filter].
  destruct (f x) eqn:E; [|exact IH]. cbn [filter]. rewrite E. now f_equal.
Qed.

Lemma stripWhitespace_filter input :
  stripWhitespace input = filter (fun n => negb (isWhitespace n)) input.
Proof.
  induction input as [|n input IH]; cbn [stripWhitespace filter]; [reflexivity|].
  destruct (negb (isWhitespace n)); now rewrite IH.
Qed.

(** X3.  [stripWhitespace] returns the nodes that are not [Whitespace], in
    their order: no node of the result is [Whitespace], every other node of
    the input is kept, stripping again changes nothing, and the nodes of two
    lists one after the other are stripped list by list. *)
Theorem stripWhitespace_keeps_other_nodes (a b : list Node) :
  Forall (fun n => isWhitespace n = false) (stripWhitespace a)
  /\ (forall n, In n (stripWhitespace a) <-> In n a /\ isWhitespace n = false)
  /\ stripWhitespace (stripWhitespace a) = stripWhitespace a
  /\ stripWhitespace (a ++ b) = (stripWhitespace a ++ stripWhitespace b)%list
  /\ (Forall (fun n => isWhitespace n = false) a -> stripWhitespace a = a).
Proof.
  rewrite !stripWhitespace_filter.
  assert (Hin : forall n,
             In n (filter (fun n => negb (isWhitespace n)) a)
             <-> In n a /\ isWhitespace n = false).
  { intros n. rewrite filter_In, negb_true_iff. tauto. }
  split; [|split; [exact Hin|split; [|split]]].
  - apply Forall_forall. intros n Hn. now apply Hin in Hn.
  - apply filter_idem.
  - apply filter_app.
  - intros F. clear Hin. induction F as [|n a Hn F IH]; cbn [filter]; [reflexivity|].
    rewrite Hn. cbn [negb]. now rewrite IH.
Qed.

Lemma stripLeadingWhitespace_spec nodes :
  exists pre,
    nodes = (pre ++ stripLeadingWhitespace nodes)%list
    /\ Forall (fun n => isWhitespace n = true) pre
    /\ match stripLeadingWhitespace nodes with
       | [] => True
       | first :: _ => isWhitespace first = false
       end.
Proof.
  induction nodes as [|n nodes IH]; cbn [stripLeadingWhitespace].
  - exists []. repeat split; constructor.
  - destruct (isWhitespace n) eqn:E; cbn [negb].
    + destruct IH as (pre & H1 & H2 & H3). exists (n :: pre).
      split; [cbn [app]; congruence|]. split; [constructor; assumption|exact H3].
    + exists []. split; [reflexivity|]. split; [constructor|exact E].
Qed.

Lemma firstn_S_nth_error {A} (l : list A) i n :
  nth_error l i = Some n -> firstn (S i) l = (firstn i l ++ [n])%list.
Proof.
  revert i. induction l as [|x l IH]; intros [|i] H; try discriminate; cbn in *.
  - now injection H as ->.
  - f_equal. now apply IH.
Qed.

Lemma skipn_nth_error {A} (l : list A) i n :
  nth_error l i = Some n -> skipn i l = n :: skipn (S i) l.
Proof.
  revert i. induction l as [|x l IH]; intros [|i] H; try discriminate; cbn in *.
  - now injection H as ->.
  - now apply IH.
Qed.

Lemma stripTrailingWhitespace_from_spec nodes : forall i1,
  Forall (fun n => isWhitespace n = true) (skipn i1 nodes) ->
  exists post,
    nodes = (stripTrailingWhitespace_from nodes i1 ++ post)%list
    /\ Forall (fun n => isWhitespace n = true) post
    /\ (stripTrailingWhitespace_from nodes i1 = []
        \/ exists init lst,
             stripTrailingWhitespace_from nodes i1 = (init ++ [lst])%list
             /\ isWhitespace lst = false).
Proof.
  induction i1 as [|i IH]; intros F; cbn [stripTrailingWhitespace_from].
  - exists nodes. cbn [skipn] in F. auto.
  - destruct (nth_error nodes i) as [n|] eqn:E.
    + destruct (isWhitespace n) eqn:W; cbn [negb].
      * apply IH. rewrite (skipn_nth_error _ _ _ E). constructor; assumption.
      * exists (skipn (S i) nodes). split; [now rewrite firstn_skipn|].
        split; [exact F|]. right. exists (firstn i nodes), n.
        split; [now apply firstn_S_nth_error|exact W].
    + apply IH. apply nth_error_None in E. rewrite skipn_all2 by exact E. constructor.
Qed.

(** X4.  [stripLeadingAndTrailingWhitespace] removes white space at the two
    edges only: the input is the result between a run of [Whitespace] nodes
    before it and one after it, and the result is empty or begins and ends
    with a node that is not [Whitespace]. *)
Theorem stripLeadingAndTrailingWhitespace_edges (nodes : list Node) :
  exists pre post,
    nodes = (pre ++ stripLeadingAndTrailingWhitespace nodes ++ post)%list
    /\ Forall (fun n => isWhitespace n = true) pre
    /\ Forall (fun n => isWhitespace n = true) post
    /\ (stripLeadingAndTrailingWhitespace nodes = []
        \/ (exists first rest,
               stripLeadingAndTrailingWhitespace nodes = first :: rest
               /\ isWhitespace first = false)
           /\ (exists init lst,
                  stripLeadingAndTrailingWhitespace nodes = (init ++ [lst])%list
                  /\ isWhitespace lst = false)).
Proof.
  unfold stripLeadingAndTrailingWhitespace, stripTrailingWhitespace.
  destruct (stripLeadingWhitespace_spec nodes) as (pre & H1 & H2 & H3).
  set (mid := stripLeadingWhitespace nodes) in *.
  destruct (stripTrailingWhitespace_from_spec mid (length mid)) as (post & P1 & P2 & P3).
  { rewrite skipn_all. constructor. }
  set (r := stripTrailingWhitespace_from mid (length mid)) in *.
  exists pre, post. split; [congruence|]. split; [exact H2|]. split; [exact P2|].
  destruct P3 as [P3|(init & lst & P3 & P4)]; [now left|right]. split.
  - destruct r as [|first rest] eqn:Er.
    + destruct init; discriminate.
    + exists first, rest. split; [reflexivity|].
      rewrite P1 in H3. cbn [app] in H3. exact H3.
  - exists init, lst. auto.
Qed.

(** ** Lists of nodes *)

Lemma bind_ext {A B} (m : M A) (f f' : A -> M B) (g : generator) :
  (forall a g1, f a g1 = f' a g1) -> bind m f g = bind m f' g.
Proof. intros H. unfold bind. destruct (m g) as [[a|e|] g1]; auto. Qed.

(** X5.  Writing a list of nodes that is two lists one after the other is
    writing the first list and then the second, where the last node of the
    first list has the first node of the second as its next sibling. *)
Theorem writeNodes_app rec lvl (a b : list Node) (next : option Node) (g : generator) :
  writeNodes rec lvl (a ++ b) next g
  = (writeNodes rec lvl a (nextOf b next) ;; writeNodes rec lvl b next) g.
Proof.
  revert g. induction a as [|x a IH]; intros g.
  - cbn [app writeNodes]. now rewrite (bind_ok _ _ g _ _ (run_ret tt g)).
  - cbn [app writeNodes]. rewrite bind_assoc.
    replace (match (a ++ b)%list with n :: _ => Some n | [] => next end)
      with (match a with n :: _ => Some n | [] => nextOf b next end)
      by (destruct a; reflexivity).
    apply bind_ext. intros _ g1. apply IH.
Qed.

(** ** Variable names *)





(** ** Declarations that are nil *)

(** The first steps of [generate], each of which returns no error. *)
Lemma generate_tail rec g :
  exists g3,
    generate rec g = generateTail rec g3
    /\ delta g g3 (prologueText (options g)) [] [].
Proof.
  unfold generate, generateTail.
  assert (E1 : exists g1, writeCodeGeneratedComment g = (Ok tt, g1)
                          /\ delta g g1
                               (if GeneratorOptions.SkipCodeGeneratedComment (options g)
                                then "//" ++ nl ++ nl
                                else "// Code generated by templ - DO NOT EDIT."
                                       ++ nl ++ nl) [] []).
  { unfold writeCodeGeneratedComment.
    rewrite (bind_ok _ _ g _ _ (run_gets options g)).
    destruct (GeneratorOptions.SkipCodeGeneratedComment (options g));
      eexists; (split; [reflexivity|apply delta_Write]). }
  destruct E1 as (g1 & E1 & D1).
  assert (E2 : exists g2, writeVersionComment g1 = (Ok tt, g2)
                          /\ delta g1 g2
                               (if String.eqb (GeneratorOptions.Version (options g1)) ""
                                then ""
                                else "// templ: version: "
                                       ++ GeneratorOptions.Version (options g1) ++ nl)
                               [] []).
  { unfold writeVersionComment.
    rewrite (bind_ok _ _ g1 _ _ (run_gets options g1)).
    destruct (String.eqb (GeneratorOptions.Version (options g1)) ""); cbn [negb];
      eexists; (split; [reflexivity|]); [apply delta_refl|apply delta_Write]. }
  destruct E2 as (g2 & E2 & D2).
  assert (E3 : exists g3, writeGeneratedDateComment g2 = (Ok tt, g3)
                          /\ delta g2 g3
                               (if String.eqb (GeneratorOptions.GeneratedDate (options g2)) ""
                                then ""
                                else "// templ: generated: "
                                       ++ GeneratorOptions.GeneratedDate (options g2) ++ nl)
                               [] []).
  { unfold writeGeneratedDateComment.
    rewrite (bind_ok _ _ g2 _ _ (run_gets options g2)).
    destruct (String.eqb (GeneratorOptions.GeneratedDate (options g2)) ""); cbn [negb];
      eexists; (split; [reflexivity|]); [apply delta_refl|apply delta_Write]. }
  destruct E3 as (g3 & E3 & D3).
  exists g3. split.
  - now rewrite (bind_ok _ _ g _ _ E1), (bind_ok _ _ g1 _ _ E2), (bind_ok _ _ g2 _ _ E3).
  - rewrite (d_options _ _ _ _ _ D1) in D2.
    rewrite (d_options _ _ _ _ _ D2), (d_options _ _ _ _ _ D1) in D3.
    eapply delta_eq;
      [exact (delta_trans _ _ _ _ _ _ _ _ _ D1 (delta_trans _ _ _ _ _ _ _ _ _ D2 D3))
      |reflexivity|reflexivity|reflexivity].
Qed.

(** What a successful run from the header on went through. *)
Lemma generateTail_run fuel g :
  fst (generateTail (writeNodeFuel fuel) g) = Ok tt ->
  fst (forEach writeGoExpression (TemplateFile.Header (tf g)) g) = Ok tt
  /\ (exists g5, tf g5 = tf g
                 /\ fst (writeTemplateNodes_from (writeNodeFuel fuel) 0
                           (TemplateFile.Nodes (tf g)) g5) = Ok tt)
  /\ exists txt ls ss, delta g (snd (generateTail (writeNodeFuel fuel) g)) txt ls ss.
Proof.
  unfold generateTail.
  intros H. destruct (bind_fst_ok _ _ _ _ H) as [[] EK]. revert H.
  rewrite (bind_ok _ _ _ _ _ EK).
  assert (Hh : fst (writeHeader g) = Ok tt) by (now rewrite EK). clear EK.
  rewrite writeHeader_eq in Hh |- *.
  split; [exact Hh|]. revert H.
  rewrite (forEach_writeGoExpression (writeNodeFuel fuel) _ 0) in Hh |- *.
  destruct (writeTemplateNodes_from_run fuel _ 0 g Hh)
    as (hchunks & hls & hss & _ & DH & _ & _).
  clear Hh.
  set (g3 := snd (writeTemplateNodes_from (writeNodeFuel fuel) 0
                    (map TFGoExpression (TemplateFile.Header (tf g))) g)) in *.
  clearbody g3.
  run.
  intros H. destruct (bind_fst_ok _ _ _ _ H) as [[] EK]. revert H.
  rewrite (bind_ok _ _ _ _ _ EK). intros _.
  lazymatch type of EK with
  | writeTemplateNodes _ ?g5 = _ =>
    assert (Hn : fst (writeTemplateNodes (writeNodeFuel fuel) g5) = Ok tt)
      by (now rewrite EK);
    clear EK;
    rewrite writeTemplateNodes_eq in Hn |- *;
    destruct (writeTemplateNodes_from_run fuel _ 0 g5 Hn)
      as (nchunks & nls & nss & _ & DN & _ & _);
    assert (E5 : tf g5 = tf g)
      by (erewrite delta_tf; [|eassumption]; erewrite delta_tf; [|eassumption];
          exact (delta_tf _ _ _ _ _ DH));
    rewrite E5 in Hn;
    split; [exists g5; split; [exact E5|exact Hn]|]
  end.
  unfold writeBlankAssignmentForRuntimeImport. run. cbn [ret snd].
  eexists _, _, _. delta_chain.
Qed.

(** X7.  The text of a file that generates successfully begins with the
    comments that the options ask for: the code-generated comment, or an
    empty comment of the same shape when it is to be skipped, then the
    version and the date of generation, each only when it is set. *)
Theorem Generate_prologue fuel (template : TemplateFile.t)
  (opts : list GenerateOpt) (op : GeneratorOutput.t) (text : string) :
  Forall setsOptionsOnly opts ->
  GenerateFuel fuel template opts = (Ok op, text) ->
  exists rest, text = prologueText (GeneratorOutput.Options op) ++ rest.
Proof.
  intros F. unfold GenerateFuel. cbv zeta.
  set (g0 := mkGenerator template RangeWriter.NewRangeWriter SourceMap.NewSourceMap 0 ""
               (GeneratorOptions.mk "" "" false "")).
  destruct (forEach_opts_run opts g0 F) as (O1 & O2 & O3 & _).
  assert (EO : forEach (fun opt => opt) opts g0
               = (Ok tt, snd (forEach (fun opt => opt) opts g0))).
  { destruct (forEach (fun opt => opt) opts g0) as [r gx]. cbn in O1. now subst r. }
  rewrite (bind_ok _ _ g0 _ _ EO). clear EO O1.
  set (g1 := snd (forEach (fun opt => opt) opts g0)) in *. clearbody g1.
  subst g0. cbn [tf w] in O2, O3.
  destruct (generate (writeNodeFuel fuel) g1) as [r g2] eqn:EG.
  destruct r as [[]|e|]; intros H; [|discriminate|discriminate].
  injection H as <- <-. cbn [GeneratorOutput.Options].
  destruct (generate_tail (writeNodeFuel fuel) g1) as (g3 & Eg & D).
  assert (HT : fst (generateTail (writeNodeFuel fuel) g3) = Ok tt)
    by (now rewrite <- Eg, EG).
  destruct (generateTail_run fuel g3 HT) as (_ & _ & (txt & ls & ss & DT)).
  rewrite <- Eg, EG in DT. cbn [snd] in DT.
  pose proof (delta_trans _ _ _ _ _ _ _ _ _ D DT) as DA.
  exists txt.
  rewrite (d_options _ _ _ _ _ DA).
  pose proof (d_out _ _ _ _ _ DA) as Ho. unfold out in Ho. rewrite Ho, O3.
  reflexivity.
Qed.

(** ** The template-element parser: no match and errors *)

(** X8.  What [Parse] returns, whatever the parsers it is given do: with no
    match it returns no node and no error, also when the parser of the [@]
    itself failed, and it leaves the input where that parser left it; a match
    without an error carries a node; and a match without a node carries an
    error. *)
Theorem Parse_result_shape
  (Input : Type) (Input_Position : Input -> Position) (Brace : Type)
  (Rune_at : Parser Input string)
  (parseGo : Input -> (Expression.t * option parse.ParseError) * Input)
  (openBrace closeBrace : Parser Input Brace)
  (newTemplateNodeParser : Parser Input Brace -> string -> Parser Input (list Node))
  (pi : Input) :
  let Parse := templElementExpressionParser_Parse Input Input_Position Brace Rune_at
                 parseGo openBrace closeBrace newTemplateNodeParser in
  let n := fst (fst (fst (Parse pi))) in
  let matched := snd (fst (fst (Parse pi))) in
  let err := snd (fst (Parse pi)) in
  (matched = false <-> (snd (fst (fst (Rune_at pi))) = false \/ snd (fst (Rune_at pi)) <> None))
  /\ (matched = false -> n = None /\ err = None /\ snd (Parse pi) = snd (Rune_at pi))
  /\ (matched = true -> err = None -> exists r, n = Some (NTemplElementExpression r))
  /\ (matched = true -> n = None -> err <> None).
Proof.
  cbv zeta. unfold templElementExpressionParser_Parse.
  destruct (Rune_at pi) as [[[s m] e] pi1]. cbn [fst snd].
  destruct e as [e|]; [cbn; repeat split; try tauto; try discriminate; intros; right; discriminate|].
  destruct m; [|cbn; repeat split; try tauto; try discriminate; intros [H|H]; congruence].
  destruct (parseGo pi1) as [[ex e1] pi2].
  destruct e1 as [e1|];
    [cbn; repeat split; try discriminate; eauto; intros [H|H]; congruence|].
  destruct (openBrace pi2) as [[[b hb] e2] pi3].
  destruct e2 as [e2|];
    [cbn; repeat split; try discriminate; eauto; intros [H|H]; congruence|].
  destruct hb; cbn [negb];
    [|cbn; repeat split; try discriminate; eauto; intros [H|H]; congruence].
  destruct (newTemplateNodeParser closeBrace "templ element closing brace" pi3)
    as [[[nodes m1] e3] pi4].
  destruct e3 as [e3|];
    [cbn; repeat split; try discriminate; eauto; intros [H|H]; congruence|].
  destruct m1; [|cbn; repeat split; try discriminate; eauto; intros [H|H]; congruence].
  destruct (closeBrace pi4) as [[[b2 m2] e4] pi5].
  destruct e4 as [e4|];
    [cbn; repeat split; try discriminate; eauto; intros [H|H]; congruence|].
  destruct m2; cbn; repeat split; try discriminate; eauto; intros [H|H]; congruence.
Qed.

(** X9.  The errors of [Parse] after the [@]: an error of the Go
    expression parser is returned with the node; an error of the open brace
    parser is returned with a match and without the node; and when the node
    parser fails or finds no node after an open brace, the node has the
    nodes parsed so far as children and the error says that nodes were
    expected. *)
Theorem Parse_error_paths
  (Input : Type) (Input_Position : Input -> Position) (Brace : Type)
  (Rune_at : Parser Input string)
  (parseGo : Input -> (Expression.t * option parse.ParseError) * Input)
  (openBrace closeBrace : Parser Input Brace)
  (newTemplateNodeParser : Parser Input Brace -> string -> Parser Input (list Node))
  (pi pi1 pi2 : Input) (at_sign : string) (e : Expression.t)
  (goErr : option parse.ParseError) :
  Rune_at pi = ((at_sign, true, None), pi1) ->
  parseGo pi1 = ((e, goErr), pi2) ->
  let Parse := templElementExpressionParser_Parse Input Input_Position Brace Rune_at
                 parseGo openBrace closeBrace newTemplateNodeParser in
  (forall err, goErr = Some err ->
      Parse pi
      = ((Some (NTemplElementExpression (TemplElementExpression.mk e [])), true,
          Some err), pi2))
  /\ (forall b hasOpenBrace err pi3,
         goErr = None ->
         openBrace pi2 = ((b, hasOpenBrace, Some err), pi3) ->
         Parse pi = ((None, true, Some err), pi3))
  /\ (forall b pi3 r pi4,
         goErr = None ->
         openBrace pi2 = ((b, true, None), pi3) ->
         newTemplateNodeParser closeBrace "templ element closing brace" pi3 = (r, pi4) ->
         not_found r ->
         Parse pi
         = ((Some (NTemplElementExpression
                     (TemplElementExpression.mk e (fst (fst r)))), true,
             Some (parse.Error
                     ("@" ++ Expression.Value e ++ ": expected nodes, but none were found")
                     (Input_Position pi4))),
            pi4)).
Proof.
  intros Hat Hgo Parse. subst Parse.
  unfold templElementExpressionParser_Parse. rewrite Hat, Hgo.
  split; [|split].
  - intros err ->. reflexivity.
  - intros b hb err pi3 -> Hopen. rewrite Hopen. reflexivity.
  - intros b pi3 r pi4 -> Hopen Hnodes Hmissing. rewrite Hopen. cbn [negb].
    rewrite Hnodes. destruct r as [[nodes m] err].
    destruct Hmissing as [Herr|Hm]; cbn in *.
    + destruct err; [reflexivity|congruence].
    + subst m. destruct err; reflexivity.
Qed.

(** ** The file name option *)



(** ** Escaping for Go string literals *)

Lemma goUnescape_goEscapeByte (c : ascii) (t : string) :
  (byteZ c <? 128) = true ->
  goUnescape (goEscapeByte c ++ t) = String c (goUnescape t).
Proof.
  destruct c as [[] [] [] [] [] [] [] []]; intros H;
    try discriminate H; reflexivity.
Qed.

Lemma goUnescape_goEscapeASCII (s : string) :
  isASCII s = true -> goUnescape (goEscapeASCII s) = s.
Proof.
  induction s as [|c s IH]; intros H; [reflexivity|].
  cbn [isASCII] in H. apply andb_true_iff in H as [Hc Hs].
  cbn [goEscapeASCII]. rewrite goUnescape_goEscapeByte by exact Hc.
  now rewrite IH.
Qed.

Lemma printableASCII_app (a b : string) :
  printableASCII (a ++ b) = printableASCII a && printableASCII b.
Proof.
  induction a as [|c a IH]; [reflexivity|]. cbn [append printableASCII].
  rewrite IH. now rewrite andb_assoc.
Qed.

Lemma printableASCII_goEscapeByte (c : ascii) :
  (byteZ c <? 128) = true -> printableASCII (goEscapeByte c) = true.
Proof.
  destruct c as [[] [] [] [] [] [] [] []]; intros H;
    try discriminate H; vm_compute; reflexivity.
Qed.

Lemma printableASCII_goEscapeASCII (s : string) :
  isASCII s = true -> printableASCII (goEscapeASCII s) = true.
Proof.
  induction s as [|c s IH]; intros H; [reflexivity|].
  cbn [isASCII] in H. apply andb_true_iff in H as [Hc Hs].
  cbn [goEscapeASCII]. rewrite printableASCII_app, printableASCII_goEscapeByte by exact Hc.
  now apply IH.
Qed.

(** X11.  On ASCII text [escapeQuotes] loses nothing and writes printable
    characters only: read back as the body of a Go string literal the
    result is the text, so two texts are escaped to the same string only
    when they are the same, and no byte of the result is a control character
    or a newline. *)
Theorem escapeQuotes_ascii_round_trip (s1 s2 : string) :
  isASCII s1 = true -> isASCII s2 = true ->
  goUnescape (escapeQuotes s1) = s1
  /\ printableASCII (escapeQuotes s1) = true
  /\ (escapeQuotes s1 = escapeQuotes s2 -> s1 = s2).
Proof.
  intros H1 H2. rewrite !escapeQuotes_ascii by assumption.
  split; [now apply goUnescape_goEscapeASCII|].
  split; [now apply printableASCII_goEscapeASCII|].
  intros E. apply (f_equal goUnescape) in E.
  now rewrite !goUnescape_goEscapeASCII in E by assumption.
Qed.

(** ** Go strings in backticks *)

Lemma Split_not_nil (s : string) (c : ascii) : strings.Split s c <> [].
Proof.
  induction s as [|x s IH]; cbn [strings.Split]; [discriminate|].
  destruct (Ascii.eqb x c); [discriminate|].
  destruct (strings.Split s c); [congruence|discriminate].
Qed.

Lemma Join_cons (e : string) (r : list string) (sep : string) :
  r <> [] -> strings.Join (e :: r) sep = e ++ sep ++ strings.Join r sep.
Proof. destruct r; [congruence|reflexivity]. Qed.

Lemma Join_Split (s : string) (c : ascii) :
  strings.Join (strings.Split s c) (String c "") = s.
Proof.
  induction s as [|x s IH]; [reflexivity|]. cbn [strings.Split].
  pose proof (Split_not_nil s c) as Hne.
  destruct (Ascii.eqb_spec x c) as [->|Hx].
  - rewrite Join_cons by exact Hne. rewrite IH. reflexivity.
  - destruct (strings.Split s c) as [|h r] eqn:E; [congruence|].
    destruct r as [|h' r].
    + cbn [strings.Join] in *. now rewrite IH.
    + rewrite Join_cons by discriminate. rewrite Join_cons in IH by discriminate.
      cbn [append] in IH |- *. f_equal. exact IH.
Qed.

Lemma Split_no_separator (s : string) (c : ascii) :
  Forall (fun p => hasByte c p = false) (strings.Split s c).
Proof.
  induction s as [|x s IH]; cbn [strings.Split].
  - constructor; [reflexivity|constructor].
  - destruct (Ascii.eqb x c) eqn:Ex.
    + constructor; [reflexivity|exact IH].
    + destruct (strings.Split s c) as [|h r]; inversion IH; subst.
      * constructor; [cbn [hasByte]; now rewrite Ex|constructor].
      * constructor; [cbn [hasByte]; now rewrite Ex|assumption].
Qed.

Lemma createGoString_sects_Join (sects : list string) :
  createGoString_sects sects = strings.Join sects backtickSeparator.
Proof.
  induction sects as [|x rest IH]; [reflexivity|]. cbn [createGoString_sects].
  destruct rest as [|y rest].
  - cbn [length Nat.leb createGoString_sects strings.Join]. now rewrite !sapp_nil_r.
  - rewrite Join_cons by discriminate. cbn [length Nat.leb]. now rewrite IH.
Qed.

(** X12.  [createGoString] writes its text as raw Go strings: the text is
    cut at its backticks, each piece is put between backticks and has no
    backtick itself, and the pieces are joined by a backtick written as an
    interpreted string, so the pieces with a backtick between them are the
    text again. *)
Theorem createGoString_sections (s : string) :
  let sects := strings.Split s (ascii_of_nat 96) in
  createGoString s = bt ++ strings.Join sects backtickSeparator ++ bt
  /\ Forall (fun p => hasByte (ascii_of_nat 96) p = false) sects
  /\ strings.Join sects bt = s
  /\ sects <> [].
Proof.
  cbv zeta. unfold createGoString. rewrite createGoString_sects_Join.
  split; [reflexivity|]. split; [apply Split_no_separator|].
  split; [apply (Join_Split s (ascii_of_nat 96))|apply Split_not_nil].
Qed.

(** ** Node emission only appends *)

(** X13.  Whatever the node, and whether it returns an error or not,
    [writeNode] only appends: the text written before is kept and new text
    comes after it, the literals recorded before are kept and new ones come
    after them, and the symbol ranges, the template file and the options
    are as they were. *)
Theorem writeNode_appends fuel lvl (current : Node) (next : option Node)
  (g : generator) :
  let g' := snd (writeNodeFuel fuel lvl current next g) in
  exists txt ls,
    out g' = out g ++ txt
    /\ lits g' = (lits g ++ ls)%list
    /\ cur g' = RangeWriter.advance (cur g) txt
    /\ syms g' = syms g
    /\ tf g' = tf g
    /\ options g' = options g.
Proof.
  cbv zeta. destruct (pres_writeNodeFuel fuel lvl current next g) as (txt & ls & D & _).
  exists txt, ls. destruct D as [D1 D2 D3 D4 D5 D6].
  rewrite app_nil_r in D6. auto 7.
Qed.

(** ** The error of a node and its trailing space *)

Lemma writeNode_fst rec lvl current next g :
  fst (writeNode_switch rec lvl current next g) <> OutOfFuel ->
  fst (writeNode rec lvl current next g) = fst (writeNode_switch rec lvl current next g).
Proof.
  intros Hfuel.
  destruct current;
    lazymatch goal with
    | |- context [writeNode _ _ (NGoComment _)] => reflexivity
    | |- _ =>
      unfold writeNode, bind, attempt;
      destruct (writeNode_switch rec lvl _ next g) as [[[]|e|] g1];
      cbn [fst snd] in *; try congruence;
      cbn [Trailing isInlineOrText andb];
      try reflexivity
    end.
  all: try (destruct (Element.TrailingSpace n), (negb (Element.IsBlockElement n)),
              (isInlineOrText next); reflexivity).
  all: try (destruct (StringExpression.TrailingSpace n), (isInlineOrText next);
            reflexivity).
  all: try (destruct (GoCode.TrailingSpace n); reflexivity).
  all: try (destruct (Text.TrailingSpace n), (isInlineOrText next); reflexivity).
Qed.


(** ** When generation succeeds *)

Lemma settles_total {A} (m : M A) : total m -> settles m true.
Proof.
  intros H g. destruct (H g) as [a Ha]. rewrite Ha. split; [discriminate|reflexivity].
Qed.

Lemma settles_ret {A} (a : A) : settles (ret a) true.
Proof. intros g. split; [discriminate|reflexivity]. Qed.

Lemma settles_raise {A} (e : error) : settles (@raise A e) false.
Proof. intros g. split; [discriminate|reflexivity]. Qed.

Lemma settles_bind {A B} (m : M A) (f : A -> M B) (b1 b2 : bool) :
  settles m b1 -> (forall a, settles (f a) b2) -> settles (bind m f) (b1 && b2).
Proof.
  intros Hm Hf g. destruct (Hm g) as [H1 H2]. unfold bind.
  destruct (m g) as [[a|e|] g1]; cbn [fst succeeded] in *.
  - subst b1. apply Hf.
  - subst b1. split; [discriminate|reflexivity].
  - congruence.
Qed.

Lemma settles_eq {A} (m : M A) (b b' : bool) : settles m b -> b = b' -> settles m b'.
Proof. now intros H <-. Qed.

Lemma settles_bind_total {A B} (m : M A) (f : A -> M B) (b : bool) :
  total m -> (forall a, settles (f a) b) -> settles (bind m f) b.
Proof.
  intros Hm Hf. apply (settles_bind m f true b); [now apply settles_total|exact Hf].
Qed.

Lemma settles_bind_then_total {A B} (m : M A) (f : A -> M B) (b : bool) :
  settles m b -> (forall a, total (f a)) -> settles (bind m f) b.
Proof.
  intros Hm Hf. eapply settles_eq.
  - apply (settles_bind m f b true); [exact Hm|intros a; apply settles_total, Hf].
  - apply andb_true_r.
Qed.

Lemma settles_forEach {A} (f : A -> M unit) (p : A -> bool) (xs : list A) :
  (forall x, In x xs -> settles (f x) (p x)) ->
  settles (forEach f xs) (forallb p xs).
Proof.
  induction xs as [|x xs IH]; intros H; cbn [forEach forallb]; [apply settles_ret|].
  apply settles_bind; [apply H; now left|intros _; apply IH].
  intros y Hy. apply H. now right.
Qed.

Lemma settles_writeNodes rec lvl nodes : forall next,
  (forall n, In n nodes -> forall lvl next, settles (rec lvl n next) (knownScripts n)) ->
  settles (writeNodes rec lvl nodes next) (forallb knownScripts nodes).
Proof.
  induction nodes as [|n nodes IH]; intros next H; cbn [writeNodes forallb];
    [apply settles_ret|].
  apply settles_bind; [apply H; now left|intros _; apply IH].
  intros y Hy. apply H. now right.
Qed.

Lemma list_max_by_In {A} (f : A -> nat) (l : list A) (x : A) :
  In x l -> (f x <= list_max_by f l)%nat.
Proof.
  unfold list_max_by. induction l as [|y l IH]; intros H; [contradiction|].
  cbn [fold_right]. destruct H as [->|H]; [lia|]. specialize (IH H). lia.
Qed.

Lemma edges_decomposition (nodes : list Node) :
  exists pre post,
    nodes = (pre ++ stripLeadingAndTrailingWhitespace nodes ++ post)%list
    /\ Forall (fun n => isWhitespace n = true) pre
    /\ Forall (fun n => isWhitespace n = true) post.
Proof.
  unfold stripLeadingAndTrailingWhitespace, stripTrailingWhitespace.
  destruct (stripLeadingWhitespace_spec nodes) as (pre & H1 & H2 & _).
  destruct (stripTrailingWhitespace_from_spec (stripLeadingWhitespace nodes)
              (length (stripLeadingWhitespace nodes))) as (post & P1 & P2 & _).
  { rewrite skipn_all. constructor. }
  exists pre, post. split; [congruence|]. split; assumption.
Qed.

Lemma In_edges (nodes : list Node) (n : Node) :
  In n (stripLeadingAndTrailingWhitespace nodes) -> In n nodes.
Proof.
  intros H. destruct (edges_decomposition nodes) as (pre & post & E & _).
  rewrite E. apply in_or_app. right. apply in_or_app. now left.
Qed.

Lemma In_stripWhitespace (nodes : list Node) (n : Node) :
  In n (stripWhitespace nodes) -> In n nodes.
Proof. rewrite stripWhitespace_filter, filter_In. tauto. Qed.

Lemma forallb_whitespace (l : list Node) :
  Forall (fun n => isWhitespace n = true) l -> forallb knownScripts l = true.
Proof.
  induction 1 as [|n l Hn F IH]; [reflexivity|]. cbn [forallb]. rewrite IH.
  destruct n; try discriminate Hn. reflexivity.
Qed.

Lemma forallb_edges (nodes : list Node) :
  forallb knownScripts (stripLeadingAndTrailingWhitespace nodes)
  = forallb knownScripts nodes.
Proof.
  destruct (edges_decomposition nodes) as (pre & post & E & Fpre & Fpost).
  rewrite E at 2. rewrite !forallb_app.
  rewrite (forallb_whitespace pre Fpre), (forallb_whitespace post Fpost).
  now rewrite andb_true_r.
Qed.

Lemma forallb_stripWhitespace (nodes : list Node) :
  forallb knownScripts (stripWhitespace nodes) = forallb knownScripts nodes.
Proof.
  induction nodes as [|n nodes IH]; [reflexivity|]. cbn [stripWhitespace forallb].
  destruct n; cbn [isWhitespace negb forallb knownScripts]; rewrite IH; reflexivity.
Qed.

(** The writers that call no other node writer return no error. *)
Lemma total_writeWhitespaceTrailer lvl ts : total (writeWhitespaceTrailer lvl ts).
Proof. unfold writeWhitespaceTrailer. total_tac. Qed.

Lemma total_writeDocType lvl n : total (writeDocType lvl n).
Proof. unfold writeDocType. total_tac. Qed.

Lemma total_writeChildrenExpression lvl : total (writeChildrenExpression lvl).
Proof. unfold writeChildrenExpression. total_tac. Qed.

Lemma total_writeSelfClosingTemplElementExpression lvl n :
  total (writeSelfClosingTemplElementExpression lvl n).
Proof. unfold writeSelfClosingTemplElementExpression. total_tac. Qed.

Lemma total_writeCallTemplateExpression lvl n : total (writeCallTemplateExpression lvl n).
Proof. unfold writeCallTemplateExpression. total_tac. Qed.

Lemma total_writeGoCode lvl e : total (writeGoCode lvl e).
Proof. unfold writeGoCode. total_tac. Qed.

Lemma total_writeStringExpression lvl e : total (writeStringExpression lvl e).
Proof. unfold writeStringExpression. total_tac. Qed.

Lemma total_writeWhitespace lvl n : total (writeWhitespace lvl n).
Proof. unfold writeWhitespace. total_tac. Qed.

Lemma total_writeText lvl n : total (writeText lvl n).
Proof. unfold writeText. total_tac. Qed.

#[local] Hint Resolve total_writeText total_writeWhitespaceTrailer : total.

Lemma total_writeComment lvl c : total (writeComment lvl c).
Proof. unfold writeComment. total_tac. Qed.

Lemma total_writeRawElement lvl n : total (writeRawElement lvl n).
Proof. unfold writeRawElement. total_tac. Qed.

Lemma total_writeOpenTag lvl n : total (writeOpenTag lvl n).
Proof. unfold writeOpenTag. total_tac. Qed.

#[local] Hint Resolve total_writeDocType total_writeChildrenExpression
  total_writeSelfClosingTemplElementExpression total_writeCallTemplateExpression
  total_writeGoCode total_writeStringExpression total_writeWhitespace
  total_writeComment total_writeRawElement total_writeOpenTag : total.

(** Pass over the steps at the front that return no error. *)
Ltac settles_front :=
  repeat (apply settles_bind_total; [solve [total_tac]|intros ?]).

Lemma settles_writeScriptContents lvl c :
  settles (writeScriptContents lvl c) (knownContent c).
Proof.
  unfold writeScriptContents, knownContent.
  destruct (ScriptContents.Value c) as [v|].
  - apply settles_total. total_tac.
  - destruct (ScriptContents.GoCode c) as [code|]; [|apply settles_raise].
    apply settles_total. total_tac.
Qed.

Lemma settles_writeScriptElement lvl n :
  settles (writeScriptElement lvl n) (forallb knownContent (ScriptElement.Contents n)).
Proof.
  unfold writeScriptElement. settles_front.
  apply settles_bind_then_total; [|intros _; total_tac].
  apply settles_forEach. intros c _. apply settles_writeScriptContents.
Qed.

Section SettlesVisitor.

Variable rec : nat -> Node -> option Node -> M unit.
Variable bound : nat.
Hypothesis settles_rec :
  forall c, (depth c < bound)%nat ->
            forall lvl next, settles (rec lvl c next) (knownScripts c).

Lemma settles_children lvl (children : list Node) next :
  (list_max_by depth children < bound)%nat ->
  settles (writeNodes rec lvl children next) (forallb knownScripts children).
Proof.
  intros Hd. apply settles_writeNodes. intros n Hn lvl' next'. apply settles_rec.
  pose proof (list_max_by_In depth children n Hn). lia.
Qed.

Lemma settles_edges lvl (children : list Node) next :
  (list_max_by depth children < bound)%nat ->
  settles (writeNodes rec lvl (stripLeadingAndTrailingWhitespace children) next)
    (forallb knownScripts children).
Proof.
  intros Hd. eapply settles_eq; [|apply forallb_edges].
  apply settles_writeNodes. intros n Hn lvl' next'. apply settles_rec.
  pose proof (list_max_by_In depth children n (In_edges _ _ Hn)). lia.
Qed.

Lemma settles_writeElement lvl (n : Element.t Node) :
  (list_max_by depth (Element.Children n) < bound)%nat ->
  settles (writeElement rec lvl n) (forallb knownScripts (Element.Children n)).
Proof.
  intros Hd. rewrite writeElement_split.
  apply settles_bind_total; [apply total_writeOpenTag|intros _].
  destruct (Element.Children n) as [|c cs] eqn:E.
  - cbn [length Nat.eqb forallb]. destruct (Element.IsVoidElement n); cbn [andb].
    + apply settles_ret.
    + cbn [stripWhitespace writeNodes]. apply settles_total. total_tac.
  - cbn [length Nat.eqb]. rewrite andb_false_r.
    apply settles_bind_then_total; [|intros _; total_tac].
    eapply settles_eq; [|apply forallb_stripWhitespace].
    apply settles_writeNodes. intros x Hx lvl' next'. apply settles_rec.
    pose proof (list_max_by_In depth (c :: cs) x (In_stripWhitespace _ _ Hx)). lia.
Qed.

Lemma settles_writeForExpression lvl (n : ForExpression.t Node) next :
  (list_max_by depth (ForExpression.Children n) < bound)%nat ->
  settles (writeForExpression rec lvl n next)
    (forallb knownScripts (ForExpression.Children n)).
Proof.
  intros Hd. unfold writeForExpression. settles_front.
  apply settles_bind_then_total; [|intros _; total_tac].
  now apply settles_edges.
Qed.

Lemma settles_writeTemplElementExpression lvl (n : TemplElementExpression.t Node) :
  (list_max_by depth (TemplElementExpression.Children n) < bound)%nat ->
  settles (writeTemplElementExpression rec lvl n)
    (forallb knownScripts (TemplElementExpression.Children n)).
Proof.
  intros Hd. unfold writeTemplElementExpression.
  destruct (TemplElementExpression.Children n) as [|c cs] eqn:E; cbn [length Nat.eqb].
  - apply settles_total. apply total_writeSelfClosingTemplElementExpression.
  - unfold writeBlockTemplElementExpression. rewrite E. settles_front.
    apply settles_bind_then_total; [|intros _; total_tac].
    now apply settles_edges.
Qed.

Lemma settles_writeElseIf lvl next (ei : ElseIfExpression.t Node) :
  (list_max_by depth (ElseIfExpression.Then ei) < bound)%nat ->
  settles (writeElseIf rec lvl next ei)
    (forallb knownScripts (ElseIfExpression.Then ei)).
Proof. intros Hd. unfold writeElseIf. settles_front. now apply settles_edges. Qed.

Lemma settles_writeCase lvl next (c : CaseExpression.t Node) :
  (list_max_by depth (CaseExpression.Children c) < bound)%nat ->
  settles (writeCase rec lvl next c)
    (forallb knownScripts (CaseExpression.Children c)).
Proof. intros Hd. unfold writeCase. settles_front. now apply settles_edges. Qed.

Lemma settles_writeIfExpression lvl (n : IfExpression.t Node) next :
  (Nat.max (list_max_by depth (IfExpression.Then n))
     (Nat.max
        (list_max_by (fun ei => list_max_by depth (ElseIfExpression.Then ei))
           (IfExpression.ElseIfs n))
        (list_max_by depth (IfExpression.Else n))) < bound)%nat ->
  settles (writeIfExpression rec lvl n next)
    (forallb knownScripts (IfExpression.Then n)
     && forallb (fun ei => forallb knownScripts (ElseIfExpression.Then ei))
          (IfExpression.ElseIfs n)
     && forallb knownScripts (IfExpression.Else n)).
Proof.
  intros Hd. unfold writeIfExpression. settles_front.
  rewrite <- andb_assoc.
  apply settles_bind; [apply settles_edges; lia|intros _].
  apply settles_bind.
  - apply settles_forEach. intros ei Hei. apply settles_writeElseIf.
    pose proof (list_max_by_In
                  (fun ei => list_max_by depth (ElseIfExpression.Then ei))
                  (IfExpression.ElseIfs n) ei Hei) as H. cbv beta in H. lia.
  - intros _. apply settles_bind_then_total; [|intros _; total_tac].
    destruct (IfExpression.Else n) as [|c cs] eqn:E; cbn [length Nat.ltb Nat.leb].
    + apply settles_ret.
    + apply settles_bind_total; [total_tac|intros _].
      rewrite <- E. apply settles_edges. rewrite E in *. lia.
Qed.

Lemma settles_writeSwitchExpression lvl (n : SwitchExpression.t Node) next :
  (list_max_by (fun c => list_max_by depth (CaseExpression.Children c))
     (SwitchExpression.Cases n) < bound)%nat ->
  settles (writeSwitchExpression rec lvl n next)
    (forallb (fun c => forallb knownScripts (CaseExpression.Children c))
       (SwitchExpression.Cases n)).
Proof.
  intros Hd. unfold writeSwitchExpression. settles_front.
  apply settles_bind_then_total; [|intros _; total_tac].
  destruct (SwitchExpression.Cases n) as [|c cs] eqn:E; cbn [length Nat.ltb Nat.leb].
  - apply settles_ret.
  - rewrite <- E. apply settles_forEach. intros x Hx. apply settles_writeCase.
    rewrite <- E in Hd.
    pose proof (list_max_by_In
                  (fun c => list_max_by depth (CaseExpression.Children c))
                  (SwitchExpression.Cases n) x Hx) as H. cbv beta in H. lia.
Qed.

Lemma settles_writeNode_switch lvl (n : Node) next :
  (depth n <= bound)%nat ->
  settles (writeNode_switch rec lvl n next) (knownScripts n).
Proof.
  intros Hd.
  destruct n; cbn [writeNode_switch knownScripts depth] in *;
    try (apply settles_total; solve [eauto with total]).
  - apply settles_writeElement. lia.
  - apply settles_writeScriptElement.
  - apply settles_writeForExpression. lia.
  - apply settles_writeTemplElementExpression. lia.
  - apply settles_writeIfExpression. lia.
  - apply settles_writeSwitchExpression. lia.
Qed.

End SettlesVisitor.

Lemma settles_writeNode rec lvl n next b :
  settles (writeNode_switch rec lvl n next) b -> settles (writeNode rec lvl n next) b.
Proof.
  intros H g. destruct (H g) as [H1 H2].
  rewrite (writeNode_fst rec lvl n next g H1). auto.
Qed.

Lemma settles_writeNodeFuel : forall fuel (n : Node),
  (depth n < fuel)%nat ->
  forall lvl next, settles (writeNodeFuel fuel lvl n next) (knownScripts n).
Proof.
  induction fuel as [|fuel IH]; intros n Hd lvl next; [lia|].
  cbn [writeNodeFuel]. apply settles_writeNode.
  apply (settles_writeNode_switch (writeNodeFuel fuel) fuel); [|lia].
  intros c Hc lvl' next'. now apply IH.
Qed.

Lemma total_set_childrenVar v : total (set_childrenVar v).
Proof. intros g. eexists. reflexivity. Qed.

Lemma total_sourceMap_AddSymbolRange a b : total (sourceMap_AddSymbolRange a b).
Proof. intros g. eexists. reflexivity. Qed.

#[local] Hint Resolve total_set_childrenVar total_sourceMap_AddSymbolRange
  total_writeCSSProperty : total.

Lemma settles_writeTemplate fuel i (t : HTMLTemplate.t) :
  (list_max_by depth (HTMLTemplate.Children t) < fuel)%nat ->
  settles (writeTemplate (writeNodeFuel fuel) i (Some t))
    (forallb knownScripts (HTMLTemplate.Children t)).
Proof.
  intros Hd. unfold writeTemplate. cbv zeta. settles_front.
  apply settles_bind_then_total; [|intros _; total_tac].
  eapply settles_eq; [|apply forallb_stripWhitespace].
  apply settles_writeNodes. intros x Hx lvl' next'. apply settles_writeNodeFuel.
  pose proof (list_max_by_In depth _ x (In_stripWhitespace _ _ Hx)). lia.
Qed.

Lemma total_writeGoExpression e : total (writeGoExpression (Some e)).
Proof. unfold writeGoExpression. cbv zeta. total_tac. Qed.

Lemma total_writeCSS t : total (writeCSS (Some t)).
Proof. unfold writeCSS. cbv zeta. total_tac. Qed.

Lemma total_writeScript t : total (writeScript (Some t)).
Proof. unfold writeScript. cbv zeta. total_tac. Qed.

Lemma settles_writeTemplateNode fuel i (n : TemplateFileNode) :
  (TemplateFileNode_depth n < fuel)%nat ->
  settles (writeTemplateNode (writeNodeFuel fuel) i n) (writable n).
Proof.
  intros Hd.
  destruct n as [[e|]|[t|]|[t|]|[t|]];
    cbn [writeTemplateNode writable isNil negb TemplateFileNode_depth] in *.
  - apply settles_total, total_writeGoExpression.
  - apply settles_raise.
  - now apply settles_writeTemplate.
  - apply settles_raise.
  - apply settles_total, total_writeCSS.
  - apply settles_raise.
  - apply settles_total, total_writeScript.
  - apply settles_raise.
Qed.

Lemma settles_writeTemplateNodes_from fuel nodes : forall i,
  (list_max_by TemplateFileNode_depth nodes < fuel)%nat ->
  settles (writeTemplateNodes_from (writeNodeFuel fuel) i nodes) (forallb writable nodes).
Proof.
  induction nodes as [|n nodes IH]; intros i Hd;
    cbn [writeTemplateNodes_from forallb]; [apply settles_ret|].
  unfold list_max_by in Hd. cbn [fold_right] in Hd. fold (list_max_by TemplateFileNode_depth nodes) in Hd.
  apply settles_bind.
  - apply settles_writeTemplateNode. lia.
  - intros _. apply IH. lia.
Qed.

Lemma settles_header (hs : list (option TemplateFileGoExpression.t)) :
  settles (forEach writeGoExpression hs)
    (forallb (fun h => writable (TFGoExpression h)) hs).
Proof.
  apply settles_forEach. intros [e|] _; cbn [writable isNil negb].
  - apply settles_total, total_writeGoExpression.
  - apply settles_raise.
Qed.

Lemma settled_bind_then_total {A B} (m : M A) (f : A -> M B) (g : generator) (b : bool) :
  fst (m g) <> OutOfFuel /\ succeeded (fst (m g)) = b ->
  (forall a, total (f a)) ->
  fst (bind m f g) <> OutOfFuel /\ succeeded (fst (bind m f g)) = b.
Proof.
  intros [H1 H2] Hf. unfold bind. destruct (m g) as [[a|e|] g1]; cbn [fst succeeded] in *.
  - destruct (Hf a g1) as [x Hx]. rewrite Hx. split; [discriminate|exact H2].
  - split; [discriminate|exact H2].
  - congruence.
Qed.

Lemma generate_settles fuel g :
  (TemplateFile_depth (tf g) < fuel)%nat ->
  fst (generate (writeNodeFuel fuel) g) <> OutOfFuel
  /\ succeeded (fst (generate (writeNodeFuel fuel) g)) = writableFile (tf g).
Proof.
  intros Hd. destruct (generate_tail (writeNodeFuel fuel) g) as (g3 & Eg & D).
  rewrite Eg. pose proof (delta_tf _ _ _ _ _ D) as E3. rewrite <- E3 in *. clear Eg D E3 g.
  unfold generateTail, writableFile.
  destruct (settles_header (TemplateFile.Header (tf g3)) g3) as [N1 S1].
  rewrite <- writeHeader_eq in N1, S1.
  destruct (writeHeader g3) as [[[]|e|] g4] eqn:E4; cbn [fst succeeded] in *.
  - rewrite (bind_ok _ _ g3 _ _ E4). rewrite <- S1. cbn [andb].
    assert (E4' : tf g4 = tf g3).
    { assert (Hh : fst (forEach writeGoExpression (TemplateFile.Header (tf g3)) g3) = Ok tt)
        by (now rewrite <- writeHeader_eq, E4).
      rewrite (forEach_writeGoExpression (writeNodeFuel fuel) _ 0) in Hh.
      destruct (writeTemplateNodes_from_run fuel _ 0 g3 Hh) as (c & l & s & _ & DH & _).
      rewrite <- (forEach_writeGoExpression (writeNodeFuel fuel) _ 0) in DH.
      rewrite <- writeHeader_eq, E4 in DH. exact (delta_tf _ _ _ _ _ DH). }
    run.
    apply settled_bind_then_total;
      [|intros _; unfold writeBlankAssignmentForRuntimeImport; total_tac].
    rewrite writeTemplateNodes_eq.
    lazymatch goal with
    | |- context [writeTemplateNodes_from _ 0 (TemplateFile.Nodes (tf ?g6)) ?g6] =>
      assert (E6 : tf g6 = tf g3)
        by (erewrite delta_tf; [|eassumption]; erewrite delta_tf; [|eassumption];
            exact E4');
      rewrite E6
    end.
    apply settles_writeTemplateNodes_from. exact Hd.
  - unfold bind. rewrite E4. cbn [fst succeeded]. rewrite <- S1.
    split; [discriminate|reflexivity].
  - congruence.
Qed.

(** X15.  When [Generate] succeeds, for a writer that takes every write:
    exactly for the files in which no Go expression of the header and no
    top-level node is a nil pointer and in which every content of every
    script element, at any depth of the HTML templates, is a value or Go
    code.  For every other file it returns an error.  The fuel that
    [Generate] gives to the model is enough for every file. *)
Theorem Generate_succeeds_iff_writable (template : TemplateFile.t)
  (opts : list GenerateOpt) :
  Forall setsOptionsOnly opts ->
  fst (Generate template opts) <> OutOfFuel
  /\ succeeded (fst (Generate template opts)) = writableFile template.
Proof.
  intros F. unfold Generate, GenerateFuel. cbv zeta.
  set (g0 := mkGenerator template RangeWriter.NewRangeWriter SourceMap.NewSourceMap 0 ""
               (GeneratorOptions.mk "" "" false "")).
  destruct (forEach_opts_run opts g0 F) as (O1 & O2 & _ & _).
  assert (EO : forEach (fun opt => opt) opts g0
               = (Ok tt, snd (forEach (fun opt => opt) opts g0))).
  { destruct (forEach (fun opt => opt) opts g0) as [r gx]. cbn in O1. now subst r. }
  rewrite (bind_ok _ _ g0 _ _ EO). clear EO O1.
  set (g1 := snd (forEach (fun opt => opt) opts g0)) in *. clearbody g1.
  subst g0. cbn [tf] in O2.
  destruct (generate_settles (S (TemplateFile_depth template)) g1) as [N HS].
  { rewrite O2. lia. }
  rewrite O2 in HS.
  destruct (generate (writeNodeFuel (S (TemplateFile_depth template))) g1)
    as [[[]|e|] g2]; cbn [fst succeeded] in *.
  - split; [discriminate|exact HS].
  - split; [discriminate|exact HS].
  - congruence.
Qed.

End Generator.

(** * Witnesses and counterexamples on concrete inputs *)

(** C8 at the inputs [@Foo()], [@Foo() {] and [@Foo() { }].  With a node
    parser that stops only in front of its terminator the first is
    self-closing, the second lacks the nodes and the third is closed; with a
    node parser that returns at the end of the input the second lacks its
    end. *)
Lemma Parse_self_closing_and_missing_end_witness :
  toy_Parse_until (0%nat, "@Foo()")
  = ((Some (NTemplElementExpression (TemplElementExpression.mk (expr "Foo()") [])),
      true, None), (6%nat, ""))
  /\ toy_Parse_until (0%nat, "@Foo() {")
     = ((Some (NTemplElementExpression (TemplElementExpression.mk (expr "Foo()") [])),
         true,
         Some (parse.Error "@Foo(): expected nodes, but none were found"
                 (toy_Position (8%nat, "")))), (8%nat, ""))
  /\ (exists msg,
         msg = "@Foo(): missing end (expected '}')"
         /\ toy_Parse (0%nat, "@Foo() {")
            = ((Some (NTemplElementExpression
                        (TemplElementExpression.mk (expr "Foo()") [])),
                true, Some (parse.Error msg (toy_Position (8%nat, "")))), (8%nat, ""))
         /\ Contains msg "missing end (expected '}')")
  /\ toy_Parse_until (0%nat, "@Foo() { }")
     = ((Some (NTemplElementExpression (TemplElementExpression.mk (expr "Foo()") [])),
         true, None), (10%nat, "")).
Proof.
  pose proof (Parse_self_closing_and_missing_end toyInput toy_Position unit
                (toy_rune "@") toy_parseGo (toy_brace "{") (toy_brace "}")
                toy_untilNodeParser
                (0%nat, "@Foo()") (1%nat, "Foo()") (6%nat, "") "@" (expr "Foo()")
                eq_refl eq_refl) as [H1 _].
  pose proof (Parse_self_closing_and_missing_end toyInput toy_Position unit
                (toy_rune "@") toy_parseGo (toy_brace "{") (toy_brace "}")
                toy_untilNodeParser
                (0%nat, "@Foo() {") (1%nat, "Foo() {") (6%nat, " {") "@" (expr "Foo()")
                eq_refl eq_refl) as [_ [H2 _]].
  pose proof (Parse_self_closing_and_missing_end toyInput toy_Position unit
                (toy_rune "@") toy_parseGo (toy_brace "{") (toy_brace "}") toy_nodeParser
                (0%nat, "@Foo() {") (1%nat, "Foo() {") (6%nat, " {") "@" (expr "Foo()")
                eq_refl eq_refl) as [_ [_ [H3 _]]].
  pose proof (Parse_self_closing_and_missing_end toyInput toy_Position unit
                (toy_rune "@") toy_parseGo (toy_brace "{") (toy_brace "}")
                toy_untilNodeParser
                (0%nat, "@Foo() { }") (1%nat, "Foo() { }") (6%nat, " { }") "@"
                (expr "Foo()") eq_refl eq_refl) as [_ [_ [_ H4]]].
  split; [|split; [|split]].
  - exact (H1 tt (6%nat, "") eq_refl).
  - exact (H2 tt (8%nat, "")
             ([], false,
              Some (parse.Error "templ element closing brace not found"
                      (toy_Position (8%nat, ""))))
             (8%nat, "") eq_refl eq_refl (or_intror eq_refl)).
  - exact (H3 tt (8%nat, "") [] (8%nat, "") (tt, false, None) (8%nat, "")
             eq_refl eq_refl eq_refl (or_intror eq_refl)).
  - exact (H4 tt (9%nat, "}") [] (9%nat, "}") tt (10%nat, "") eq_refl eq_refl eq_refl).
Defined.

(** C8 does not hold as stated: at the input [@Foo() {], with a node parser
    that stops only in front of its terminator: the open brace is found, the
    input has no closing brace and the closing brace parser finds none where
    the node parser stopped, and yet the error is that nodes were expected;
    its message does not contain "missing end (expected '}')". *)
Lemma open_brace_without_end_expected_nodes :
  toy_brace "{" (6%nat, " {") = ((tt, true, None), (8%nat, ""))
  /\ containsb "@Foo() {" "}" = false
  /\ toy_brace "}" (8%nat, "") = ((tt, false, None), (8%nat, ""))
  /\ toy_Parse_until (0%nat, "@Foo() {")
     = ((Some (NTemplElementExpression (TemplElementExpression.mk (expr "Foo()") [])),
         true,
         Some (parse.Error "@Foo(): expected nodes, but none were found"
                 (toy_Position (8%nat, "")))), (8%nat, ""))
  /\ ~ Contains "@Foo(): expected nodes, but none were found"
         "missing end (expected '}')".
Proof.
  repeat split; try reflexivity.
  intros H. apply Contains_containsb in H. vm_compute in H. discriminate H.
Qed.

(** C3 at a text with a trailing space followed by a text: one space is
    emitted after the literal of the text. *)
Lemma writeNode_trailing_space_witness :
  lits (snd (writeNode printAll braces (writeNodeFuel printAll braces 1) 0
               someText (Some someText) generator0))
  = ["hi"; " "].
Proof.
  assert (H : fst (writeNode_switch printAll braces (writeNodeFuel printAll braces 1) 0
                     someText (Some someText) generator0) <> OutOfFuel)
    by (vm_compute; discriminate).
  destruct (writeNode_trailing_space printAll braces (writeNodeFuel printAll braces 1) 0
              someText (Some someText) generator0 H) as [HL _].
  rewrite HL. vm_compute. reflexivity.
Defined.

(** C10 at an expression of two spaces: the writers leave the generator as
    it is. *)
Lemma blank_expression_writes_nothing_witness :
  writeStringExpression 0 (expr "  ") generator0 = (Ok tt, generator0)
  /\ writeGoCode 0 (expr "  ") generator0 = (Ok tt, generator0).
Proof.
  assert (H : onlyWhitespace (Expression.Value (expr "  ")) = true)
    by (vm_compute; reflexivity).
  destruct (blank_expression_writes_nothing printAll braces
              (writeNodeFuel printAll braces 1) 0 (expr "  ") generator0 H)
    as (H1 & H2 & _).
  split; assumption.
Defined.

(** C10 does not hold as stated: the node of a blank string expression that
    carries a trailing space, before a text, adds the literal of one space. *)
Lemma blank_string_expression_trailing_space :
  exists (n next : Node) (e : Expression.t) (ts : TrailingSpace),
    n = NStringExpression (StringExpression.mk e ts)
    /\ onlyWhitespace (Expression.Value e) = true
    /\ fst (writeNode printAll braces (writeNodeFuel printAll braces 1) 0 n (Some next)
              generator0) = Ok tt
    /\ lits (snd (writeNode printAll braces (writeNodeFuel printAll braces 1) 0 n
                    (Some next) generator0)) = [" "]
    /\ lits generator0 = [].
Proof.
  exists blankExpression, someText, (expr "  "), SpaceHorizontal.
  repeat split; vm_compute; reflexivity.
Qed.

(** C6 at the element [br]: one literal, the open tag, and no error. *)
Lemma writeElement_void_element_witness :
  fst (writeElement printAll braces (writeNodeFuel printAll braces 1) 0 brElement
         generator0) = Ok tt
  /\ lits (snd (writeElement printAll braces (writeNodeFuel printAll braces 1) 0
                  brElement generator0)) = ["<br>"].
Proof.
  destruct (writeElement_void_element printAll braces 1 0 brElement generator0)
    as [H _].
  destruct (H eq_refl eq_refl) as (_ & Hok & _).
  split; [exact Hok|]. vm_compute. reflexivity.
Defined.

(** C9 does not hold as stated: the backslash is no quote character, and the
    contents of one backslash are emitted as two. *)
Lemma raw_element_escapes_backslash :
  exists contents : string,
    escapeQuotes printAll contents = "\\"
    /\ forall f, escapesQuotesOnly f contents = "\"
    /\ escapeQuotes printAll contents <> escapesQuotesOnly f contents.
Proof.
  exists "\". split; [vm_compute; reflexivity|].
  intros f. split; [reflexivity|]. vm_compute. discriminate.
Qed.

(** C5 does not hold as stated: the vertical trailing space of Go code among
    the contents of a script element is emitted as the escaped newline. *)
Lemma script_go_code_vertical_space :
  fst (writeScriptContents printAll 0 scriptGoCode generator0) = Ok tt
  /\ lits (snd (writeScriptContents printAll 0 scriptGoCode generator0)) = ["\n"]
  /\ "\n" <> " ".
Proof. repeat split; vm_compute; try reflexivity; discriminate. Qed.

(** C2 at the sample file: three symbol ranges, for the header, the HTML
    template and the CSS template; the Go expression that ends in a comment
    has none. *)
Lemma Generate_symbol_ranges_witness :
  let op := outputOf (Generate printAll sampleHash braces sampleFile [WithVersion "v1"]) in
  map fst (SourceMap.SymbolRanges (GeneratorOutput.SourceMap op))
  = [rangeAt 0 8; rangeAt 38 70; rangeAt 71 90]
  /\ increasingFrom 0 (map snd (SourceMap.SymbolRanges (GeneratorOutput.SourceMap op))).
Proof.
  intros op.
  assert (F : Forall setsOptionsOnly [WithVersion "v1"])
    by (constructor; [apply setsOptionsOnly_WithVersion|constructor]).
  unfold Generate in op.
  destruct (GenerateFuel printAll sampleHash braces (S (TemplateFile_depth sampleFile))
              sampleFile [WithVersion "v1"]) as [r text] eqn:E.
  assert (Er : r = Ok (outputOf (r, text))).
  { apply (f_equal fst) in E. cbn [fst] in E. rewrite <- E. vm_compute. reflexivity. }
  assert (Hlen : Z.of_nat (String.length text) < 2 ^ 64).
  { apply (f_equal snd) in E. cbn [snd] in E. rewrite <- E. vm_compute. reflexivity. }
  assert (E' : GenerateFuel printAll sampleHash braces
                 (S (TemplateFile_depth sampleFile)) sampleFile [WithVersion "v1"]
               = (Ok (outputOf (r, text)), text)).
  { rewrite <- Er. exact E. }
  destruct (Generate_symbol_ranges printAll sampleHash braces _ _ _ _ _ F E' Hlen)
    as [H1 H2].
  subst op. split; [exact H1|exact H2].
Defined.

(** C2 does not hold as stated: the file whose header is one Go expression
    that ends in a line comment generates successfully, has one declaration
    and no symbol range. *)
Lemma comment_header_without_symbol_range :
  exists (op : GeneratorOutput.t) (text : string),
    Generate printAll sampleHash braces commentFile [] = (Ok op, text)
    /\ SourceMap.SymbolRanges (GeneratorOutput.SourceMap op) = []
    /\ declarationCount commentFile = 1%nat.
Proof.
  eexists _, _. split; [vm_compute; reflexivity|]. split; reflexivity.
Qed.




(** X7 at the sample file with a version. *)
Lemma Generate_prologue_witness :
  exists rest,
    snd (GenerateFuel printAll sampleHash braces 1 sampleFile [WithVersion "v1"])
    = "// Code generated by templ - DO NOT EDIT." ++ nl ++ nl
        ++ "// templ: version: v1" ++ nl ++ rest.
Proof.
  set (res := GenerateFuel printAll sampleHash braces 1 sampleFile [WithVersion "v1"]).
  assert (F : Forall setsOptionsOnly [WithVersion "v1"])
    by (constructor; [apply setsOptionsOnly_WithVersion|constructor]).
  assert (E : res = (Ok (outputOf res), snd res)) by (vm_compute; reflexivity).
  destruct (Generate_prologue printAll sampleHash braces 1 sampleFile
              [WithVersion "v1"] (outputOf res) (snd res) F E) as [rest H].
  exists rest. rewrite H.
  replace (prologueText (GeneratorOutput.Options (outputOf res)))
    with ("// Code generated by templ - DO NOT EDIT." ++ nl ++ nl
            ++ "// templ: version: v1" ++ nl)
    by (vm_compute; reflexivity).
  now rewrite !sapp_assoc.
Defined.

(** X9 at the input [@Foo()] with a Go expression parser that fails: the
    node and the error. *)
Lemma Parse_error_paths_witness :
  toy_Parse_error (0%nat, "@Foo()")
  = ((Some (NTemplElementExpression (TemplElementExpression.mk (expr "Foo()") [])),
      true, Some (parse.Error "not an expression" (toy_Position (1%nat, "Foo()")))),
     (6%nat, "")).
Proof.
  pose proof (Parse_error_paths toyInput toy_Position unit
                (toy_rune "@") toy_parseGo_error (toy_brace "{") (toy_brace "}")
                toy_nodeParser (0%nat, "@Foo()") (1%nat, "Foo()") (6%nat, "") "@"
                (expr "Foo()")
                (Some (parse.Error "not an expression" (toy_Position (1%nat, "Foo()"))))
                eq_refl eq_refl) as [H _].
  exact (H _ eq_refl).
Defined.

(** X11 at a text with a backslash and a double quote. *)
Lemma escapeQuotes_ascii_round_trip_witness :
  goUnescape (escapeQuotes printAll quotedText) = quotedText
  /\ printableASCII (escapeQuotes printAll quotedText) = true.
Proof.
  destruct (escapeQuotes_ascii_round_trip printAll quotedText quotedText eq_refl eq_refl)
    as (H1 & H2 & _).
  split; assumption.
Defined.


(** X15 at a file with an unknown script content, and at the sample file. *)
Lemma Generate_succeeds_iff_writable_witness :
  succeeded (fst (Generate printAll sampleHash braces badScriptFile [])) = false
  /\ succeeded (fst (Generate printAll sampleHash braces sampleFile [])) = true.
Proof.
  destruct (Generate_succeeds_iff_writable printAll sampleHash braces badScriptFile []
              (Forall_nil _)) as [_ H1].
  destruct (Generate_succeeds_iff_writable printAll sampleHash braces sampleFile []
              (Forall_nil _)) as [_ H2].
  rewrite H1, H2. split; reflexivity.
Defined.

